(** * mysql-orm-lite: condition compiler, query builders and transaction session

    A shallow embedding of [src/lib/crud.ts] (the [utils] object and the
    public entry points [find]/[findCount]/[buildAndExecute*Query]),
    [src/lib/TransactionCRUD.js] and [src/lib/transactionManager.ts],
    together with the properties the specification states about them.

    JavaScript values are a small inductive type; an object is the list of
    its own enumerable properties in [Object.entries] order, because the
    order of the fragments and of the bound parameters follows it. *)

From Stdlib Require Import ZArith String Ascii List Bool Lia.
From stdpp Require Import base tactics option list strings pretty gmap.

Local Open Scope string_scope.
Local Open Scope list_scope.
Local Set Warnings "-register-all".

(** ** JavaScript values *)

Module Js.

(** Numbers are the integer-valued ones: the library never computes with an
    operand, it only tests truthiness and compares [length] with [2]. *)
Inductive jsval : Type :=
| JUndefined
| JNull
| JBool (b : bool)
| JNum (n : Z)
| JStr (s : string)
| JArr (elems : list jsval)
| JObj (props : list (string * jsval)).

(** What a [throw] carries: [new Error(message)] raised by the library, a
    [TypeError] raised by the runtime (a property of [null], a call of a
    non-function, a spread of a non-iterable), or the rejection value of
    the database driver. *)
Inductive exn : Type :=
| Error (message : string)
| TypeError
| DriverError (code : string).

Inductive result (A : Type) : Type :=
| Ok (a : A)
| Throw (e : exn).
Arguments Ok {A} a.
Arguments Throw {A} e.

(** [!v] is [negb (truthy v)]. *)
Definition truthy (v : jsval) : bool :=
  match v with
  | JUndefined | JNull => false
  | JBool b => b
  | JNum n => negb (n =? 0)%Z
  | JStr s => negb (String.eqb s "")
  | JArr _ | JObj _ => true
  end.

(** [typeof v === 'object'] (true of [null] as well). *)
Definition typeof_object (v : jsval) : bool :=
  match v with
  | JNull | JArr _ | JObj _ => true
  | _ => false
  end.

(** Property lookup in an object: the first binding of the key. *)
Fixpoint lookup_prop (k : string) (props : list (string * jsval)) : option jsval :=
  match props with
  | [] => None
  | (k', v) :: rest => if String.eqb k k' then Some v else lookup_prop k rest
  end.

(** [k in o] followed by a use [f (o.k)] of the property: [None] when the
    key is absent. *)
Definition with_prop {B} (k : string) (f : jsval -> B) : list (string * jsval) -> option B :=
  fix go props :=
    match props with
    | [] => None
    | (k', v) :: rest => if String.eqb k k' then Some (f v) else go rest
    end.

Definition chars (s : string) : list jsval :=
  map (fun c => JStr (String c EmptyString)) (list_ascii_of_string s).

(** [v.length] *)
Definition get_length (v : jsval) : result jsval :=
  match v with
  | JUndefined | JNull => Throw TypeError
  | JStr s => Ok (JNum (Z.of_nat (String.length s)))
  | JArr l => Ok (JNum (Z.of_nat (List.length l)))
  | JObj props => Ok (default JUndefined (lookup_prop "length" props))
  | JBool _ | JNum _ => Ok JUndefined
  end.

(** [v[i]] for a literal index [i]. *)
Definition get_index (v : jsval) (i : nat) : result jsval :=
  match v with
  | JUndefined | JNull => Throw TypeError
  | JStr s => Ok (nth i (chars s) JUndefined)
  | JArr l => Ok (nth i l JUndefined)
  | JObj props => Ok (default JUndefined (lookup_prop (pretty i) props))
  | JBool _ | JNum _ => Ok JUndefined
  end.

(** [v.k] for a named property other than [length], on a value that is
    neither [null] nor [undefined]. *)
Definition prop (v : jsval) (k : string) : jsval :=
  match v with
  | JObj props => default JUndefined (lookup_prop k props)
  | _ => JUndefined
  end.

(** [...v] in an argument list: arrays and strings are iterable. *)
Definition spread (v : jsval) : result (list jsval) :=
  match v with
  | JArr l => Ok l
  | JStr s => Ok (chars s)
  | _ => Throw TypeError
  end.

(** [v.map(() => '?')]: only an array has [map]. *)
Definition map_placeholders (v : jsval) : result (list string) :=
  match v with
  | JArr l => Ok (map (fun _ => "?") l)
  | _ => Throw TypeError
  end.

(** [a === b] against a number literal. *)
Definition strict_eq_num (v : jsval) (n : Z) : bool :=
  match v with JNum m => (m =? n)%Z | _ => false end.

Definition is_undefined (v : jsval) : bool :=
  match v with JUndefined => true | _ => false end.

Definition is_null (v : jsval) : bool :=
  match v with JNull => true | _ => false end.

(** [arr.join(sep)] on an array of strings. *)
Definition join (sep : string) (parts : list string) : string :=
  String.concat sep parts.

Definition indexed {A} (l : list A) : list (string * A) :=
  imap (fun i x => (pretty i, x)) l.

(** [Object.entries(v)] *)
Definition entries (v : jsval) : result (list (string * jsval)) :=
  match v with
  | JUndefined | JNull => Throw TypeError
  | JObj props => Ok props
  | JArr l => Ok (indexed l)
  | JStr s => Ok (indexed (chars s))
  | JBool _ | JNum _ => Ok []
  end.

(** [`${v}`]: string conversion inside a template literal. *)
Fixpoint to_string (v : jsval) : string :=
  match v with
  | JUndefined => "undefined"
  | JNull => "null"
  | JBool true => "true"
  | JBool false => "false"
  | JNum n => pretty n
  | JStr s => s
  | JArr l =>
      join "," (map (fun x => match x with
                              | JUndefined | JNull => ""
                              | _ => to_string x
                              end) l)
  | JObj _ => "[object Object]"
  end.

End Js.

(** ** The condition compiler and the query builders ([utils] of crud.ts) *)

Module Crud.
Import Js.

(** [_buildWhereClause] allocates one [params] array and its two closures
    push to it while they build the clause text; a [throw] abandons both.
    A computation is a function from the array so far to the outcome. *)
Definition Builder (A : Type) : Type := list jsval -> result (A * list jsval).

Definition ret {A} (a : A) : Builder A := fun ps => Ok (a, ps).

Definition bind {A B} (m : Builder A) (k : A -> Builder B) : Builder B :=
  fun ps => match m ps with
            | Ok (a, ps') => k a ps'
            | Throw e => Throw e
            end.

Definition throw {A} (e : exn) : Builder A := fun _ => Throw e.

(** [params.push(v1, ..., vn)] *)
Definition push (vs : list jsval) : Builder unit := fun ps => Ok (tt, ps ++ vs).

(** A runtime operation that may raise. *)
Definition lift {A} (r : result A) : Builder A :=
  fun ps => match r with Ok a => Ok (a, ps) | Throw e => Throw e end.

Notation "'let*' x ':=' m 'in' k" := (bind m (fun x => k))
  (at level 10, x pattern, m at level 100, k at level 200, only parsing).
Notation "m ';;' k" := (bind m (fun _ => k))
  (at level 100, k at level 200, right associativity, only parsing).

(** [arr.map(f)] for an effectful callback, left to right. *)
Definition mapB {A B} (f : A -> Builder B) : list A -> Builder (list B) :=
  fix go l :=
    match l with
    | [] => ret []
    | x :: rest => let* y := f x in let* ys := go rest in ret (y :: ys)
    end.

(** The [switch (op)] of [buildCondition]. *)
Definition buildOperator (column op : string) (val : jsval) : Builder string :=
  if String.eqb op "$eq" then push [val] ;; ret (column +:+ " = ?")
  else if String.eqb op "$ne" then push [val] ;; ret (column +:+ " != ?")
  else if String.eqb op "$gt" then push [val] ;; ret (column +:+ " > ?")
  else if String.eqb op "$gte" then push [val] ;; ret (column +:+ " >= ?")
  else if String.eqb op "$lt" then push [val] ;; ret (column +:+ " < ?")
  else if String.eqb op "$lte" then push [val] ;; ret (column +:+ " <= ?")
  else if String.eqb op "$in" then
    let* len := lift (get_length val) in
    if negb (truthy len) then ret "FALSE"
    else
      let* vs := lift (spread val) in
      push vs ;;
      let* qs := lift (map_placeholders val) in
      ret (column +:+ " IN (" +:+ join ", " qs +:+ ")")
  else if String.eqb op "$notIn" || String.eqb op "$nIn" || String.eqb op "$nin" then
    let* len := lift (get_length val) in
    if negb (truthy len) then ret "TRUE"
    else
      let* vs := lift (spread val) in
      push vs ;;
      let* qs := lift (map_placeholders val) in
      ret (column +:+ " NOT IN (" +:+ join ", " qs +:+ ")")
  else if String.eqb op "$like" then push [val] ;; ret (column +:+ " LIKE ?")
  else if String.eqb op "$between" then
    let* len := lift (get_length val) in
    if negb (strict_eq_num len 2) then throw (Error "$between requires [min, max]")
    else
      let* lo := lift (get_index val 0) in
      let* hi := lift (get_index val 1) in
      push [lo; hi] ;;
      ret (column +:+ " BETWEEN ? AND ?")
  else throw (Error ("Unsupported operator: " +:+ op)).

Definition buildCondition (key : string) (value : jsval) : Builder string :=
  let column := key in
  if is_null value then ret (column +:+ " IS NULL")
  else
    match value with
    | JObj ops =>
        let* frags := mapB (fun '(op, val) => buildOperator column op val) ops in
        ret (join " AND " frags)
    | _ => push [value] ;; ret (column +:+ " = ?")
    end.

(** [walk]; [cond.$and.map] raises unless [cond.$and] is an array. *)
Fixpoint walk (cond : jsval) : Builder string :=
  match cond with
  | JArr conds =>
      let* parts := mapB walk conds in ret (join " AND " parts)
  | JObj props =>
      let list_of (sep : string) (v : jsval) : Builder string :=
        match v with
        | JArr conds =>
            let* parts := mapB walk conds in ret ("(" +:+ join sep parts +:+ ")")
        | _ => throw TypeError
        end in
      match with_prop "$and" (list_of " AND ") props with
      | Some m => m
      | None =>
      match with_prop "$or" (list_of " OR ") props with
      | Some m => m
      | None =>
      match with_prop "$not" (fun v => let* s := walk v in ret ("(NOT " +:+ s +:+ ")")) props with
      | Some m => m
      | None =>
          let* frags := mapB (fun '(k, v) => buildCondition k v) props in
          ret (join " AND " frags)
      end end end
  | _ => ret ""
  end.

Record compiled : Type := { clause : string; params : list jsval }.

Definition _buildWhereClause (conditions : jsval) : result compiled :=
  match walk conditions [] with
  | Ok (c, ps) => Ok {| clause := c; params := ps |}
  | Throw e => Throw e
  end.

(** *** Update and delete builders *)

Definition rbind {A B} (r : result A) (k : A -> result B) : result B :=
  match r with Ok a => k a | Throw e => Throw e end.

Notation "'try*' x ':=' r 'in' k" := (rbind r (fun x => k))
  (at level 10, x pattern, r at level 100, k at level 200, only parsing).

Record prepared : Type := { setFields : list string; setParams : list jsval }.

(** One iteration of the [for ... of Object.entries(data)] loop. *)
Definition prepare_step (acc : prepared) (kv : string * jsval) : prepared :=
  let '(key, value) := kv in
  if is_undefined value then acc
  else if truthy value && typeof_object value && truthy (prop value "__raw") then
    {| setFields := setFields acc ++ [key +:+ " = " +:+ to_string (prop value "value")];
       setParams := setParams acc |}
  else if is_null value then
    {| setFields := setFields acc ++ [key +:+ " = NULL"];
       setParams := setParams acc |}
  else
    {| setFields := setFields acc ++ [key +:+ " = ?"];
       setParams := setParams acc ++ [value] |}.

(** The loop, from the two empty arrays. *)
Definition prepare_entries (es : list (string * jsval)) : prepared :=
  fold_left prepare_step es {| setFields := []; setParams := [] |}.

Definition prepareUpdateParams (data : jsval) : result prepared :=
  try* es := entries data in
  Ok (prepare_entries es).

(** A compiled statement. *)
Record statement : Type := { query : string; allParams : list jsval }.

(** The [if (where) { ... if (clause) ... }] block shared by the builders:
    the statement extended with the WHERE clause, [None] when the compiled
    clause is empty. *)
Definition append_where (st : statement) (where_ : jsval) : result (option statement) :=
  try* c := _buildWhereClause where_ in
  if truthy (JStr (clause c)) then
    Ok (Some {| query := query st +:+ " WHERE " +:+ clause c;
                allParams := allParams st ++ params c |})
  else Ok None.

Record UpdateOptions : Type :=
  { u_table : jsval; u_data : jsval; u_where : jsval }.

Definition _buildUpdateQuery (options : UpdateOptions) : result statement :=
  try* p := prepareUpdateParams (u_data options) in
  if (List.length (setFields p) =? 0)%nat then Throw (Error "No valid fields to update")
  else
    let st := {| query := "UPDATE " +:+ to_string (u_table options) +:+ " SET "
                          +:+ join ", " (setFields p);
                 allParams := setParams p |} in
    if truthy (u_where options) then
      try* r := append_where st (u_where options) in
      Ok (default st r)
    else Ok st.

(** An absent key reads as [JUndefined]. *)
Record DeleteOptions : Type := { d_table : jsval; d_where : jsval }.

Definition _buildDeleteQuery (options : DeleteOptions) : result statement :=
  if negb (truthy (d_table options)) then Throw (Error "Table name is required for delete")
  else
    let st := {| query := "DELETE FROM " +:+ to_string (d_table options);
                 allParams := [] |} in
    if truthy (d_where options) then
      try* r := append_where st (d_where options) in
      match r with
      | Some st' => Ok st'
      | None => Throw (Error "DELETE requires a valid WHERE clause for safety")
      end
    else Throw (Error "DELETE requires a WHERE clause for safety").

(** *** Leaves of a condition tree

    The tree a value denotes in the mini-language: an array is a list of
    sub-trees, [$and]/[$or] wrap a list, [$not] wraps one sub-tree, any
    other key of an object is a column condition; a value that is neither
    an array nor an object is the empty tree.  A column bound to [null]
    is an IS NULL leaf, a column bound to an operator map carries one leaf
    per operator, any other binding is an equality leaf. *)
Inductive leaf : Type :=
| LeafNull (column : string)
| LeafValue (column : string) (value : jsval)
| LeafOp (column : string) (op : string) (operand : jsval).

Definition leaf_column (l : leaf) : string :=
  match l with
  | LeafNull c | LeafValue c _ | LeafOp c _ _ => c
  end.

Definition field_leaves (kv : string * jsval) : list leaf :=
  let '(k, v) := kv in
  match v with
  | JNull => [LeafNull k]
  | JObj ops => map (fun '(op, x) => LeafOp k op x) ops
  | _ => [LeafValue k v]
  end.

Definition is_combinator (k : string) : bool :=
  String.eqb k "$and" || String.eqb k "$or" || String.eqb k "$not".

(** The leaves of the tree, depth first and left to right, as the
    mini-language has them: every key of an object counts, the columns
    beside a combinator key as much as the sub-trees under it (as in
    [{status: 'pending', $or: [...]}]). *)
Fixpoint tree_leaves (cond : jsval) : list leaf :=
  match cond with
  | JArr conds => flat_map tree_leaves conds
  | JObj props =>
      flat_map (fun kv =>
                  match kv with
                  | (k, v) =>
                      if String.eqb k "$and" || String.eqb k "$or" then
                        match v with
                        | JArr conds => flat_map tree_leaves conds
                        | _ => []
                        end
                      else if String.eqb k "$not" then tree_leaves v
                      else field_leaves (k, v)
                  end) props
  | _ => []
  end.

(** Every combinator key of the tree is the only key of its object. *)
Fixpoint combinators_alone (cond : jsval) : bool :=
  match cond with
  | JArr conds => forallb combinators_alone conds
  | JObj props =>
      match props with
      | [(k, v)] =>
          if String.eqb k "$and" || String.eqb k "$or" then
            match v with
            | JArr conds => forallb combinators_alone conds
            | _ => true
            end
          else if String.eqb k "$not" then combinators_alone v
          else true
      | _ => forallb (fun kv => negb (is_combinator (fst kv))) props
      end
  | _ => true
  end.

(** The leaves [walk] reads, in the order it reads them.  [walk] returns
    at the first of [$and], [$or], [$not] that is a key of the object, so
    it reads such an object as that combinator and nothing else: the other
    keys of the object are not among these leaves. *)
Fixpoint leaves (cond : jsval) : list leaf :=
  match cond with
  | JArr conds => flat_map leaves conds
  | JObj props =>
      let children (v : jsval) : list leaf :=
        match v with
        | JArr conds => flat_map leaves conds
        | _ => []
        end in
      match with_prop "$and" children props with
      | Some ls => ls
      | None =>
      match with_prop "$or" children props with
      | Some ls => ls
      | None =>
      match with_prop "$not" leaves props with
      | Some ls => ls
      | None => flat_map field_leaves props
      end end end
  | _ => []
  end.

(** The combinator key [walk] returns at, with what it is bound to:
    [$and] before [$or] before [$not], wherever they are among the keys. *)
Definition first_combinator (props : list (string * jsval)) : option (string * jsval) :=
  match lookup_prop "$and" props with
  | Some v => Some ("$and", v)
  | None =>
      match lookup_prop "$or" props with
      | Some v => Some ("$or", v)
      | None =>
          match lookup_prop "$not" props with
          | Some v => Some ("$not", v)
          | None => None
          end
      end
  end.

Definition comparison_operators : list string :=
  ["$eq"; "$ne"; "$gt"; "$gte"; "$lt"; "$lte"; "$like"].

Definition list_operators : list string :=
  ["$in"; "$notIn"; "$nIn"; "$nin"; "$between"].

(** A comparison leaf binds one operand to one placeholder. *)
Definition is_comparison (l : leaf) : bool :=
  match l with
  | LeafNull _ => false
  | LeafValue _ _ => true
  | LeafOp _ op _ => existsb (String.eqb op) comparison_operators
  end.



(** Number of [?] characters of a statement text: the driver binds the
    parameters to them by position. *)
Fixpoint count_placeholders (s : string) : nat :=
  match s with
  | EmptyString => 0
  | String c rest =>
      (if Ascii.eqb c "?"%char then 1 else 0) + count_placeholders rest
  end.

Definition comparison_leaves (cond : jsval) : list leaf :=
  List.filter is_comparison (tree_leaves cond).

(** The fragment the compiler writes for one leaf on its own. *)
Definition leaf_text (l : leaf) : string :=
  match l with
  | LeafNull c => c +:+ " IS NULL"
  | LeafValue c _ => c +:+ " = ?"
  | LeafOp c op v =>
      match buildOperator c op v [] with
      | Ok (s, _) => s
      | Throw _ => ""
      end
  end.

(** What one leaf on its own pushes to [params]. *)
Definition leaf_params (l : leaf) : list jsval :=
  match l with
  | LeafNull _ => []
  | LeafValue _ v => [v]
  | LeafOp c op v =>
      match buildOperator c op v [] with
      | Ok (_, ps) => ps
      | Throw _ => []
      end
  end.

(** [interleaved frags text]: [text] is the fragments [frags], in that
    order, with placeholder-free text before, between and after them. *)
Inductive interleaved : list string -> string -> Prop :=
| interleaved_nil glue :
    count_placeholders glue = 0 -> interleaved [] glue
| interleaved_cons glue frag frags rest :
    count_placeholders glue = 0 ->
    interleaved frags rest ->
    interleaved (frag :: frags) (glue +:+ frag +:+ rest).

(** What a builder pushes does not depend on what was pushed before. *)
Definition framed {A} (m : Builder A) : Prop :=
  forall ps, m ps = match m [] with
                    | Ok (a, new) => Ok (a, ps ++ new)
                    | Throw e => Throw e
                    end.

(** [writes m ls]: whenever [m] returns, it has pushed the operands of the
    leaves [ls], in order, and written their fragments, in order. *)
Definition writes (m : Builder string) (ls : list leaf) : Prop :=
  forall ps c ps', m ps = Ok (c, ps') ->
    ps' = ps ++ flat_map leaf_params ls /\ interleaved (map leaf_text ls) c.



End Crud.

(** ** The database side: pool, connections, logger, clock

    Everything behind [connectionManager] and the driver is an environment
    the library talks to.  A script fixes, for the n-th interaction, whether
    the awaited promise resolves (and with what) or rejects, and what
    [Date.now()] reads; the trace records what the library asked for. *)

Module Runtime.
Import Js.

Inductive outcome : Type :=
| Resolved (v : jsval)
| Rejected (e : exn).

Record env : Type := { reply : nat -> outcome; now : nat -> Z }.

Abbreviation conn := nat (only parsing).
Abbreviation loc := nat (only parsing).

Inductive level : Type := Info | Warn | Err.

(** What a log call is given besides its text. *)
Inductive payload : Type :=
| NoData
| Values (vs : list jsval)
| Failure (e : exn).

Inductive event : Type :=
| EvGetPool (dbConfig : jsval)
| EvPoolQuery (sql : jsval) (args : list jsval)
| EvGetConnection
| EvReserved (c : conn)
| EvBegin (c : conn)
| EvConnQuery (c : conn) (sql : jsval) (args : list jsval)
| EvCommit (c : conn)
| EvRollback (c : conn)
| EvRelease (c : conn)
| EvRecord (sql : jsval) (duration : Z)
| EvLog (lv : level) (text : string) (data : payload).

(** A [TransactionCRUD] object. *)
Record session : Type :=
  { connection : option conn; transactionActive : bool; debug : bool }.

(** The mutable state: the interaction counter, the next connection handle,
    the heap of session objects, the module variable [transactionInstance]
    of transactionManager.ts, and the trace. *)
Record world : Type :=
  { tick : nat;
    next_conn : conn;
    sessions : gmap loc session;
    transactionInstance : option loc;
    trace : list event }.

Definition initial : world :=
  {| tick := 0; next_conn := 0; sessions := ∅; transactionInstance := None; trace := [] |}.

Definition IO (A : Type) : Type := world -> result A * world.

Definition pure {A} (a : A) : IO A := fun w => (Ok a, w).

Definition raise {A} (e : exn) : IO A := fun w => (Throw e, w).

Definition seq {A B} (m : IO A) (k : A -> IO B) : IO B :=
  fun w => match m w with
           | (Ok a, w') => k a w'
           | (Throw e, w') => (Throw e, w')
           end.

(** [try { body } catch (error) { handler }] *)
Definition try_catch {A} (body : IO A) (handler : exn -> IO A) : IO A :=
  fun w => match body w with
           | (Ok a, w') => (Ok a, w')
           | (Throw e, w') => handler e w'
           end.

(** [try { body } finally { fin }] *)
Definition try_finally {A} (body : IO A) (fin : IO unit) : IO A :=
  fun w => match body w with
           | (r, w') =>
               match fin w' with
               | (Ok _, w'') => (r, w'')
               | (Throw e, w'') => (Throw e, w'')
               end
           end.

Definition emit (ev : event) : IO unit :=
  fun w => (Ok tt, {| tick := tick w; next_conn := next_conn w; sessions := sessions w;
                      transactionInstance := transactionInstance w;
                      trace := trace w ++ [ev] |}).

Definition log (lv : level) (text : string) : IO unit := emit (EvLog lv text NoData).

Definition log_with (lv : level) (text : string) (data : payload) : IO unit :=
  emit (EvLog lv text data).

Definition next_tick : IO nat :=
  fun w => (Ok (tick w), {| tick := S (tick w); next_conn := next_conn w; sessions := sessions w;
                            transactionInstance := transactionInstance w;
                            trace := trace w |}).

Definition new_handle : IO conn :=
  fun w => (Ok (next_conn w), {| tick := tick w; next_conn := S (next_conn w); sessions := sessions w;
                             transactionInstance := transactionInstance w;
                             trace := trace w |}).

Definition read_session (this : loc) : IO session :=
  fun w => match sessions w !! this with
           | Some s => (Ok s, w)
           | None => (Throw TypeError, w)
           end.

Definition write_session (this : loc) (f : session -> session) : IO unit :=
  fun w => (Ok tt, {| tick := tick w; next_conn := next_conn w;
                      sessions := alter f this (sessions w);
                      transactionInstance := transactionInstance w;
                      trace := trace w |}).

Definition set_connection (this : loc) (c : option conn) : IO unit :=
  write_session this (fun s => {| connection := c;
                                  transactionActive := transactionActive s;
                                  debug := debug s |}).

Definition set_transactionActive (this : loc) (b : bool) : IO unit :=
  write_session this (fun s => {| connection := connection s;
                                  transactionActive := b;
                                  debug := debug s |}).

Definition set_instance (v : option loc) : IO unit :=
  fun w => (Ok tt, {| tick := tick w; next_conn := next_conn w; sessions := sessions w;
                      transactionInstance := v; trace := trace w |}).

(** [new TransactionCRUD()] *)
Definition new_session : IO loc :=
  fun w =>
    let l := fresh (dom (sessions w)) in
    (Ok l, {| tick := tick w; next_conn := next_conn w;
              sessions := <[l := {| connection := None; transactionActive := false;
                                    debug := false |}]> (sessions w);
              transactionInstance := transactionInstance w;
              trace := trace w |}).

Notation "'do*' x ':=' m 'in' k" := (seq m (fun x => k))
  (at level 10, x pattern, m at level 100, k at level 200, only parsing).
Notation "m ';;;' k" := (seq m (fun _ => k))
  (at level 100, k at level 200, right associativity, only parsing).

Section Environment.
Variable E : env.

(** [await] of an operation of the environment. *)
Definition await (ev : event) : IO jsval :=
  emit ev ;;;
  do* n := next_tick in
  match reply E n with
  | Resolved v => pure v
  | Rejected e => raise e
  end.

(** [Date.now()] *)
Definition date_now : IO Z :=
  do* n := next_tick in pure (now E n).

(** [await connectionManager.getPool(dbConfig)] *)
Definition getPool (dbConfig : jsval) : IO unit :=
  await (EvGetPool dbConfig) ;;; pure tt.

(** [const [results] = await pool.query(query, params)]: the script gives
    the first component of what the driver resolves with. *)
Definition pool_query (sql : jsval) (args : list jsval) : IO jsval :=
  await (EvPoolQuery sql args).

(** [await pool.getConnection()]: a resolved promise hands out a handle
    that was never handed out before. *)
Definition pool_getConnection : IO conn :=
  await EvGetConnection ;;;
  do* c := new_handle in
  emit (EvReserved c) ;;;
  pure c.

Definition conn_beginTransaction (c : conn) : IO unit :=
  await (EvBegin c) ;;; pure tt.

Definition conn_query (c : conn) (sql : jsval) (args : list jsval) : IO jsval :=
  await (EvConnQuery c sql args).

Definition conn_commit (c : conn) : IO unit :=
  await (EvCommit c) ;;; pure tt.

Definition conn_rollback (c : conn) : IO unit :=
  await (EvRollback c) ;;; pure tt.

(** [connection.release()] *)
Definition conn_release (c : conn) : IO unit := emit (EvRelease c).

End Environment.

End Runtime.

(** ** The execution wrapper and the public entry points of crud.ts *)

Module CrudApi.
Import Js Crud Runtime.

Section Environment.
Variable E : env.

(** [utils.logQueryPerformance] *)
Definition logQueryPerformance (sql : jsval) (startTime : Z) (args : list jsval) : IO Z :=
  do* t := date_now E in
  let duration := (t - startTime)%Z in
  (if (1000 <? duration)%Z then
     log Warn " Slow Query ================================================================== " ;;;
     log Warn (" Execution Time: " +:+ pretty duration +:+ "ms") ;;;
     log Warn (" Query: " +:+ to_string sql) ;;;
     (if negb (List.length args =? 0)%nat
      then log_with Warn " Parameters: " (Values args) else pure tt) ;;;
     log Warn " =========================================================================== "
   else pure tt) ;;;
  pure duration.

(** [utils.executeQuery].  The call of [performanceMonitor.recordQuery]
    is an event: on a statement that is a string, as [query: string]
    declares it, the call returns.  (On another value an enabled monitor
    would raise from [query.trim()]; what is said about the recorded
    metric is said of string statements.) *)
Definition executeQuery (sql : jsval) (args : list jsval) (dbConfig : jsval)
    (operation : string) : IO jsval :=
  do* startTime := date_now E in
  try_catch
    (getPool E dbConfig ;;;
     do* results := pool_query E sql args in
     do* duration := logQueryPerformance sql startTime args in
     emit (EvRecord sql duration) ;;;
     pure results)
    (fun error =>
       log_with Err (operation +:+ " Error: ") (Failure error) ;;;
       log Err ("Query: " +:+ to_string sql) ;;;
       (if negb (List.length args =? 0)%nat
        then log_with Err "Parameters:" (Values args) else pure tt) ;;;
       raise error).

(** [find(query, params = [], dbConfig)] *)
Definition find (sql : jsval) (args : list jsval) (dbConfig : jsval) : IO jsval :=
  if negb (truthy sql) then pure (JArr [])
  else executeQuery sql args dbConfig "find".

(** [findCount(query, params = [], dbConfig)] *)
Definition findCount (sql : jsval) (args : list jsval) (dbConfig : jsval) : IO jsval :=
  if negb (truthy sql) then pure (JNum 0)
  else
    do* results := executeQuery sql args dbConfig "findCount" in
    if truthy results then
      match get_index results 0 with
      | Ok row => if truthy row then pure (prop row "count") else pure (JNum 0)
      | Throw e => raise e
      end
    else pure (JNum 0).

(** A builder raises before anything is awaited. *)
Definition built {A} (r : result A) : IO A :=
  match r with Ok a => pure a | Throw e => raise e end.

Definition buildAndExecuteUpdateQuery (options : UpdateOptions) (dbConfig : jsval) : IO jsval :=
  do* st := built (_buildUpdateQuery options) in
  do* res := executeQuery (JStr (query st)) (allParams st) dbConfig
               "buildAndExecuteUpdateQuery" in
  match res with
  | JUndefined | JNull => raise TypeError
  | _ => pure (prop res "affectedRows")
  end.

Definition buildAndExecuteDeleteQuery (options : DeleteOptions) (dbConfig : jsval) : IO jsval :=
  do* st := built (_buildDeleteQuery options) in
  do* res := executeQuery (JStr (query st)) (allParams st) dbConfig
               "buildAndExecuteDeleteQuery" in
  match res with
  | JUndefined | JNull => raise TypeError
  | _ => pure (prop res "affectedRows")
  end.

End Environment.
End CrudApi.

(** ** TransactionCRUD.js *)

Module TransactionCRUD.
Import Js Runtime.

Section Environment.
Variable E : env.

(** [_cleanup()] *)
Definition _cleanup (this : loc) : IO unit :=
  do* s := read_session this in
  (match connection s with
   | Some c => conn_release c ;;; set_connection this None
   | None => pure tt
   end) ;;;
  set_transactionActive this false.

(** [init(dbConfig)] *)
Definition init (this : loc) (dbConfig : jsval) : IO conn :=
  try_catch
    (getPool E dbConfig ;;;
     do* c := pool_getConnection E in
     set_connection this (Some c) ;;;
     conn_beginTransaction E c ;;;
     set_transactionActive this true ;;;
     log Info "Transaction initialized successfully" ;;;
     pure c)
    (fun error =>
       log_with Err "Failed to initialize transaction:" (Failure error) ;;;
       do* s := read_session this in
       (match connection s with
        | Some c => conn_release c ;;; set_connection this None
        | None => pure tt
        end) ;;;
       raise error).

(** [executeQuery(query, params = [], operation = 'TRANS_QUERY')] *)
Definition executeQuery (this : loc) (sql : jsval) (args : list jsval)
    (operation : string) : IO jsval :=
  do* s := read_session this in
  match connection s with
  | Some c =>
      if negb (transactionActive s) then
        raise (Error "No active transaction. Call init() first.")
      else
        do* startTime := date_now E in
        try_catch
          (do* results := conn_query E c sql args in
           do* t := date_now E in
           (if (1000 <? t - startTime)%Z
            then log Warn ("[TRANS] Slow Query (" +:+ pretty (t - startTime)%Z +:+ "ms): "
                           +:+ to_string sql)
            else pure tt) ;;;
           pure results)
          (fun error =>
             log_with Err (operation +:+ " Failed: ") (Failure error) ;;;
             log Err ("Query: " +:+ to_string sql) ;;;
             raise error)
  | None => raise (Error "No active transaction. Call init() first.")
  end.

(** [rollback()] *)
Definition rollback (this : loc) : IO unit :=
  do* s := read_session this in
  match connection s with
  | None => pure tt
  | Some c =>
      try_finally
        (try_catch
           (conn_rollback E c ;;; log Info "Transaction rolled back")
           (fun error => log_with Err "Rollback failed:" (Failure error)))
        (_cleanup this)
  end.

(** [commit()] *)
Definition commit (this : loc) : IO unit :=
  do* s := read_session this in
  match connection s with
  | Some c =>
      if negb (transactionActive s) then raise (Error "No active transaction to commit")
      else
        try_finally
          (try_catch
             (conn_commit E c ;;; log Info "Transaction committed")
             (fun error =>
                log_with Err "Commit failed, rolling back..." (Failure error) ;;;
                rollback this ;;;
                raise error))
          (_cleanup this)
  | None => raise (Error "No active transaction to commit")
  end.

End Environment.
End TransactionCRUD.

(** ** transactionManager.ts *)

Module TransactionManager.
Import Js Runtime.

Definition setInstance (instance : loc) : IO unit := set_instance (Some instance).

Definition getInstance : IO (option loc) := fun w => (Ok (transactionInstance w), w).

Definition clearInstance : IO unit := set_instance None.

(** [transactionInstance !== null && transactionInstance.transactionActive] *)
Definition hasActiveTransaction (w : world) : bool :=
  match transactionInstance w with
  | None => false
  | Some l =>
      match sessions w !! l with
      | Some s => transactionActive s
      | None => false
      end
  end.

End TransactionManager.

(** ** Call sequences on one session and what the trace says about them *)

Module Lifetime.
Import Js Runtime TransactionCRUD.

Inductive call : Type :=
| CallInit (dbConfig : jsval)
| CallExecute (sql : jsval) (args : list jsval)
| CallCommit
| CallRollback.

(** The caller awaits the method and catches whatever it raises. *)
Definition run_call (E : env) (this : loc) (c : call) (w : world) : world :=
  match c with
  | CallInit cfg => snd (init E this cfg w)
  | CallExecute sql args => snd (executeQuery E this sql args "TRANS_QUERY" w)
  | CallCommit => snd (commit E this w)
  | CallRollback => snd (rollback E this w)
  end.

Definition run_calls (E : env) (this : loc) (calls : list call) (w : world) : world :=
  fold_left (fun w c => run_call E this c w) calls w.

(** The connection the session object holds. *)
Definition held (w : world) (this : loc) : option conn :=
  match sessions w !! this with
  | Some s => connection s
  | None => None
  end.

Definition holds (w : world) (this : loc) (c : conn) : nat :=
  match held w this with
  | Some c' => if (c =? c')%nat then 1 else 0
  | None => 0
  end.

Definition is_reserve (c : conn) (ev : event) : bool :=
  match ev with EvReserved c' => (c =? c')%nat | _ => false end.

Definition is_release (c : conn) (ev : event) : bool :=
  match ev with EvRelease c' => (c =? c')%nat | _ => false end.

(** How often the pool handed out / took back connection [c]. *)
Definition reserves (c : conn) (tr : list event) : nat :=
  List.length (List.filter (is_reserve c) tr).

Definition releases (c : conn) (tr : list event) : nat :=
  List.length (List.filter (is_release c) tr).

Definition any_reserve (ev : event) : bool :=
  match ev with EvReserved _ => true | _ => false end.

Definition any_release (ev : event) : bool :=
  match ev with EvRelease _ => true | _ => false end.

(** Connections out of the pool: handed out and not yet taken back. *)
Definition in_use (tr : list event) : Z :=
  (Z.of_nat (List.length (List.filter any_reserve tr))
   - Z.of_nat (List.length (List.filter any_release tr)))%Z.

(** [init] is only called while the session holds no connection. *)
Fixpoint init_when_idle (E : env) (this : loc) (calls : list call) (w : world) : bool :=
  match calls with
  | [] => true
  | c :: rest =>
      (match c with
       | CallInit _ => match held w this with None => true | Some _ => false end
       | _ => true
       end) && init_when_idle E this rest (run_call E this c w)
  end.

(** An environment in which every operation succeeds. *)
Definition all_succeed : env :=
  {| reply := fun _ => Resolved JUndefined; now := fun _ => 0%Z |}.

(** An environment in which the first [k] operations succeed and every
    later one is rejected. *)
Definition fail_from (k : nat) : env :=
  {| reply := fun n => if (n <? k)%nat then Resolved JUndefined
                       else Rejected (DriverError "ER_LOCK_DEADLOCK");
     now := fun _ => 0%Z |}.

(** A session fresh from [new TransactionCRUD()]. *)
Definition created : session :=
  {| connection := None; transactionActive := false; debug := false |}.

Definition terminated (s : session) : session :=
  {| connection := None; transactionActive := false; debug := debug s |}.

(** The event a rollback logs, by what the driver answered. *)
Definition rollback_logged (r : outcome) : event :=
  match r with
  | Resolved _ => EvLog Info "Transaction rolled back" NoData
  | Rejected e => EvLog Err "Rollback failed:" (Failure e)
  end.

(** The trace of a [commit()] on an active session holding [c], by what
    the driver answered to [commit] and, after a failure, to [rollback]. *)
Definition commit_events (c : conn) (committed rolled_back : outcome) : list event :=
  match committed with
  | Resolved _ => [EvCommit c; EvLog Info "Transaction committed" NoData; EvRelease c]
  | Rejected e =>
      [EvCommit c; EvLog Err "Commit failed, rolling back..." (Failure e);
       EvRollback c; rollback_logged rolled_back; EvRelease c]
  end.

Definition commit_result (committed : outcome) : result unit :=
  match committed with
  | Resolved _ => Ok tt
  | Rejected e => Throw e
  end.

Definition commit_ticks (committed : outcome) : nat :=
  match committed with
  | Resolved _ => 1
  | Rejected _ => 2
  end.

(** An event that neither hands out nor takes back a connection. *)
Definition quiet (ev : event) : bool :=
  negb (any_reserve ev) && negb (any_release ev).

(** What [init(dbConfig)] does on a session that holds no connection, by
    what the environment answers to [getPool], [getConnection] and
    [beginTransaction]. *)
Definition init_outcome (E : env) (this : loc) (dbConfig : jsval) (w : world) (s : session)
    : result nat * world :=
  let failed e := EvLog Err "Failed to initialize transaction:" (Failure e) in
  let c := next_conn w in
  match reply E (tick w) with
  | Rejected e =>
      (Throw e,
       {| tick := 1 + tick w; next_conn := next_conn w; sessions := sessions w;
          transactionInstance := transactionInstance w;
          trace := trace w ++ [EvGetPool dbConfig; failed e] |})
  | Resolved _ =>
  match reply E (1 + tick w) with
  | Rejected e =>
      (Throw e,
       {| tick := 2 + tick w; next_conn := next_conn w; sessions := sessions w;
          transactionInstance := transactionInstance w;
          trace := trace w ++ [EvGetPool dbConfig; EvGetConnection; failed e] |})
  | Resolved _ =>
  match reply E (2 + tick w) with
  | Rejected e =>
      (Throw e,
       {| tick := 3 + tick w; next_conn := S c;
          sessions := <[this := {| connection := None;
                                  transactionActive := transactionActive s;
                                  debug := debug s |}]> (sessions w);
          transactionInstance := transactionInstance w;
          trace := trace w ++ [EvGetPool dbConfig; EvGetConnection; EvReserved c;
                               EvBegin c; failed e; EvRelease c] |})
  | Resolved _ =>
      (Ok c,
       {| tick := 3 + tick w; next_conn := S c;
          sessions := <[this := {| connection := Some c; transactionActive := true;
                                  debug := debug s |}]> (sessions w);
          transactionInstance := transactionInstance w;
          trace := trace w ++ [EvGetPool dbConfig; EvGetConnection; EvReserved c;
                               EvBegin c;
                               EvLog Info "Transaction initialized successfully" NoData] |})
  end end end.

(** The trace [tr] accounts for every connection: handles from [n] on were
    never handed out, no handle was handed out twice, each handle handed
    out was taken back exactly once unless it is the one still held, and
    the pool misses exactly the connection held. *)
Definition balanced_with (tr : list event) (n : conn) (h : option conn) : Prop :=
  (forall c, n <= c -> reserves c tr = 0) /\
  (forall c, reserves c tr <= 1) /\
  (forall c, releases c tr
             + match h with Some c' => if (c =? c')%nat then 1 else 0 | None => 0 end
             = reserves c tr) /\
  in_use tr = match h with Some _ => 1%Z | None => 0%Z end.

(** The flag is set exactly while a connection is held. *)
Definition consistent (s : session) : Prop :=
  transactionActive s = match connection s with Some _ => true | None => false end.

Definition balanced (w : world) (this : loc) : Prop :=
  (exists s, sessions w !! this = Some s /\ consistent s) /\
  balanced_with (trace w) (next_conn w) (held w this).

End Lifetime.

(** ** More about the condition compiler *)

Module CrudMore.
Import Js Crud.

(** The operators the [switch] has a case for. *)
Definition recognized_operators : list string :=
  comparison_operators ++ list_operators.

Definition leaf_recognized (l : leaf) : bool :=
  match l with
  | LeafOp _ op _ => existsb (String.eqb op) recognized_operators
  | _ => true
  end.

(** No [?] inside the column name of the leaf. *)
Definition column_plain (l : leaf) : bool :=
  (count_placeholders (leaf_column l) =? 0)%nat.

(** [arr.join(sep)] on an array of any values: [null] and [undefined]
    elements are written as the empty string. *)
Definition array_join (sep : string) (l : list jsval) : string :=
  join sep (map (fun x => match x with
                          | JUndefined | JNull => ""
                          | _ => to_string x
                          end) l).

(** [s.includes(sub)] *)
Fixpoint includes (s sub : string) : bool :=
  String.prefix sub s ||
  match s with
  | EmptyString => false
  | String _ rest => includes rest sub
  end.

(** [s.startsWith(sub)] *)
Definition startsWith (s sub : string) : bool := String.prefix sub s.

(** The string methods whose result depends on the Unicode tables of the
    runtime; the builders only pass their results on. *)
Record strings : Type :=
  { toLowerCase : string -> string;
    toUpperCase : string -> string;
    trim : string -> string }.

Definition lower_ascii (c : ascii) : ascii :=
  let n := nat_of_ascii c in
  if (65 <=? n)%nat && (n <=? 90)%nat then ascii_of_nat (n + 32) else c.

Definition upper_ascii (c : ascii) : ascii :=
  let n := nat_of_ascii c in
  if (97 <=? n)%nat && (n <=? 122)%nat then ascii_of_nat (n - 32) else c.

Definition is_space_ascii (c : ascii) : bool :=
  let n := nat_of_ascii c in
  ((9 <=? n)%nat && (n <=? 13)%nat) || (n =? 32)%nat.

Fixpoint map_string (f : ascii -> ascii) (s : string) : string :=
  match s with
  | EmptyString => EmptyString
  | String c rest => String (f c) (map_string f rest)
  end.

Fixpoint trim_left (s : string) : string :=
  match s with
  | EmptyString => EmptyString
  | String c rest => if is_space_ascii c then trim_left rest else s
  end.

(** The three methods on strings of ASCII characters. *)
Definition ascii_strings : strings :=
  {| toLowerCase := map_string lower_ascii;
     toUpperCase := map_string upper_ascii;
     trim := fun s => String.rev (trim_left (String.rev (trim_left s))) |}.

(** The tag test of [prepareUpdateParams]. *)
Definition is_raw (value : jsval) : bool :=
  truthy value && typeof_object value && truthy (prop value "__raw").

(** An entry of an update [data] map that writes no [?] of its own: it is
    dropped, or its key has no [?] and, when it is a raw expression, its
    text has none either. *)
Definition entry_plain (kv : string * jsval) : bool :=
  let '(key, value) := kv in
  is_undefined value ||
  ((count_placeholders key =? 0)%nat &&
   (if is_raw value
    then (count_placeholders (to_string (prop value "value")) =? 0)%nat
    else true)).

(** No [?] in the table, in the keys and raw texts of [data], or in the
    column names of [where]. *)
Definition update_plain (options : UpdateOptions) : bool :=
  (count_placeholders (to_string (u_table options)) =? 0)%nat &&
  match entries (u_data options) with
  | Ok es => forallb entry_plain es
  | Throw _ => true
  end &&
  forallb column_plain (leaves (u_where options)).

Definition delete_plain (options : DeleteOptions) : bool :=
  (count_placeholders (to_string (d_table options)) =? 0)%nat &&
  forallb column_plain (leaves (d_where options)).

End CrudMore.

(** ** The select builder and the remaining entry points of crud.ts *)

Module CrudSelect.
Import Js Crud CrudMore Runtime CrudApi.

(** An absent key reads as [JUndefined]. *)
Record SelectOptions : Type :=
  { s_table : jsval; s_fields : jsval; s_joins : jsval; s_where : jsval;
    s_orderBy : jsval; s_limit : jsval; s_offset : jsval; s_groupBy : jsval;
    s_having : jsval; s_alias : jsval; s_forUpdate : jsval }.

(** [x = dflt] in a destructuring pattern: the default replaces
    [undefined] only. *)
Definition or_default (dflt v : jsval) : jsval :=
  if is_undefined v then dflt else v.

(** [`${alias ? ' ' + alias : ''}`] *)
Definition alias_text (alias : jsval) : string :=
  if truthy alias then " " +:+ to_string alias else "".

(** [`${flag ? keyword + value : ''}`] for the optional clauses. *)
Definition optional_clause (keyword : string) (v : jsval) : string :=
  if truthy v then keyword +:+ to_string v else "".

Definition set_where (o : SelectOptions) (w : jsval) : SelectOptions :=
  {| s_table := s_table o; s_fields := s_fields o; s_joins := s_joins o; s_where := w;
     s_orderBy := s_orderBy o; s_limit := s_limit o; s_offset := s_offset o;
     s_groupBy := s_groupBy o; s_having := s_having o; s_alias := s_alias o;
     s_forUpdate := s_forUpdate o |}.

Definition set_paging (o : SelectOptions) (limit offset : jsval) : SelectOptions :=
  {| s_table := s_table o; s_fields := s_fields o; s_joins := s_joins o;
     s_where := s_where o; s_orderBy := s_orderBy o; s_limit := limit;
     s_offset := offset; s_groupBy := s_groupBy o; s_having := s_having o;
     s_alias := s_alias o; s_forUpdate := s_forUpdate o |}.

Definition set_fields (o : SelectOptions) (fields : jsval) : SelectOptions :=
  {| s_table := s_table o; s_fields := fields; s_joins := s_joins o;
     s_where := s_where o; s_orderBy := s_orderBy o; s_limit := s_limit o;
     s_offset := s_offset o; s_groupBy := s_groupBy o; s_having := s_having o;
     s_alias := s_alias o; s_forUpdate := s_forUpdate o |}.

Section Strings.
Variable S : strings.

(** The callback [field => field && field.trim() !== ''] of the filter;
    only a string has [trim]. *)
Definition keep_field (field : jsval) : result bool :=
  if truthy field then
    match field with
    | JStr f => Ok (negb (String.eqb (trim S f) ""))
    | _ => Throw TypeError
    end
  else Ok false.

Fixpoint filter_fields (l : list jsval) : result (list jsval) :=
  match l with
  | [] => Ok []
  | field :: rest =>
      try* keep := keep_field field in
      try* kept := filter_fields rest in
      Ok (if keep then field :: kept else kept)
  end.

(** The text written for [fields]. *)
Definition select_fields (fields : jsval) : result string :=
  match or_default (JStr "*") fields with
  | JArr [] => Ok "*"
  | JArr l => try* kept := filter_fields l in Ok (array_join ", " kept)
  | other => Ok (to_string other)
  end.

(** One round of the [for (const join of joins)] loop: the text added. *)
Definition join_text (j : jsval) : result string :=
  match j with
  | JUndefined | JNull => Throw TypeError
  | _ =>
      let on := prop j "on" in
      let onClause := match on with
                      | JArr l => array_join " AND " l
                      | _ => to_string on
                      end in
      match or_default (JStr "INNER") (prop j "type") with
      | JStr type =>
          Ok (" " +:+ toUpperCase S type +:+ " JOIN " +:+ to_string (prop j "table")
              +:+ alias_text (prop j "alias") +:+ " ON " +:+ onClause)
      | _ => Throw TypeError
      end
  end.

(** What [for ... of joins] iterates over. *)
Definition join_list (joins : jsval) : result (list jsval) :=
  spread (or_default (JArr []) joins).

Fixpoint joins_text (js : list jsval) : result string :=
  match js with
  | [] => Ok ""
  | j :: rest =>
      try* t := join_text j in
      try* ts := joins_text rest in
      Ok (t +:+ ts)
  end.

(** [typeof limit === 'number' && limit && limit > 0] *)
Definition positive_number (v : jsval) : bool :=
  match v with JNum n => (0 <? n)%Z | _ => false end.

(** The LIMIT/OFFSET block. *)
Definition limit_text (limit offset : jsval) : string :=
  if positive_number limit then
    " LIMIT " +:+ to_string limit +:+
    match offset with
    | JNum _ => " OFFSET " +:+ to_string offset
    | _ => ""
    end
  else "".

Definition _buildSelectQuery (options : SelectOptions) : result statement :=
  try* fields := select_fields (s_fields options) in
  try* js := join_list (s_joins options) in
  try* joined := joins_text js in
  let st := {| query := "SELECT " +:+ fields +:+ " FROM " +:+ to_string (s_table options)
                        +:+ alias_text (s_alias options) +:+ joined;
               allParams := [] |} in
  try* st := (if truthy (s_where options) then
                try* r := append_where st (s_where options) in Ok (default st r)
              else Ok st) in
  Ok {| query := query st
                 +:+ optional_clause " GROUP BY " (s_groupBy options)
                 +:+ optional_clause " HAVING " (s_having options)
                 +:+ optional_clause " ORDER BY " (s_orderBy options)
                 +:+ limit_text (s_limit options) (s_offset options)
                 +:+ (if truthy (s_forUpdate options) then " FOR UPDATE" else "");
        allParams := allParams st |}.

(** [/^[a-zA-Z0-9_]+$/.test(s)] *)
Definition word_char (c : ascii) : bool :=
  let n := nat_of_ascii c in
  ((48 <=? n)%nat && (n <=? 57)%nat) || ((65 <=? n)%nat && (n <=? 90)%nat) ||
  ((97 <=? n)%nat && (n <=? 122)%nat) || (n =? 95)%nat.

Definition is_word (s : string) : bool :=
  negb (String.eqb s "") && forallb word_char (list_ascii_of_string s).

(** [utils.validateUpdateParams] *)
Definition validateUpdateParams (table data sql : jsval) : list string :=
  (match table with
   | JStr t =>
       if negb (truthy table) then ["Invalid table name"]
       else if negb (is_word t) then ["Table name contains invalid characters"]
       else []
   | _ => ["Invalid table name"]
   end) ++
  (match data with
   | JObj props =>
       if (List.length props =? 0)%nat then ["Data object cannot be empty"] else []
   | _ => ["Data must be a non-null object"]
   end) ++
  (match sql with
   | JStr q =>
       if negb (truthy sql) then ["Invalid WHERE clause"]
       else if negb (includes (toLowerCase S q) "where")
            then ["WHERE clause is required for security"]
       else []
   | _ => ["Invalid WHERE clause"]
   end).

(** The statement of [insert]: one column and one placeholder per key of
    [data], the values as parameters. *)
Definition insert_statement (table data : jsval) (isIgnore : bool) : result statement :=
  if negb (truthy table) || negb (truthy data) || negb (typeof_object data)
  then Throw (Error "Invalid table or data")
  else
    try* es := entries data in
    let fields := map fst es in
    let values := map snd es in
    let placeholders := join ", " (map (fun _ => "?") fields) in
    Ok {| query := (if isIgnore then "INSERT IGNORE INTO " else "INSERT INTO ")
                   +:+ to_string table +:+ " (" +:+ join ", " fields
                   +:+ ") VALUES (" +:+ placeholders +:+ ")";
          allParams := values |}.



Variable E : env.

(** [result.k] on what the driver resolved with. *)
Definition result_prop (res : jsval) (k : string) : IO jsval :=
  match res with
  | JUndefined | JNull => raise TypeError
  | _ => pure (prop res k)
  end.

(** [insert(table, data, dbConfig, debug = false, isIgnore = false)] *)
Definition insert (table data dbConfig : jsval) (debug isIgnore : bool) : IO jsval :=
  do* st := built (insert_statement table data isIgnore) in
  do* res := executeQuery E (JStr (query st)) (allParams st) dbConfig "insert" in
  do* insertId := result_prop res "insertId" in
  (if debug then log_with Info "INSERT" (Values [table; insertId]) else pure tt) ;;;
  pure insertId.

(** [update(table, data, query, dbConfig, debug = false)] *)
Definition update (table data sql dbConfig : jsval) (debug : bool) : IO jsval :=
  let errors := validateUpdateParams table data sql in
  if negb (List.length errors =? 0)%nat
  then raise (Error ("Validation failed: " +:+ join ", " errors))
  else
    do* p := built (prepareUpdateParams data) in
    if (List.length (setFields p) =? 0)%nat then raise (Error "No valid fields to update")
    else
      let text := "UPDATE " +:+ to_string table +:+ " SET " +:+ join ", " (setFields p)
                  +:+ " " +:+ to_string sql in
      do* res := executeQuery E (JStr text) (setParams p) dbConfig "update" in
      do* affected := result_prop res "affectedRows" in
      (if debug then log_with Info "UPDATE" (Values [table; affected]) else pure tt) ;;;
      pure affected.

(** The test [!query || !query.toLowerCase().includes('where')]; only a
    string has [toLowerCase]. *)
Definition lacks_where (sql : jsval) : result bool :=
  if negb (truthy sql) then Ok true
  else match sql with
       | JStr q => Ok (negb (includes (toLowerCase S q) "where"))
       | _ => Throw TypeError
       end.

(** [_delete(query, table, dbConfig)], exported as [delete]. *)
Definition _delete (sql table dbConfig : jsval) : IO jsval :=
  do* missing := built (lacks_where sql) in
  if missing then raise (Error "Invalid query or missing WHERE clause")
  else
    let text := if truthy table
                then JStr ("DELETE FROM " +:+ to_string table +:+ " " +:+ to_string sql)
                else sql in
    do* res := executeQuery E text [] dbConfig "delete" in
    do* affected := result_prop res "affectedRows" in
    log Info ("Deleted " +:+ to_string affected +:+ " records from "
              +:+ (if truthy table then to_string table else "custom query")) ;;;
    pure affected.

(** [buildAndExecuteSelectQuery(options, dbConfig)] *)
Definition buildAndExecuteSelectQuery (options : SelectOptions) (dbConfig : jsval)
    : IO jsval :=
  do* st := built (_buildSelectQuery options) in
  executeQuery E (JStr (query st)) (allParams st) dbConfig "buildAndExecuteSelectQuery".

End Strings.
End CrudSelect.

(** ** The CRUD methods of TransactionCRUD.js *)

Module TransactionApi.
Import Js Crud CrudMore Runtime CrudApi CrudSelect TransactionCRUD.

Definition set_forUpdate (o : SelectOptions) (v : jsval) : SelectOptions :=
  {| s_table := s_table o; s_fields := s_fields o; s_joins := s_joins o;
     s_where := s_where o; s_orderBy := s_orderBy o; s_limit := s_limit o;
     s_offset := s_offset o; s_groupBy := s_groupBy o; s_having := s_having o;
     s_alias := s_alias o; s_forUpdate := v |}.

Definition is_log (ev : event) : bool :=
  match ev with EvLog _ _ _ => true | _ => false end.

Section Environment.
Variable S : strings.
Variable E : env.

(** [find(query, params = [])] *)
Definition find (this : loc) (sql : jsval) (args : list jsval) : IO jsval :=
  executeQuery E this sql args "TRANS_FIND".

(** [insert(table, data)] *)
Definition insert (this : loc) (table data : jsval) : IO jsval :=
  if negb (truthy table) || negb (truthy data) then raise (Error "Invalid table or data")
  else
    do* es := built (entries data) in
    let fields := map fst es in
    let values := map snd es in
    let placeholders := join ", " (map (fun _ => "?") fields) in
    let text := "INSERT INTO " +:+ to_string table +:+ " (" +:+ join ", " fields
                +:+ ") VALUES (" +:+ placeholders +:+ ")" in
    do* res := executeQuery E this (JStr text) values "TRANS_INSERT" in
    result_prop res "insertId".

(** [update(table, data, query)] *)
Definition update (this : loc) (table data sql : jsval) : IO jsval :=
  do* missing := built (lacks_where S sql) in
  if missing then raise (Error "Update requires WHERE")
  else
    do* p := built (prepareUpdateParams data) in
    let text := "UPDATE " +:+ to_string table +:+ " SET " +:+ join ", " (setFields p)
                +:+ " " +:+ to_string sql in
    do* res := executeQuery E this (JStr text) (setParams p) "TRANS_UPDATE" in
    result_prop res "affectedRows".

(** [delete(query, table)] *)
Definition delete (this : loc) (sql table : jsval) : IO jsval :=
  do* missing := built (lacks_where S sql) in
  if missing then raise (Error "Delete requires WHERE")
  else
    let text := if truthy table
                then JStr ("DELETE FROM " +:+ to_string table +:+ " " +:+ to_string sql)
                else sql in
    do* res := executeQuery E this text [] "TRANS_DELETE" in
    result_prop res "affectedRows".

(** [buildAndExecuteSelectQuery(options = {})] *)
Definition buildAndExecuteSelectQuery (this : loc) (options : SelectOptions) : IO jsval :=
  try_catch
    (do* st := built (_buildSelectQuery S options) in
     executeQuery E this (JStr (query st)) (allParams st) "TRANS_BUILD_SELECT")
    (fun err =>
       log_with Err "buildAndExecuteSelectQuery failed:" (Failure err) ;;; raise err).

(** [buildAndExecuteUpdateQuery(options = {})] *)
Definition buildAndExecuteUpdateQuery (this : loc) (options : UpdateOptions) : IO jsval :=
  try_catch
    (do* st := built (_buildUpdateQuery options) in
     do* res := executeQuery E this (JStr (query st)) (allParams st) "TRANS_BUILD_UPDATE" in
     result_prop res "affectedRows")
    (fun err =>
       log_with Err "buildAndExecuteUpdateQuery failed:" (Failure err) ;;; raise err).

(** [buildAndExecuteDeleteQuery(options = {})] *)
Definition buildAndExecuteDeleteQuery (this : loc) (options : DeleteOptions) : IO jsval :=
  try_catch
    (do* st := built (_buildDeleteQuery options) in
     do* res := executeQuery E this (JStr (query st)) (allParams st) "TRANS_BUILD_DELETE" in
     result_prop res "affectedRows")
    (fun err =>
       log_with Err "buildAndExecuteDeleteQuery failed:" (Failure err) ;;; raise err).

(** [findForUpdate(options)]: sets [options.forUpdate] first. *)
Definition findForUpdate (this : loc) (options : SelectOptions) : IO jsval :=
  buildAndExecuteSelectQuery this (set_forUpdate options (JBool true)).

End Environment.

(** The world after some lines were logged and nothing else happened. *)
Definition with_logs (w : world) (logs : list event) : world :=
  {| tick := tick w; next_conn := next_conn w; sessions := sessions w;
     transactionInstance := transactionInstance w; trace := trace w ++ logs |}.

(** [m] raises from [w] without asking the environment for anything: at
    most it logs. *)
Definition refused {A} (m : IO A) (w : world) : Prop :=
  exists e logs, m w = (Throw e, with_logs w logs) /\ forallb is_log logs = true.

(** [m] never writes the registry slot. *)
Definition keeps_instance {A} (m : IO A) : Prop :=
  forall w, transactionInstance (snd (m w)) = transactionInstance w.

(** *** Connections in a trace *)

(** The connection an event is about. *)
Definition conn_of (ev : event) : option nat :=
  match ev with
  | EvReserved c | EvBegin c | EvConnQuery c _ _ | EvCommit c | EvRollback c
  | EvRelease c => Some c
  | _ => None
  end.

(** Reads the trace from the left with the connections released so far:
    [None] as soon as an event is about a connection released before it. *)
Fixpoint scan (released : list nat) (tr : list event) : option (list nat) :=
  match tr with
  | [] => Some released
  | ev :: rest =>
      match conn_of ev with
      | Some c =>
          if existsb (Nat.eqb c) released then None
          else scan (match ev with EvRelease _ => c :: released | _ => released end) rest
      | None => scan released rest
      end
  end.

(** No event of the trace is about a connection released earlier in it. *)
Definition no_use_after_release (tr : list event) : bool :=
  match scan [] tr with Some _ => true | None => false end.

(** The trace so far uses no connection after its release, the session
    exists, and the connection it holds, if any, has not been released;
    every connection held or released came out of the pool before. *)
Definition live (w : world) (this : loc) : Prop :=
  exists s released,
    sessions w !! this = Some s /\
    scan [] (trace w) = Some released /\
    Forall (fun c => c < next_conn w) released /\
    match connection s with
    | Some c => c < next_conn w /\ existsb (Nat.eqb c) released = false
    | None => True
    end.

End TransactionApi.

(** ** [upsert] of crud.ts *)

Module CrudUpsert.
Import Js Crud CrudMore Runtime CrudApi CrudSelect.

(** [v.k] where [v] may be [null] or [undefined]. *)
Definition member (v : jsval) (k : string) : result jsval :=
  match v with
  | JUndefined | JNull => Throw TypeError
  | _ => Ok (prop v k)
  end.

(** [Array.isArray(k) ? k : [k]] *)
Definition as_list (v : jsval) : list jsval :=
  match v with
  | JArr l => l
  | _ => [v]
  end.

(** [arr.includes(f)] for a string [f]. *)
Definition includes_string (l : list jsval) (f : string) : bool :=
  existsb (fun x => match x with JStr s => String.eqb s f | _ => false end) l.

(** [fields.filter(f => !conflictKeys.includes(f))] *)
Definition other_fields (fields : list string) (conflictKeys : list jsval) : list string :=
  List.filter (fun f => negb (includes_string conflictKeys f)) fields.

(** [updateFields.map(field => `${field} = VALUES(${field})`).join(', ')]:
    only an array has [map]. *)
Definition update_clause (updateFields : jsval) : result string :=
  match updateFields with
  | JArr l =>
      Ok (join ", " (map (fun field => to_string field +:+ " = VALUES("
                                       +:+ to_string field +:+ ")") l))
  | _ => Throw TypeError
  end.

(** The statement of [upsert], up to the call of [executeQuery]. *)
Definition upsert_statement (table data options : jsval) : result statement :=
  try* required :=
    (if negb (truthy table) then Ok false
     else if negb (truthy data) then Ok false
     else try* conflictKey := member options "conflictKey" in Ok (truthy conflictKey)) in
  if negb required then Throw (Error "Table, data, and conflictKey are required for upsert")
  else
    try* es := entries data in
    let fields := map fst es in
    let values := map snd es in
    let placeholders := join ", " (map (fun _ => "?") fields) in
    let conflictKeys := as_list (prop options "conflictKey") in
    let updateFields :=
      if truthy (prop options "updateFields") then prop options "updateFields"
      else JArr (map JStr (other_fields fields conflictKeys)) in
    try* n := get_length updateFields in
    if strict_eq_num n 0 then Throw (Error "No fields to update on duplicate key")
    else
      try* updateClause := update_clause updateFields in
      Ok {| query := "INSERT INTO " +:+ to_string table +:+ " (" +:+ join ", " fields
                     +:+ ") VALUES (" +:+ placeholders +:+ ") ON DUPLICATE KEY UPDATE "
                     +:+ updateClause;
            allParams := values |}.

(** [result.affectedRows === 1 ? 'inserted' : 'updated'] *)
Definition action_of (affectedRows : jsval) : string :=
  if strict_eq_num affectedRows 1 then "inserted" else "updated".

Section Environment.
Variable E : env.

(** [upsert(table, data, options, dbConfig)] *)
Definition upsert (table data options dbConfig : jsval) : IO jsval :=
  do* st := built (upsert_statement table data options) in
  do* res := executeQuery E (JStr (query st)) (allParams st) dbConfig "upsert" in
  do* affectedRows := result_prop res "affectedRows" in
  pure (JObj [("action", JStr (action_of affectedRows));
              ("affectedRows", affectedRows);
              ("insertId", prop res "insertId")]).

End Environment.
End CrudUpsert.

(** ** [bulkInsert] of crud.ts *)

Module CrudBulk.
Import Js Crud CrudMore Runtime CrudApi CrudSelect CrudUpsert.

(** The [options] of [bulkInsert], for a [batchSize] that is an integer
    when it is given: the numbers of this model are the integer-valued
    ones.  (On a fractional size [slice] truncates [i] and
    [i + batchSize] one by one; the definitions below do not follow the
    loop there, and nothing is said about it.)  An absent key, or absent
    [options], reads as [None] or [JUndefined]. *)
Record BulkOptions : Type :=
  { b_batchSize : option Z; b_ignore : jsval }.

(** [options?.batchSize || 1000] *)
Definition batch_size (options : BulkOptions) : Z :=
  match b_batchSize options with
  | Some b => if (b =? 0)%Z then 1000%Z else b
  | None => 1000%Z
  end.

(** [a + b] and [a - b] of the runtime on what the driver resolved with;
    [bulkInsert] only passes their results on. *)
Record numbers : Type :=
  { plus : jsval -> jsval -> jsval;
    minus : jsval -> jsval -> jsval }.

(** The two operators on numbers. *)
Definition integer_numbers : numbers :=
  {| plus := fun a b => match a, b with
                        | JNum x, JNum y => JNum (x + y)
                        | _, _ => JUndefined
                        end;
     minus := fun a b => match a, b with
                         | JNum x, JNum y => JNum (x - y)
                         | _, _ => JUndefined
                         end |}.

(** [a || b] *)
Definition or_else (a b : jsval) : jsval := if truthy a then a else b.

(** [arr.slice(first, last)] *)
Definition slice {A} (l : list A) (first last : Z) : list A :=
  let len := Z.of_nat (List.length l) in
  let clamp k := if (k <? 0)%Z then Z.max (len + k) 0 else Z.min k len in
  take (Z.to_nat (clamp last - clamp first)) (drop (Z.to_nat (clamp first)) l).

(** [Math.ceil(n / b)] for integers, [b] not zero. *)
Definition ceil_div (n b : Z) : Z := (- ((- n) / b))%Z.

(** [recordFields.length !== fields.length ||
     !recordFields.every(f => fields.includes(f))] is false. *)
Definition same_fields (fields : list string) (record : jsval) : result bool :=
  try* es := entries record in
  let recordFields := map fst es in
  Ok ((List.length recordFields =? List.length fields)%nat
      && forallb (fun f => existsb (String.eqb f) fields) recordFields).

(** The loop that validates the records. *)
Fixpoint validate (fields : list string) (records : list jsval) : result unit :=
  match records with
  | [] => Ok tt
  | record :: rest =>
      try* same := same_fields fields record in
      if same then validate fields rest
      else Throw (Error "All records must have the same fields for bulk insert")
  end.

(** [record[field]] for a key of the record. *)
Definition get_key (record : jsval) (field : string) : jsval :=
  match entries record with
  | Ok es => default JUndefined (lookup_prop field es)
  | Throw _ => JUndefined
  end.

(** [fields.map(field => record[field])] *)
Definition row_values (fields : list string) (record : jsval) : list jsval :=
  map (get_key record) fields.

(** [`(${fields.map(() => '?').join(', ')})`] *)
Definition row_placeholders (fields : list string) : string :=
  "(" +:+ join ", " (map (fun _ => "?") fields) +:+ ")".

(** The statement of one batch. *)
Definition batch_statement (table : jsval) (fields : list string) (isIgnore : bool)
    (batch : list jsval) : statement :=
  {| query := (if isIgnore then "INSERT IGNORE INTO " else "INSERT INTO ")
              +:+ to_string table +:+ " (" +:+ join ", " fields +:+ ") VALUES "
              +:+ join ", " (map (fun _ => row_placeholders fields) batch);
     allParams := concat (map (row_values fields) batch) |}.

(** [totalInserted], [firstInsertId] and [lastInsertId]. *)
Record totals : Type :=
  { totalInserted : jsval; firstInsertId : jsval; lastInsertId : jsval }.

(** The statements a trace has sent through the pool. *)
Definition sent (tr : list event) : list (jsval * list jsval) :=
  omap (fun ev => match ev with
                  | EvPoolQuery sql args => Some (sql, args)
                  | _ => None
                  end) tr.

(** The driver resolves every operation, with something other than
    [null] and [undefined]. *)
Definition always_answers (E : env) : Prop :=
  forall k, exists v, reply E k = Resolved v /\ is_undefined v = false /\ is_null v = false.

(** What [executeQuery] is given for a batch. *)
Definition batch_query (table : jsval) (fields : list string) (isIgnore : bool)
    (batch : list jsval) : jsval * list jsval :=
  let st := batch_statement table fields isIgnore batch in
  (JStr (query st), allParams st).

Section Environment.
Variable N : numbers.
Variable E : env.

(** The body of the loop at index [i], after the statement was answered. *)
Definition account (i : Z) (res : jsval) (t : totals) : IO totals :=
  do* affectedRows := result_prop res "affectedRows" in
  let insertId := prop res "insertId" in
  pure {| totalInserted := plus N (totalInserted t) (or_else affectedRows (JNum 0));
          firstInsertId := if (i =? 0)%Z && truthy insertId then insertId
                           else firstInsertId t;
          lastInsertId := if truthy insertId
                          then minus N (plus N insertId (or_else affectedRows (JNum 1)))
                                 (JNum 1)
                          else lastInsertId t |}.

(** [for (let i = 0; i < records.length; i += batchSize) { ... }], from
    index [i] on: [None] when the loop is still running after [fuel]
    rounds. *)
Fixpoint batches_from (fuel : nat) (table : jsval) (fields : list string)
    (isIgnore : bool) (records : list jsval) (batchSize : Z) (dbConfig : jsval)
    (i : Z) (t : totals) : IO (option totals) :=
  match fuel with
  | 0 => pure None
  | Datatypes.S fuel =>
      if (i <? Z.of_nat (List.length records))%Z then
        let st := batch_statement table fields isIgnore
                    (slice records i (i + batchSize)) in
        do* res := executeQuery E (JStr (query st)) (allParams st) dbConfig "bulkInsert" in
        do* t := account i res t in
        batches_from fuel table fields isIgnore records batchSize dbConfig
          (i + batchSize)%Z t
      else pure (Some t)
  end.

(** [bulkInsert(table, records, options, dbConfig)] *)
Definition bulkInsert (fuel : nat) (table records : jsval) (options : BulkOptions)
    (dbConfig : jsval) : IO (option jsval) :=
  match records with
  | JArr (first :: rest) =>
      if negb (truthy table)
      then raise (Error "Table name and records are required for bulk insert")
      else
        let rs := first :: rest in
        let batchSize := batch_size options in
        let isIgnore := truthy (b_ignore options) in
        do* es := built (entries first) in
        let fields := map fst es in
        do* _ := built (validate fields rs) in
        let batches := ceil_div (Z.of_nat (List.length rs)) batchSize in
        do* done := batches_from fuel table fields isIgnore rs batchSize dbConfig 0
                      {| totalInserted := JNum 0; firstInsertId := JUndefined;
                         lastInsertId := JUndefined |} in
        match done with
        | None => pure None
        | Some t =>
            log Info ("Bulk inserted " +:+ to_string (totalInserted t)
                      +:+ " records into " +:+ to_string table +:+ " in "
                      +:+ pretty batches +:+ " batches") ;;;
            pure (Some (JObj [("totalInserted", totalInserted t);
                              ("batches", JNum batches);
                              ("firstInsertId", firstInsertId t);
                              ("lastInsertId", lastInsertId t)]))
        end
  | _ => raise (Error "Table name and records are required for bulk insert")
  end.

End Environment.
End CrudBulk.

(** ** connectionManager.ts *)

Module ConnectionManager.
Import Js.

(** A pool made by [mysql.createPool]. *)
Definition pool : Type := nat.

(** A logger: [None] is [defaultLogger], [Some k] a logger of the caller. *)
Definition sink : Type := option nat.

Inductive event : Type :=
| LogInfo (to : sink) (text : string)
| LogError (to : sink) (text : string) (e : exn)
| CreatePool (options : list (string * jsval))
| PoolEnd (p : pool).

(** The module variables [pools] (a [Map], in insertion order), [logger]
    and [defaultConfig]; the pools made so far; what was logged and asked
    of the driver. *)
Record manager : Type :=
  { pools : list (string * pool);
    logger : sink;
    defaultConfig : jsval;
    made : nat;
    events : list event }.

Definition empty : manager :=
  {| pools := []; logger := None; defaultConfig := JNull; made := 0; events := [] |}.

(** [a || b] *)
Definition or_else (a b : jsval) : jsval := if truthy a then a else b.

(** The template literal of [getPoolKey]. *)
Definition key_text (config : jsval) : string :=
  to_string (prop config "host") +:+ ":"
  +:+ to_string (or_else (prop config "port") (JNum 3306)) +:+ ":"
  +:+ to_string (prop config "user") +:+ ":"
  +:+ to_string (prop config "database").

(** [getPoolKey(config)] *)
Definition getPoolKey (config : jsval) : result string :=
  match config with
  | JUndefined | JNull => Throw TypeError
  | _ => Ok (key_text config)
  end.

(** [pools.get(key)] *)
Fixpoint get (key : string) (m : list (string * pool)) : option pool :=
  match m with
  | [] => None
  | (k, p) :: rest => if String.eqb key k then Some p else get key rest
  end.

(** [pools.delete(key)] *)
Definition delete (key : string) (m : list (string * pool)) : list (string * pool) :=
  List.filter (fun kp => negb (String.eqb key (fst kp))) m.

(** The options [getPool] gives [mysql.createPool]. *)
Definition pool_options (conf : jsval) : list (string * jsval) :=
  [("host", prop conf "host"); ("user", prop conf "user");
   ("password", prop conf "password"); ("database", prop conf "database");
   ("port", or_else (prop conf "port") (JNum 3306));
   ("waitForConnections", JBool true);
   ("connectionLimit", or_else (prop conf "connectionLimit") (JNum 10));
   ("queueLimit", JNum 0); ("enableKeepAlive", JBool true);
   ("keepAliveInitialDelay", JNum 0)].

Definition with_event (ev : event) (m : manager) : manager :=
  {| pools := pools m; logger := logger m; defaultConfig := defaultConfig m;
     made := made m; events := events m ++ [ev] |}.

Definition with_pools (ps : list (string * pool)) (m : manager) : manager :=
  {| pools := ps; logger := logger m; defaultConfig := defaultConfig m;
     made := made m; events := events m |}.

(** [logger.info(text)] *)
Definition info (text : string) (m : manager) : manager :=
  with_event (LogInfo (logger m) text) m.

(** [logger.error(text, error)] *)
Definition error (text : string) (e : exn) (m : manager) : manager :=
  with_event (LogError (logger m) text e) m.

Definition is_end (ev : event) : bool :=
  match ev with PoolEnd _ => true | _ => false end.

(** [setLogger(customLogger)] *)
Definition setLogger (customLogger : nat) (m : manager) : manager :=
  {| pools := pools m; logger := Some customLogger; defaultConfig := defaultConfig m;
     made := made m; events := events m |}.

(** [init(config, customLogger)] *)
Definition init (config : jsval) (customLogger : option nat) (m : manager)
    : result unit * manager :=
  if negb (truthy config) || negb (truthy (prop config "database"))
  then (Throw (Error "Valid database configuration required"), m)
  else
    (Ok tt,
     info "Connection manager initialized"
       {| pools := pools m;
          logger := match customLogger with Some k => Some k | None => logger m end;
          defaultConfig := config; made := made m; events := events m |}).

Section Driver.
(** Whether [mysql.createPool] throws on these options, and whether
    [pool.end()] is rejected. *)
Variable createPool_throws : list (string * jsval) -> option exn.
Variable end_rejects : pool -> option exn.

(** [getPool(dbConfig)] *)
Definition getPool (dbConfig : jsval) (m : manager) : result pool * manager :=
  let conf := or_else dbConfig (defaultConfig m) in
  if negb (truthy conf) || negb (truthy (prop conf "database"))
  then (Throw (Error "Database configuration missing. Call connectionManager.init() first or provide dbConfig"), m)
  else
    match getPoolKey conf with
    | Throw e => (Throw e, m)
    | Ok key =>
        match get key (pools m) with
        | Some p => (Ok p, m)
        | None =>
            let m1 := with_event (CreatePool (pool_options conf))
                        (info ("Creating new connection pool for " +:+ key) m) in
            match createPool_throws (pool_options conf) with
            | Some e => (Throw e, error "Failed to create connection pool:" e m1)
            | None =>
                (Ok (made m),
                 {| pools := pools m1 ++ [(key, made m)]; logger := logger m1;
                    defaultConfig := defaultConfig m1; made := S (made m);
                    events := events m1 |})
            end
        end
    end.

(** [closePool(config)] *)
Definition closePool (config : jsval) (m : manager) : result unit * manager :=
  match getPoolKey config with
  | Throw e => (Throw e, m)
  | Ok key =>
      match get key (pools m) with
      | None => (Ok tt, m)
      | Some p =>
          let m1 := with_event (PoolEnd p) m in
          match end_rejects p with
          | Some e => (Throw e, m1)
          | None =>
              (Ok tt, info ("Closed connection pool for " +:+ key)
                        (with_pools (delete key (pools m1)) m1))
          end
      end
  end.

(** The body of the loop of [closeAllPools]. *)
Definition close_one (kp : string * pool) (m : manager) : manager :=
  let m1 := with_event (PoolEnd (snd kp)) m in
  match end_rejects (snd kp) with
  | None => info ("Closed connection pool for " +:+ fst kp) m1
  | Some e => error ("Error closing pool " +:+ fst kp +:+ ":") e m1
  end.

(** [closeAllPools()] *)
Definition closeAllPools (m : manager) : manager :=
  with_pools [] (fold_left (fun m kp => close_one kp m) (pools m) m).

End Driver.
End ConnectionManager.

(** ** performanceMonitor.ts *)

Module PerformanceMonitor.
Import Js CrudMore.

Inductive QueryType : Type := SELECT | INSERT | UPDATE | DELETE | OTHER.

Record QueryMetric : Type :=
  { m_query : string; m_duration : Z; m_timestamp : Z; m_type : QueryType;
    m_params : jsval }.

(** [queryCountByType] *)
Record counters : Type :=
  { n_select : nat; n_insert : nat; n_update : nat; n_delete : nat; n_other : nat }.

Definition zero : counters :=
  {| n_select := 0; n_insert := 0; n_update := 0; n_delete := 0; n_other := 0 |}.

(** [queryCountByType[type]++] *)
Definition bump (type : QueryType) (c : counters) : counters :=
  match type with
  | SELECT => {| n_select := S (n_select c); n_insert := n_insert c;
                 n_update := n_update c; n_delete := n_delete c; n_other := n_other c |}
  | INSERT => {| n_select := n_select c; n_insert := S (n_insert c);
                 n_update := n_update c; n_delete := n_delete c; n_other := n_other c |}
  | UPDATE => {| n_select := n_select c; n_insert := n_insert c;
                 n_update := S (n_update c); n_delete := n_delete c; n_other := n_other c |}
  | DELETE => {| n_select := n_select c; n_insert := n_insert c;
                 n_update := n_update c; n_delete := S (n_delete c); n_other := n_other c |}
  | OTHER => {| n_select := n_select c; n_insert := n_insert c;
                n_update := n_update c; n_delete := n_delete c; n_other := S (n_other c) |}
  end.

Definition total (c : counters) : nat :=
  n_select c + n_insert c + n_update c + n_delete c + n_other c.

(** The fields of the monitor, and the lines it wrote to the console. *)
Record monitor : Type :=
  { enabled : bool;
    queries : list QueryMetric;
    startTime : Z;
    queryCountByType : counters;
    console : list string }.

Definition created : monitor :=
  {| enabled := false; queries := []; startTime := 0; queryCountByType := zero;
     console := [] |}.

(** [enable()], with what [Date.now()] gives. *)
Definition enable (now : Z) (m : monitor) : monitor :=
  {| enabled := true; queries := queries m; startTime := now;
     queryCountByType := queryCountByType m;
     console := console m ++ ["[Performance Monitor] Enabled"] |}.

(** [disable()] *)
Definition disable (m : monitor) : monitor :=
  {| enabled := false; queries := queries m; startTime := startTime m;
     queryCountByType := queryCountByType m;
     console := console m ++ ["[Performance Monitor] Disabled"] |}.

(** [reset()] *)
Definition reset (now : Z) (m : monitor) : monitor :=
  {| enabled := enabled m; queries := []; startTime := now; queryCountByType := zero;
     console := console m ++ ["[Performance Monitor] Reset"] |}.

Section Strings.
Variable S : strings.

(** [detectQueryType(query)] *)
Definition detectQueryType (query : string) : QueryType :=
  let normalized := toUpperCase S (trim S query) in
  if startsWith normalized "SELECT" then SELECT
  else if startsWith normalized "INSERT" then INSERT
  else if startsWith normalized "UPDATE" then UPDATE
  else if startsWith normalized "DELETE" then DELETE
  else OTHER.

(** [queries.shift()] *)
Definition shift {A} (l : list A) : list A := List.tl l.

(** [recordQuery(query, duration, params)], with what [Date.now()] gives. *)
Definition recordQuery (now : Z) (query : string) (duration : Z) (params : jsval)
    (m : monitor) : monitor :=
  if negb (enabled m) then m
  else
    let type := detectQueryType query in
    let metric := {| m_query := query; m_duration := duration; m_timestamp := now;
                     m_type := type; m_params := params |} in
    let pushed := queries m ++ [metric] in
    {| enabled := enabled m;
       queries := if (1000 <? List.length pushed)%nat then shift pushed else pushed;
       startTime := startTime m;
       queryCountByType := bump type (queryCountByType m);
       console := console m |}.

(** One call of [recordQuery]: the time, the query, its duration and
    parameters. *)
Definition record : Type := Z * string * Z * jsval.

Definition metric_of (r : record) : QueryMetric :=
  let '(now, query, duration, params) := r in
  {| m_query := query; m_duration := duration; m_timestamp := now;
     m_type := detectQueryType query; m_params := params |}.

Definition recordAll (rs : list record) (m : monitor) : monitor :=
  fold_left (fun m r => let '(now, query, duration, params) := r in
                        recordQuery now query duration params m) rs m.

End Strings.
End PerformanceMonitor.

(** * Properties *)

(** ** Values *)

Module JsFacts.
Import Js.

(** Induction over values that reaches inside arrays and objects. *)
Lemma jsval_nested_ind (P : jsval -> Prop) :
  P JUndefined -> P JNull -> (forall b, P (JBool b)) -> (forall n, P (JNum n)) ->
  (forall s, P (JStr s)) ->
  (forall l, Forall P l -> P (JArr l)) ->
  (forall props, Forall (fun kv => P (snd kv)) props -> P (JObj props)) ->
  forall v, P v.
Proof.
  intros Hu Hn Hb Hz Hs Ha Ho.
  fix IH 1. intros v. destruct v as [ | | b | n | s | l | props].
  - exact Hu.
  - exact Hn.
  - apply Hb.
  - apply Hz.
  - apply Hs.
  - apply Ha. induction l as [|x l IHl]; constructor; [apply IH | exact IHl].
  - apply Ho. induction props as [|[k x] props IHp]; constructor; [apply IH | exact IHp].
Qed.

Lemma with_prop_lookup {B} (k : string) (f : jsval -> B) props :
  with_prop k f props = f <$> lookup_prop k props.
Proof.
  induction props as [|[k' v] props IH]; simpl; [done|].
  destruct (String.eqb k k'); done.
Qed.

Lemma lookup_prop_elem k props v :
  lookup_prop k props = Some v -> (k, v) ∈ props.
Proof.
  induction props as [|[k' x] props IH]; simpl; [done|].
  destruct (String.eqb_spec k k') as [->|Hne].
  - intros [= ->]. left.
  - intros H. right. auto.
Qed.

Lemma append_cons x (a b : string) : String x a +:+ b = String x (a +:+ b).
Proof. reflexivity. Qed.

Lemma append_assoc (a b c : string) : (a +:+ b) +:+ c = a +:+ (b +:+ c).
Proof. induction a as [|x a IH]; [done | by rewrite !append_cons, IH]. Qed.

Lemma append_nil_r (a : string) : a +:+ "" = a.
Proof. induction a as [|x a IH]; [done | by rewrite append_cons, IH]. Qed.

End JsFacts.

(** ** The condition compiler *)

Module CrudFacts.
Import Js Crud JsFacts.

(** *** Counting placeholders *)

Lemma count_placeholders_app a b :
  count_placeholders (a +:+ b) = count_placeholders a + count_placeholders b.
Proof.
  induction a as [|x a IH]; [done|].
  rewrite append_cons. simpl. rewrite IH. lia.
Qed.

Lemma interleaved_glue_l glue frags text :
  count_placeholders glue = 0 ->
  interleaved frags text -> interleaved frags (glue +:+ text).
Proof.
  intros Hg H. destruct H as [g Hq | g frag frags rest Hq Hrest].
  - constructor. rewrite count_placeholders_app. lia.
  - rewrite <- append_assoc. constructor; [|done].
    rewrite count_placeholders_app. lia.
Qed.

Lemma interleaved_glue_r glue frags text :
  count_placeholders glue = 0 ->
  interleaved frags text -> interleaved frags (text +:+ glue).
Proof.
  intros Hg H. induction H as [g Hq | g frag frags rest Hq Hrest IH].
  - constructor. rewrite count_placeholders_app. lia.
  - rewrite !append_assoc. by constructor.
Qed.

Lemma interleaved_app frags1 text1 frags2 text2 :
  interleaved frags1 text1 -> interleaved frags2 text2 ->
  interleaved (frags1 ++ frags2) (text1 +:+ text2).
Proof.
  intros H1 H2. induction H1 as [g Hq | g frag frags rest Hq Hrest IH]; cbn [app].
  - by apply interleaved_glue_l.
  - rewrite !append_assoc. by constructor.
Qed.

Lemma interleaved_one frag : interleaved [frag] frag.
Proof.
  rewrite <- (append_nil_r frag) at 2.
  change (interleaved [frag] ("" +:+ frag +:+ "")).
  constructor; [done|]. by constructor.
Qed.

Lemma interleaved_join sep fragss parts :
  count_placeholders sep = 0 ->
  Forall2 interleaved fragss parts ->
  interleaved (concat fragss) (join sep parts).
Proof.
  intros Hsep H. induction H as [|frags part fragss parts Hhd Htl IH]; simpl.
  - by constructor.
  - destruct parts as [|part' parts].
    + inversion Htl; subst. simpl. by rewrite app_nil_r.
    + change (join sep (part :: part' :: parts))
        with (part +:+ sep +:+ join sep (part' :: parts)).
      apply interleaved_app; [done|]. by apply interleaved_glue_l.
Qed.

Lemma interleaved_count frags text :
  interleaved frags text ->
  count_placeholders text = list_sum (map count_placeholders frags).
Proof.
  induction 1 as [g Hq | g frag frags rest Hq Hrest IH]; simpl; [done|].
  rewrite !count_placeholders_app. lia.
Qed.


(** *** What the compiler writes *)

Lemma walk_arr conds :
  walk (JArr conds) = bind (mapB walk conds) (fun parts => ret (join " AND " parts)).
Proof. reflexivity. Qed.

Lemma bind_ok {A B} (m : Builder A) (k : A -> Builder B) ps b ps' :
  bind m k ps = Ok (b, ps') ->
  exists a ps1, m ps = Ok (a, ps1) /\ k a ps1 = Ok (b, ps').
Proof.
  unfold bind. destruct (m ps) as [[a ps1]|e]; [|done]. eauto.
Qed.

Lemma lift_ok {A} (r : result A) ps a ps' :
  lift r ps = Ok (a, ps') -> r = Ok a /\ ps' = ps.
Proof. unfold lift. destruct r; [|done]. by intros [= -> ->]. Qed.

(** A callback that writes the leaves [g x] for each element [x] makes
    [map] write them all, left to right. *)
Lemma mapB_writes {A} (f : A -> Builder string) (g : A -> list leaf) l :
  Forall (fun x => writes (f x) (g x)) l ->
  forall ps parts ps', mapB f l ps = Ok (parts, ps') ->
    ps' = ps ++ flat_map leaf_params (flat_map g l) /\
    Forall2 interleaved (map (fun x => map leaf_text (g x)) l) parts.
Proof.
  induction 1 as [|x l Hx Hl IH]; intros ps parts ps' Hrun.
  - injection Hrun as <- <-. simpl. by rewrite app_nil_r.
  - change (mapB f (x :: l)) with
      (bind (f x) (fun y => bind (mapB f l) (fun ys => ret (y :: ys)))) in Hrun.
    apply bind_ok in Hrun as (y & ps1 & Hy & Hrun).
    apply bind_ok in Hrun as (ys & ps2 & Hys & Hrun).
    injection Hrun as <- <-.
    apply Hx in Hy as [-> Hy]. apply IH in Hys as [-> Hys].
    split; [|by constructor].
    simpl. by rewrite !flat_map_app, app_assoc.
Qed.

Lemma concat_map_leaf_text {A} (g : A -> list leaf) l :
  concat (map (fun x => map leaf_text (g x)) l) = map leaf_text (flat_map g l).
Proof.
  induction l as [|x l IH]; simpl; [done|]. by rewrite IH, map_app.
Qed.

Lemma joined_writes {A} (f : A -> Builder string) (g : A -> list leaf) l pre sep post :
  Forall (fun x => writes (f x) (g x)) l ->
  count_placeholders pre = 0 -> count_placeholders sep = 0 ->
  count_placeholders post = 0 ->
  writes (bind (mapB f l) (fun parts => ret (pre +:+ join sep parts +:+ post)))
         (flat_map g l).
Proof.
  intros Hall Hpre Hsep Hpost ps c ps' Hrun.
  apply bind_ok in Hrun as (parts & ps1 & Hparts & Hrun).
  injection Hrun as <- <-.
  eapply mapB_writes in Hparts as [-> Hparts]; [|done].
  split; [done|].
  apply interleaved_glue_l; [done|]. apply interleaved_glue_r; [done|].
  rewrite <- concat_map_leaf_text. by apply interleaved_join.
Qed.

Lemma joined_writes_bare {A} (f : A -> Builder string) (g : A -> list leaf) l sep :
  Forall (fun x => writes (f x) (g x)) l ->
  count_placeholders sep = 0 ->
  writes (bind (mapB f l) (fun parts => ret (join sep parts))) (flat_map g l).
Proof.
  intros Hall Hsep ps c ps' Hrun.
  apply bind_ok in Hrun as (parts & ps1 & Hparts & Hrun).
  injection Hrun as <- <-.
  eapply mapB_writes in Hparts as [-> Hparts]; [|done].
  split; [done|].
  rewrite <- concat_map_leaf_text. by apply interleaved_join.
Qed.

Lemma framed_ret {A} (a : A) : framed (ret a).
Proof. intros ps. cbv [ret]. by rewrite app_nil_r. Qed.

Lemma framed_throw {A} e : framed (@throw A e).
Proof. by intros ps. Qed.

Lemma framed_push vs : framed (push vs).
Proof. by intros ps. Qed.

Lemma framed_lift {A} (r : result A) : framed (lift r).
Proof. intros ps. destruct r; cbv [lift]; [by rewrite app_nil_r | done]. Qed.

Lemma framed_bind {A B} (m : Builder A) (k : A -> Builder B) :
  framed m -> (forall a, framed (k a)) -> framed (bind m k).
Proof.
  intros Hm Hk ps. unfold bind. rewrite Hm.
  destruct (m []) as [[a new]|e]; [|done].
  rewrite (Hk a (ps ++ new)), (Hk a new).
  destruct (k a []) as [[b new']|e]; [|done].
  by rewrite app_assoc.
Qed.

Ltac solve_framed :=
  repeat first
    [ apply framed_ret | apply framed_throw | apply framed_push | apply framed_lift
    | apply framed_bind; [|intros ?]
    | match goal with |- framed (if ?b then _ else _) => destruct b end ].

Lemma buildOperator_framed column op val : framed (buildOperator column op val).
Proof. unfold buildOperator. solve_framed. Qed.

Lemma buildOperator_frame column op val ps s ps' :
  buildOperator column op val ps = Ok (s, ps') ->
  exists new, buildOperator column op val [] = Ok (s, new) /\ ps' = ps ++ new.
Proof.
  rewrite buildOperator_framed.
  destruct (buildOperator column op val []) as [[s0 new]|e]; [|done].
  intros [= <- <-]. eauto.
Qed.

Lemma buildOperator_writes column op val :
  writes (buildOperator column op val) [LeafOp column op val].
Proof.
  intros ps s ps' H.
  apply buildOperator_frame in H as (new & H0 & ->).
  simpl. rewrite H0, app_nil_r. split; [done|]. apply interleaved_one.
Qed.

Lemma buildCondition_writes key value :
  writes (buildCondition key value) (field_leaves (key, value)).
Proof.
  destruct value as [ | | b | n | s | l | ops];
    try (intros ps c ps' H; cbv [buildCondition is_null bind push ret] in H;
         injection H as <- <-; simpl; rewrite ?app_nil_r;
         split; [done | apply interleaved_one]).
  change (buildCondition key (JObj ops)) with
      (bind (mapB (fun '(op, val) => buildOperator key op val) ops)
            (fun frags => ret (join " AND " frags))).
    assert (field_leaves (key, JObj ops)
            = flat_map (fun '(op, x) => [LeafOp key op x]) ops) as ->.
    { simpl. induction ops as [|[op x] ops IH]; simpl; [done | by rewrite IH]. }
    apply joined_writes_bare; [|done].
    apply Forall_forall. intros [op x] _. apply buildOperator_writes.
Qed.

Lemma walk_obj props :
  walk (JObj props) =
  let list_of (sep : string) (v : jsval) : Builder string :=
    match v with
    | JArr conds => bind (mapB walk conds) (fun parts => ret ("(" +:+ join sep parts +:+ ")"))
    | _ => throw TypeError
    end in
  match with_prop "$and" (list_of " AND ") props with
  | Some m => m
  | None =>
  match with_prop "$or" (list_of " OR ") props with
  | Some m => m
  | None =>
  match with_prop "$not" (fun v => bind (walk v) (fun s => ret ("(NOT " +:+ s +:+ ")"))) props with
  | Some m => m
  | None =>
      bind (mapB (fun '(k, v) => buildCondition k v) props)
           (fun frags => ret (join " AND " frags))
  end end end.
Proof. reflexivity. Qed.

Lemma leaves_obj props :
  leaves (JObj props) =
  let children (v : jsval) : list leaf :=
    match v with
    | JArr conds => flat_map leaves conds
    | _ => []
    end in
  match with_prop "$and" children props with
  | Some ls => ls
  | None =>
  match with_prop "$or" children props with
  | Some ls => ls
  | None =>
  match with_prop "$not" leaves props with
  | Some ls => ls
  | None => flat_map field_leaves props
  end end end.
Proof. reflexivity. Qed.

(** The compiler pushes the operands of the leaves of the tree in
    depth-first, left-to-right order, and writes their fragments in the
    same order. *)
Lemma walk_writes cond :
  writes (walk cond) (leaves cond) /\
  (forall conds, cond = JArr conds ->
     Forall (fun c => writes (walk c) (leaves c)) conds).
Proof.
  induction cond as [ | | b | n | s | conds IH | props IH] using jsval_nested_ind;
    try (split; [|done]; intros ps c ps' [= <- <-]; simpl; rewrite app_nil_r;
         split; [done | by constructor]).
  - assert (Forall (fun c => writes (walk c) (leaves c)) conds) as Hall.
    { eapply Forall_impl; [exact IH|]. by intros c [Hc _]. }
    split; [|by intros ? [= <-]].
    rewrite walk_arr. by apply joined_writes_bare.
  - split; [|done].
    assert (forall k v, lookup_prop k props = Some v ->
              writes (walk v) (leaves v) /\
              (forall conds, v = JArr conds ->
                 Forall (fun c => writes (walk c) (leaves c)) conds)) as Hsub.
    { intros k v Hk. apply lookup_prop_elem in Hk.
      rewrite Forall_forall in IH. exact (IH _ Hk). }
    assert (forall k v sep, lookup_prop k props = Some v -> count_placeholders sep = 0 ->
              writes (match v with
                      | JArr conds =>
                          bind (mapB walk conds)
                               (fun parts => ret ("(" +:+ join sep parts +:+ ")"))
                      | _ => throw TypeError
                      end)
                     (match v with JArr conds => flat_map leaves conds | _ => [] end))
      as Hlist.
    { intros k v sep Hk Hsep. destruct (Hsub k v Hk) as [_ Hv].
      destruct v; try (by intros ps c ps' [=]).
      apply joined_writes; [by apply Hv | done..]. }
    rewrite walk_obj, leaves_obj. cbv zeta. rewrite !with_prop_lookup.
    destruct (lookup_prop "$and" props) as [v|] eqn:Hand; simpl.
    { by eapply Hlist. }
    destruct (lookup_prop "$or" props) as [v|] eqn:Hor; simpl.
    { by eapply Hlist. }
    destruct (lookup_prop "$not" props) as [v|] eqn:Hnot; simpl.
    { destruct (Hsub _ v Hnot) as [Hv _]. intros ps c ps' Hrun.
      apply bind_ok in Hrun as (s & ps1 & Hs & Hrun). injection Hrun as <- <-.
      apply Hv in Hs as [-> Hs]. split; [done|].
      apply interleaved_glue_l; [done|]. by apply interleaved_glue_r. }
    apply joined_writes_bare; [|done].
    apply Forall_forall. intros [k v] _. apply buildCondition_writes.
Qed.

(** Whatever the operators, a compiled tree has the operands of its leaves
    as parameters, in depth-first, left-to-right order, and their
    fragments in the same order in its clause. *)
Lemma buildWhereClause_writes cond c :
  _buildWhereClause cond = Ok c ->
  params c = flat_map leaf_params (leaves cond) /\
  interleaved (map leaf_text (leaves cond)) (clause c).
Proof.
  unfold _buildWhereClause.
  destruct (walk cond []) as [[text ps]|e] eqn:Hwalk; [|done].
  intros [= <-]. destruct (walk_writes cond) as [Hw _].
  by apply Hw in Hwalk as [-> Htext].
Qed.

(** *** Leaves that bind exactly one operand *)

(** The fragments of the comparison leaves. *)
Lemma comparison_leaf_text (c : string) (v : jsval) :
  leaf_text (LeafValue c v) = c +:+ " = ?" /\
  leaf_text (LeafOp c "$eq" v) = c +:+ " = ?" /\
  leaf_text (LeafOp c "$ne" v) = c +:+ " != ?" /\
  leaf_text (LeafOp c "$gt" v) = c +:+ " > ?" /\
  leaf_text (LeafOp c "$gte" v) = c +:+ " >= ?" /\
  leaf_text (LeafOp c "$lt" v) = c +:+ " < ?" /\
  leaf_text (LeafOp c "$lte" v) = c +:+ " <= ?" /\
  leaf_text (LeafOp c "$like" v) = c +:+ " LIKE ?".
Proof. repeat split. Qed.







Lemma lookup_prop_plain k props :
  is_combinator k = true ->
  forallb (fun kv => negb (is_combinator (fst kv))) props = true ->
  lookup_prop k props = None.
Proof.
  intros Hk. induction props as [|[k' v] props IH]; [done|]. cbn [forallb fst lookup_prop].
  intros [Hk' Hrest]%andb_true_iff.
  destruct (String.eqb_spec k k') as [->|_]; [|by apply IH].
  by rewrite Hk in Hk'.
Qed.

Lemma tree_leaves_columns props :
  forallb (fun kv => negb (is_combinator (fst kv))) props = true ->
  tree_leaves (JObj props) = flat_map field_leaves props.
Proof.
  cbn [tree_leaves]. induction props as [|[k v] props IH]; [done|].
  cbn [forallb fst flat_map]. intros [Hk Hrest]%andb_true_iff.
  rewrite (IH Hrest). f_equal. unfold is_combinator in Hk.
  destruct (String.eqb k "$and"), (String.eqb k "$or"), (String.eqb k "$not"); done.
Qed.

(** In a tree whose combinator keys stand alone the compiler reads every
    leaf. *)
Lemma tree_leaves_alone cond :
  combinators_alone cond = true -> tree_leaves cond = leaves cond.
Proof.
  induction cond as [ | | b | n | s | conds IH | props IH] using jsval_nested_ind;
    try done.
  - cbn [combinators_alone tree_leaves leaves]. intros Hall.
    induction IH as [|c conds Hc _ IHconds]; [done|].
    cbn [forallb] in Hall. apply andb_true_iff in Hall as [Hc' Hrest].
    cbn [flat_map]. by rewrite (Hc Hc'), (IHconds Hrest).
  - assert (forallb (fun kv => negb (is_combinator (fst kv))) props = true ->
            tree_leaves (JObj props) = leaves (JObj props)) as Hcolumns.
    { intros Hplain. rewrite (tree_leaves_columns _ Hplain), leaves_obj. cbv zeta.
      rewrite !with_prop_lookup.
      by rewrite (lookup_prop_plain "$and" _ eq_refl Hplain),
        (lookup_prop_plain "$or" _ eq_refl Hplain),
        (lookup_prop_plain "$not" _ eq_refl Hplain). }
    destruct props as [|[k v] [|kv props]]; [done| |exact Hcolumns].
    apply Forall_cons_1 in IH as [IHv _]. cbn [snd] in IHv.
    cbn [combinators_alone].
    destruct (String.eqb_spec k "$and") as [->|Hand]; cbn [orb].
    { intros Hv. destruct v; try done. cbn [tree_leaves flat_map] in *.
      rewrite app_nil_r. exact (IHv Hv). }
    destruct (String.eqb_spec k "$or") as [->|Hor].
    { intros Hv. destruct v; try done. cbn [tree_leaves flat_map] in *.
      rewrite app_nil_r. exact (IHv Hv). }
    destruct (String.eqb_spec k "$not") as [->|Hnot].
    { intros Hv. cbn [tree_leaves flat_map]. rewrite app_nil_r.
      change (leaves (JObj [("$not", v)])) with (leaves v). exact (IHv Hv). }
    intros _. apply Hcolumns. cbn [forallb fst]. unfold is_combinator.
    apply String.eqb_neq in Hand, Hor, Hnot. by rewrite Hand, Hor, Hnot.
Qed.




(** *** Operators on lists *)

(** C6.  For every column, [$in] with the empty list compiles to the
    always-false fragment [FALSE] (never to [column IN ()]) and pushes no
    parameter; [$nin], [$notIn] and [$nIn] with the empty list compile to
    the always-true fragment [TRUE] and push no parameter.  The same holds
    for the column condition [{column: {$in: []}}], and for the tree
    [{status: {$in: []}}] of the specification. *)
Theorem empty_list_membership_degenerates (column : string) (ps : list jsval) :
  buildOperator column "$in" (JArr []) ps = Ok ("FALSE", ps) /\
  buildOperator column "$nin" (JArr []) ps = Ok ("TRUE", ps) /\
  buildOperator column "$notIn" (JArr []) ps = Ok ("TRUE", ps) /\
  buildOperator column "$nIn" (JArr []) ps = Ok ("TRUE", ps) /\
  buildCondition column (JObj [("$in", JArr [])]) ps = Ok ("FALSE", ps) /\
  buildCondition column (JObj [("$nin", JArr [])]) ps = Ok ("TRUE", ps) /\
  buildCondition column (JObj [("$notIn", JArr [])]) ps = Ok ("TRUE", ps) /\
  buildCondition column (JObj [("$nIn", JArr [])]) ps = Ok ("TRUE", ps) /\
  _buildWhereClause (JObj [("status", JObj [("$in", JArr [])])])
    = Ok {| clause := "FALSE"; params := [] |}.
Proof. repeat split. Qed.

(** [$between] on an array, by the length of the array. *)
Lemma buildOperator_between (column : string) (operand ps : list jsval) :
  buildOperator column "$between" (JArr operand) ps =
    match operand with
    | [lo; hi] => Ok (column +:+ " BETWEEN ? AND ?", ps ++ [lo; hi])
    | _ => Throw (Error "$between requires [min, max]")
    end.
Proof.
  change (buildOperator column "$between" (JArr operand)) with
    (bind (lift (get_length (JArr operand)))
       (fun len =>
          if negb (strict_eq_num len 2)
          then throw (Error "$between requires [min, max]")
          else bind (lift (get_index (JArr operand) 0)) (fun lo =>
               bind (lift (get_index (JArr operand) 1)) (fun hi =>
               bind (push [lo; hi]) (fun _ =>
               ret (column +:+ " BETWEEN ? AND ?")))))).
  unfold bind at 1. unfold lift at 1. unfold get_length, strict_eq_num.
  cbv beta iota.
  destruct (Z.eqb_spec (Z.of_nat (List.length operand)) 2) as [H|H];
    destruct operand as [|lo [|hi [|x rest]]]; simpl in H; try lia; reflexivity.
Qed.

Lemma buildCondition_between (column : string) (operand ps : list jsval) :
  buildCondition column (JObj [("$between", JArr operand)]) ps =
    match operand with
    | [lo; hi] => Ok (column +:+ " BETWEEN ? AND ?", ps ++ [lo; hi])
    | _ => Throw (Error "$between requires [min, max]")
    end.
Proof.
  change (buildCondition column (JObj [("$between", JArr operand)]) ps) with
    (bind (bind (buildOperator column "$between" (JArr operand))
                (fun y => bind (ret []) (fun ys => ret (y :: ys))))
          (fun frags => ret (join " AND " frags)) ps).
  unfold bind. rewrite buildOperator_between.
  by destruct operand as [|lo [|hi [|x rest]]].
Qed.

(** The trees of the specification. *)
Example where_null :
  _buildWhereClause (JObj [("age", JNull)])
  = Ok {| clause := "age IS NULL"; params := [] |}.
Proof. reflexivity. Qed.

Example where_or :
  _buildWhereClause (JObj [("$or", JArr [JObj [("a", JNum 1)]; JObj [("b", JNum 2)]])])
  = Ok {| clause := "(a = ? OR b = ?)"; params := [JNum 1; JNum 2] |}.
Proof. reflexivity. Qed.

Example where_between :
  _buildWhereClause (JObj [("price", JObj [("$between", JArr [JNum 10; JNum 100])])])
  = Ok {| clause := "price BETWEEN ? AND ?"; params := [JNum 10; JNum 100] |}.
Proof. reflexivity. Qed.

Example where_unsupported :
  _buildWhereClause (JObj [("a", JObj [("$regex", JStr "x")])])
  = Throw (Error "Unsupported operator: $regex").
Proof. reflexivity. Qed.

(** *** Update and delete builders *)

Lemma prepare_step_undefined acc key :
  prepare_step acc (key, JUndefined) = acc.
Proof. reflexivity. Qed.

Lemma prepare_all_undefined es acc :
  Forall (fun kv => snd kv = JUndefined) es -> fold_left prepare_step es acc = acc.
Proof.
  induction 1 as [|[k v] es Hv Hes IH]; [done|].
  simpl in Hv. subst v. cbn [fold_left]. by rewrite prepare_step_undefined.
Qed.

(** The loop only ever appends. *)
Lemma prepare_fold_app es acc :
  fold_left prepare_step es acc =
  {| setFields := setFields acc ++ setFields (prepare_entries es);
     setParams := setParams acc ++ setParams (prepare_entries es) |}.
Proof.
  unfold prepare_entries. revert acc.
  induction es as [|[k v] es IH]; intros acc; cbn [fold_left].
  - destruct acc. simpl. by rewrite !app_nil_r.
  - rewrite (IH (prepare_step acc (k, v))).
    rewrite (IH (prepare_step _ (k, v))).
    unfold prepare_step.
    destruct (is_undefined v); [done|].
    destruct (truthy v && typeof_object v && truthy (prop v "__raw"));
      [|destruct (is_null v)]; simpl; by rewrite <- ?app_assoc.
Qed.

Lemma prepare_entries_app es1 es2 :
  prepare_entries (es1 ++ es2) =
  {| setFields := setFields (prepare_entries es1) ++ setFields (prepare_entries es2);
     setParams := setParams (prepare_entries es1) ++ setParams (prepare_entries es2) |}.
Proof.
  unfold prepare_entries at 1. rewrite fold_left_app.
  fold (prepare_entries es1). apply prepare_fold_app.
Qed.

End CrudFacts.

(** ** Builders and entry points *)

Module CrudApiFacts.
Import Js Crud Runtime CrudApi JsFacts CrudFacts.

(** A builder that throws stops the entry point before anything is
    awaited: the world is untouched. *)
Lemma built_throw {A B} (r : result A) (k : A -> IO B) e w :
  r = Throw e -> seq (built r) k w = (Throw e, w).
Proof. by intros ->. Qed.

(** C4.  For every delete descriptor whose [where] is absent, or whose
    condition tree compiles to the empty clause, [_buildDeleteQuery]
    throws, and [buildAndExecuteDeleteQuery] raises the same error without
    touching the pool: the world, trace included, is unchanged. *)
Theorem delete_requires_where (options : DeleteOptions) :
  d_where options = JUndefined \/
  (exists ps, _buildWhereClause (d_where options) = Ok {| clause := ""; params := ps |}) ->
  exists e,
    _buildDeleteQuery options = Throw e /\
    forall E dbConfig w, buildAndExecuteDeleteQuery E options dbConfig w = (Throw e, w).
Proof.
  intros H.
  assert (exists e, _buildDeleteQuery options = Throw e) as [e He].
  { unfold _buildDeleteQuery.
    destruct (truthy (d_table options)); simpl; [|eauto].
    destruct H as [->|[ps Hc]]; simpl; [eauto|].
    destruct (truthy (d_where options)); [|eauto].
    unfold append_where. rewrite Hc. simpl. eauto. }
  exists e. split; [done|]. intros E dbConfig w.
  unfold buildAndExecuteDeleteQuery. by apply built_throw.
Qed.

(** The theorem at [{table: 'users', where: {}}]. *)
Lemma delete_requires_where_witness :
  exists e,
    _buildDeleteQuery {| d_table := JStr "users"; d_where := JObj [] |} = Throw e /\
    forall E dbConfig w,
      buildAndExecuteDeleteQuery E {| d_table := JStr "users"; d_where := JObj [] |}
        dbConfig w = (Throw e, w).
Proof.
  apply (delete_requires_where {| d_table := JStr "users"; d_where := JObj [] |}).
  right. exists []. reflexivity.
Defined.

(** C5.  For every update descriptor whose [data] has no entry other than
    [undefined] ones, [_buildUpdateQuery] throws [No valid fields to
    update], and [buildAndExecuteUpdateQuery] raises it without touching
    the pool. *)
Theorem update_requires_a_field (options : UpdateOptions) (es : list (string * jsval)) :
  entries (u_data options) = Ok es ->
  Forall (fun kv => snd kv = JUndefined) es ->
  _buildUpdateQuery options = Throw (Error "No valid fields to update") /\
  forall E dbConfig w,
    buildAndExecuteUpdateQuery E options dbConfig w
    = (Throw (Error "No valid fields to update"), w).
Proof.
  intros Hes Hall.
  assert (_buildUpdateQuery options = Throw (Error "No valid fields to update")) as He.
  { unfold _buildUpdateQuery, prepareUpdateParams. rewrite Hes. simpl.
    unfold prepare_entries. by rewrite prepare_all_undefined. }
  split; [done|]. intros E dbConfig w.
  unfold buildAndExecuteUpdateQuery. by apply built_throw.
Qed.

(** The theorem at [{table: 'users', data: {name: undefined, age: undefined}}]. *)
Lemma update_requires_a_field_witness :
  let options := {| u_table := JStr "users";
                    u_data := JObj [("name", JUndefined); ("age", JUndefined)];
                    u_where := JObj [("id", JNum 1)] |} in
  _buildUpdateQuery options = Throw (Error "No valid fields to update") /\
  forall E dbConfig w,
    buildAndExecuteUpdateQuery E options dbConfig w
    = (Throw (Error "No valid fields to update"), w).
Proof.
  apply (update_requires_a_field
           {| u_table := JStr "users";
              u_data := JObj [("name", JUndefined); ("age", JUndefined)];
              u_where := JObj [("id", JNum 1)] |}
           [("name", JUndefined); ("age", JUndefined)]).
  - reflexivity.
  - repeat constructor.
Defined.

(** C7.  For every column, [$between] with a two-element array
    [[lo, hi]] compiles to [column BETWEEN ? AND ?] and pushes [lo] then
    [hi]; with an array of any other length it throws the usage error
    [$between requires [min, max]].  The throw comes before anything is
    awaited: an entry point given such a tree raises the error and leaves
    the world, trace included, as it was. *)
Theorem between_requires_pair (column : string) (operand ps : list jsval) :
  buildOperator column "$between" (JArr operand) ps =
    match operand with
    | [lo; hi] => Ok (column +:+ " BETWEEN ? AND ?", ps ++ [lo; hi])
    | _ => Throw (Error "$between requires [min, max]")
    end /\
  buildCondition column (JObj [("$between", JArr operand)]) ps =
    match operand with
    | [lo; hi] => Ok (column +:+ " BETWEEN ? AND ?", ps ++ [lo; hi])
    | _ => Throw (Error "$between requires [min, max]")
    end /\
  forall E dbConfig w,
    match operand with
    | [_; _] => True
    | _ =>
        buildAndExecuteDeleteQuery E
          {| d_table := JStr "products";
             d_where := JObj [("price", JObj [("$between", JArr operand)])] |}
          dbConfig w
        = (Throw (Error "$between requires [min, max]"), w)
    end.
Proof.
  split_and!; [apply buildOperator_between | apply buildCondition_between |].
  intros E dbConfig w.
  assert (match operand with
          | [_; _] => True
          | _ => _buildDeleteQuery
                   {| d_table := JStr "products";
                      d_where := JObj [("price", JObj [("$between", JArr operand)])] |}
                 = Throw (Error "$between requires [min, max]")
          end) as Hbuild.
  { assert (_buildWhereClause (JObj [("price", JObj [("$between", JArr operand)])])
            = match buildCondition "price" (JObj [("$between", JArr operand)]) [] with
              | Ok (c, qs) => Ok {| clause := c; params := qs |}
              | Throw e => Throw e
              end) as Hwhere.
    { unfold _buildWhereClause.
      change (walk (JObj [("price", JObj [("$between", JArr operand)])]) [])
        with (bind (bind (buildCondition "price" (JObj [("$between", JArr operand)]))
                         (fun y => bind (ret []) (fun ys => ret (y :: ys))))
                   (fun frags => ret (join " AND " frags)) []).
      unfold bind at 1 2.
      by destruct (buildCondition "price" (JObj [("$between", JArr operand)]) [])
        as [[c qs]|e]. }
    rewrite buildCondition_between in Hwhere.
    destruct operand as [|lo [|hi [|x rest]]]; try done;
      unfold _buildDeleteQuery, append_where; cbn [d_table d_where];
      by rewrite Hwhere. }
  destruct operand as [|lo [|hi [|x rest]]]; try done;
    unfold buildAndExecuteDeleteQuery; by apply built_throw.
Qed.

(** C8.  For every entry [key: {__raw: true, value: text}] of an update
    [data] map, whatever stands before and after it: the SET list has the
    fields of the entries before, then [key = text] verbatim, then the
    fields of the entries after, and the parameters are those of the
    entries before and after, the raw entry adding none.  The statement
    text is that SET list behind [UPDATE table SET]. *)
Theorem raw_expression_is_verbatim (table : jsval)
    (before after : list (string * jsval)) (key text : string) :
  let data := JObj (before ++ (key, JObj [("__raw", JBool true); ("value", JStr text)])
                          :: after) in
  let fields := setFields (prepare_entries before) ++ [key +:+ " = " +:+ text]
                ++ setFields (prepare_entries after) in
  let bound := setParams (prepare_entries before) ++ setParams (prepare_entries after) in
  prepareUpdateParams data = Ok {| setFields := fields; setParams := bound |} /\
  _buildUpdateQuery {| u_table := table; u_data := data; u_where := JUndefined |}
  = Ok {| query := "UPDATE " +:+ to_string table +:+ " SET " +:+ join ", " fields;
          allParams := bound |}.
Proof.
  intros data fields bound.
  assert (prepareUpdateParams data = Ok {| setFields := fields; setParams := bound |})
    as Hp.
  { unfold prepareUpdateParams, data. simpl. f_equal.
    rewrite prepare_entries_app.
    change ((key, JObj [("__raw", JBool true); ("value", JStr text)]) :: after)
      with ([(key, JObj [("__raw", JBool true); ("value", JStr text)])] ++ after).
    by rewrite prepare_entries_app. }
  split; [done|].
  unfold _buildUpdateQuery. cbn [u_data u_table u_where]. rewrite Hp. simpl.
  destruct (Nat.eqb_spec (List.length fields) 0) as [H0|_]; [|done].
  unfold fields in H0. rewrite !length_app in H0. simpl in H0. lia.
Qed.

(** C10.  For every falsy query (the empty string, [undefined], ...),
    [find] returns the empty array and [findCount] returns [0], and
    neither resolves a pool nor sends anything: the world is unchanged. *)
Theorem find_empty_query_returns_early (E : env) (sql : jsval) (args : list jsval)
    (dbConfig : jsval) (w : world) :
  truthy sql = false ->
  find E sql args dbConfig w = (Ok (JArr []), w) /\
  findCount E sql args dbConfig w = (Ok (JNum 0), w).
Proof. intros H. unfold find, findCount. by rewrite H. Qed.

(** The theorem at the empty query string. *)
Lemma find_empty_query_returns_early_witness :
  find Lifetime.all_succeed (JStr "") [] JUndefined initial = (Ok (JArr []), initial) /\
  findCount Lifetime.all_succeed (JStr "") [] JUndefined initial = (Ok (JNum 0), initial).
Proof.
  apply (find_empty_query_returns_early Lifetime.all_succeed (JStr "") [] JUndefined initial).
  reflexivity.
Defined.

End CrudApiFacts.

(** ** The transaction session *)

Module TransactionFacts.
Import Js Runtime TransactionCRUD TransactionManager Lifetime.

(** *** Writing to a session that exists *)

Lemma alter_present (f : session -> session) (this : loc) (m : gmap nat session) s :
  m !! this = Some s -> alter f this m = <[this := f s]> m.
Proof.
  intros Hs. apply map_eq. intros j.
  destruct (decide (this = j)) as [<-|Hne].
  - by rewrite lookup_alter_eq, lookup_insert_eq, Hs.
  - by rewrite lookup_alter_ne, lookup_insert_ne.
Qed.

(** Symbolic execution of a method on a world given by its fields. *)
Ltac run_io :=
  cbv [init commit rollback executeQuery _cleanup
       seq pure raise try_catch try_finally emit log log_with next_tick new_handle
       read_session write_session set_connection set_transactionActive
       await date_now getPool pool_getConnection conn_beginTransaction conn_query
       conn_commit conn_rollback conn_release
       tick next_conn sessions transactionInstance trace
       connection transactionActive debug fst snd negb].

Ltac tidy_world :=
  repeat first
    [ rewrite lookup_insert_eq
    | rewrite alter_insert_eq
    | rewrite insert_insert_eq
    | rewrite <- app_assoc ];
  cbv [connection transactionActive debug app]; cbv beta iota.

Lemma rollback_idle E this w s :
  sessions w !! this = Some s -> connection s = None ->
  rollback E this w = (Ok tt, w).
Proof.
  destruct w as [t n m inst tr], s as [c a d]. simpl. intros Hs ->.
  run_io. by rewrite Hs.
Qed.

Lemma rollback_held E this w s c :
  sessions w !! this = Some s -> connection s = Some c ->
  rollback E this w =
  (Ok tt,
   {| tick := S (tick w); next_conn := next_conn w;
      sessions := <[this := terminated s]> (sessions w);
      transactionInstance := transactionInstance w;
      trace := trace w ++ [EvRollback c; rollback_logged (reply E (tick w)); EvRelease c] |}).
Proof.
  destruct w as [t n m inst tr], s as [c0 a d]. simpl. intros Hs ->.
  run_io. rewrite Hs. cbv beta iota.
  destruct (reply E t) as [v|e]; cbv beta iota; rewrite Hs; cbv beta iota;
    rewrite !(alter_present _ _ _ _ Hs); tidy_world; reflexivity.
Qed.

Lemma commit_idle E this w s :
  sessions w !! this = Some s -> connection s = None ->
  commit E this w = (Throw (Error "No active transaction to commit"), w).
Proof.
  destruct w as [t n m inst tr], s as [c a d]. simpl. intros Hs ->.
  run_io. by rewrite Hs.
Qed.

Lemma commit_inactive E this w s :
  sessions w !! this = Some s -> transactionActive s = false ->
  commit E this w = (Throw (Error "No active transaction to commit"), w).
Proof.
  destruct w as [t n m inst tr], s as [[c|] a d]; simpl; intros Hs ->;
    run_io; by rewrite Hs.
Qed.

Lemma commit_active E this w s c :
  sessions w !! this = Some s -> connection s = Some c -> transactionActive s = true ->
  commit E this w =
  (commit_result (reply E (tick w)),
   {| tick := commit_ticks (reply E (tick w)) + tick w; next_conn := next_conn w;
      sessions := <[this := terminated s]> (sessions w);
      transactionInstance := transactionInstance w;
      trace := trace w
               ++ commit_events c (reply E (tick w)) (reply E (S (tick w))) |}).
Proof.
  destruct w as [t n m inst tr], s as [c0 a d]. simpl. intros Hs -> ->.
  run_io. rewrite Hs. cbv beta iota.
  destruct (reply E t) as [v|e]; cbv beta iota.
  - rewrite ?Hs. cbv beta iota.
    rewrite !(alter_present _ _ _ _ Hs). tidy_world. reflexivity.
  - rewrite ?Hs. cbv beta iota.
    destruct (reply E (S t)) as [v'|e']; cbv beta iota; rewrite ?Hs; cbv beta iota;
      rewrite !(alter_present _ _ _ _ Hs); tidy_world;
      cbv [terminated debug]; tidy_world; reflexivity.
Qed.

Lemma init_idle E this dbConfig w s :
  sessions w !! this = Some s -> connection s = None ->
  init E this dbConfig w = init_outcome E this dbConfig w s.
Proof.
  destruct w as [t n m inst tr], s as [c0 a d]. simpl. intros Hs ->.
  unfold init_outcome. run_io. cbv [Nat.add].
  destruct (reply E t) as [v|e]; cbv beta iota; rewrite ?Hs; cbv beta iota;
    [|tidy_world; reflexivity].
  destruct (reply E (S t)) as [v1|e]; cbv beta iota; rewrite ?Hs; cbv beta iota;
    [|tidy_world; reflexivity].
  destruct (reply E (S (S t))) as [v2|e]; cbv beta iota;
    rewrite ?(alter_present _ _ _ _ Hs); tidy_world.
  - reflexivity.
  - rewrite ?(alter_present _ _ _ _ Hs); tidy_world. reflexivity.
Qed.

(** [executeQuery] leaves the session and the pool alone. *)
Lemma executeQuery_quiet E this sql args operation w :
  let w' := snd (executeQuery E this sql args operation w) in
  sessions w' = sessions w /\ next_conn w' = next_conn w /\
  exists evs, trace w' = trace w ++ evs /\ forallb quiet evs = true.
Proof.
  destruct w as [t n m inst tr]. run_io.
  destruct (m !! this) as [[[c|] a d]|]; cbv beta iota;
    try (split_and!; [done..|]; exists []; by rewrite app_nil_r).
  destruct a; cbv beta iota;
    try (split_and!; [done..|]; exists []; by rewrite app_nil_r).
  destruct (reply E (S t)) as [v|e]; cbv beta iota.
  - destruct (1000 <? now E (S (S t)) - now E t)%Z; cbv beta iota;
      (split_and!; [done..|]); rewrite <- ?app_assoc; eexists; (split; [reflexivity|done]).
  - split_and!; [done..|]. rewrite <- ?app_assoc. eexists. split; [reflexivity|done].
Qed.

(** *** Counting reservations and releases *)

Lemma reserves_app c tr evs : reserves c (tr ++ evs) = reserves c tr + reserves c evs.
Proof. unfold reserves. by rewrite List.filter_app, length_app. Qed.

Lemma releases_app c tr evs : releases c (tr ++ evs) = releases c tr + releases c evs.
Proof. unfold releases. by rewrite List.filter_app, length_app. Qed.

Lemma in_use_app tr evs : in_use (tr ++ evs) = (in_use tr + in_use evs)%Z.
Proof. unfold in_use. rewrite !List.filter_app, !length_app. lia. Qed.

Lemma quiet_counts evs :
  forallb quiet evs = true ->
  (forall c, reserves c evs = 0) /\ (forall c, releases c evs = 0) /\ in_use evs = 0%Z.
Proof.
  unfold reserves, releases, in_use.
  induction evs as [|ev evs IH]; simpl; [done|].
  intros H. apply andb_prop in H as [Hev Hevs].
  destruct (IH Hevs) as (IH1 & IH2 & IH3).
  unfold quiet in Hev. apply andb_prop in Hev as [Hr Hl].
  destruct ev; simpl in *; try discriminate; split_and!; auto.
Qed.

Lemma balanced_quiet tr n h evs :
  forallb quiet evs = true ->
  balanced_with tr n h -> balanced_with (tr ++ evs) n h.
Proof.
  intros Hq (Hfresh & Honce & Hcount & Huse).
  destruct (quiet_counts evs Hq) as (Hr & Hl & Hu).
  split_and!; intros; rewrite ?reserves_app, ?releases_app, ?in_use_app, ?Hr, ?Hl, ?Hu.
  - rewrite Hfresh by done. lia.
  - specialize (Honce c). lia.
  - specialize (Hcount c). lia.
  - lia.
Qed.

Ltac count_events :=
  unfold reserves, releases, in_use in *;
  rewrite ?List.filter_app, ?length_app; simpl.

(** Taking back the connection held. *)
Lemma balanced_release tr n c :
  balanced_with tr n (Some c) -> balanced_with (tr ++ [EvRelease c]) n None.
Proof.
  intros (Hfresh & Honce & Hcount & Huse).
  split_and!; intros.
  - specialize (Hfresh c0). count_events. lia.
  - specialize (Honce c0). count_events. lia.
  - specialize (Hcount c0). count_events.
    destruct (c0 =? c)%nat; simpl; lia.
  - count_events. lia.
Qed.

(** Handing out a fresh connection to a session that holds none. *)
Lemma balanced_reserve tr n :
  balanced_with tr n None -> balanced_with (tr ++ [EvReserved n]) (S n) (Some n).
Proof.
  intros (Hfresh & Honce & Hcount & Huse).
  split_and!; intros.
  - specialize (Hfresh c). count_events.
    destruct (Nat.eqb_spec c n); simpl; lia.
  - specialize (Honce c). specialize (Hfresh c). count_events.
    destruct (Nat.eqb_spec c n); simpl; lia.
  - specialize (Hcount c). count_events.
    destruct (c =? n)%nat; simpl; lia.
  - count_events. lia.
Qed.

(** *** Every call keeps the books balanced *)

Lemma held_lookup w this s :
  sessions w !! this = Some s -> held w this = connection s.
Proof. unfold held. by intros ->. Qed.

Ltac split_trace pre :=
  match goal with
  | |- balanced_with (?tr ++ ?evs) _ _ =>
      let post := eval cbv [drop length] in (drop (length pre) evs) in
      replace (tr ++ evs) with ((tr ++ pre) ++ post) by (by rewrite <- app_assoc)
  end.

Lemma balanced_init E this dbConfig w :
  balanced w this -> held w this = None ->
  balanced (snd (init E this dbConfig w)) this.
Proof.
  intros [(s & Hs & Hcons) Hbal] Hidle.
  rewrite (held_lookup _ _ _ Hs) in Hidle.
  rewrite (held_lookup _ _ _ Hs), Hidle in Hbal.
  rewrite (init_idle _ _ _ _ _ Hs Hidle). unfold init_outcome.
  unfold consistent in Hcons. rewrite Hidle in Hcons.
  destruct (reply E (tick w)) as [v|e]; [destruct (reply E (1 + tick w)) as [v1|e];
    [destruct (reply E (2 + tick w)) as [v2|e]|]|];
    (split; [eexists; split; [first [apply lookup_insert_eq | exact Hs]|];
             unfold consistent; simpl; by rewrite ?Hidle |]);
    unfold held; simpl; rewrite ?lookup_insert_eq, ?Hs, ?Hidle; simpl.
  - split_trace [EvGetPool dbConfig; EvGetConnection; EvReserved (next_conn w)].
    apply balanced_quiet; [done|].
    split_trace [EvGetPool dbConfig; EvGetConnection].
    apply balanced_reserve. by apply balanced_quiet.
  - split_trace [EvGetPool dbConfig; EvGetConnection; EvReserved (next_conn w);
                 EvBegin (next_conn w);
                 EvLog Err "Failed to initialize transaction:" (Failure e)].
    apply balanced_release.
    split_trace [EvGetPool dbConfig; EvGetConnection; EvReserved (next_conn w)].
    apply balanced_quiet; [done|].
    split_trace [EvGetPool dbConfig; EvGetConnection].
    apply balanced_reserve. by apply balanced_quiet.
  - by apply balanced_quiet.
  - by apply balanced_quiet.
Qed.

Lemma balanced_rollback E this w :
  balanced w this -> balanced (snd (rollback E this w)) this.
Proof.
  intros [(s & Hs & Hcons) Hbal].
  rewrite (held_lookup _ _ _ Hs) in Hbal.
  destruct (connection s) as [c|] eqn:Hc.
  - rewrite (rollback_held _ _ _ _ _ Hs Hc). simpl.
    split; [eexists; split; [apply lookup_insert_eq | done]|].
    unfold held; simpl; rewrite lookup_insert_eq; simpl.
    split_trace [EvRollback c; rollback_logged (reply E (tick w))].
    apply balanced_release. apply balanced_quiet; [|done].
    by destruct (reply E (tick w)).
  - rewrite (rollback_idle _ _ _ _ Hs Hc). simpl.
    split; [by eexists|]. by rewrite (held_lookup _ _ _ Hs), Hc.
Qed.

Lemma balanced_commit E this w :
  balanced w this -> balanced (snd (commit E this w)) this.
Proof.
  intros [(s & Hs & Hcons) Hbal].
  rewrite (held_lookup _ _ _ Hs) in Hbal.
  destruct (connection s) as [c|] eqn:Hc.
  - unfold consistent in Hcons. rewrite Hc in Hcons.
    rewrite (commit_active _ _ _ _ _ Hs Hc Hcons). simpl.
    split; [eexists; split; [apply lookup_insert_eq | done]|].
    unfold held; simpl; rewrite lookup_insert_eq; simpl.
    destruct (reply E (tick w)) as [v|e]; simpl.
    + split_trace [EvCommit c; EvLog Info "Transaction committed" NoData].
      apply balanced_release. by apply balanced_quiet.
    + split_trace [EvCommit c; EvLog Err "Commit failed, rolling back..." (Failure e);
                   EvRollback c; rollback_logged (reply E (S (tick w)))].
      apply balanced_release. apply balanced_quiet; [|done].
      by destruct (reply E (S (tick w))).
  - rewrite (commit_idle _ _ _ _ Hs Hc). simpl.
    split; [by eexists|]. by rewrite (held_lookup _ _ _ Hs), Hc.
Qed.

Lemma balanced_executeQuery E this sql args operation w :
  balanced w this -> balanced (snd (executeQuery E this sql args operation w)) this.
Proof.
  intros [(s & Hs & Hcons) Hbal].
  destruct (executeQuery_quiet E this sql args operation w)
    as (Hsess & Hnext & evs & Htr & Hq).
  unfold balanced, held. rewrite Hsess, Hnext, Htr.
  split; [by eexists|]. by apply balanced_quiet.
Qed.

Lemma balanced_run_call E this c w :
  balanced w this ->
  match c with CallInit _ => held w this = None | _ => True end ->
  balanced (run_call E this c w) this.
Proof.
  intros Hbal Hidle. destruct c; simpl.
  - by apply balanced_init.
  - by apply balanced_executeQuery.
  - by apply balanced_commit.
  - by apply balanced_rollback.
Qed.

Lemma balanced_run_calls E this calls w :
  balanced w this -> init_when_idle E this calls w = true ->
  balanced (run_calls E this calls w) this.
Proof.
  revert w. induction calls as [|c calls IH]; intros w Hbal Hidle; [done|].
  simpl in Hidle. apply andb_prop in Hidle as [Hc Hrest].
  unfold run_calls. simpl. apply IH; [|done].
  apply balanced_run_call; [done|].
  destruct c; [|done..]. by destruct (held w this).
Qed.

(** *** The lifetime of a session *)

(** C2, as amended.  For every session fresh from the constructor, every
    environment and every sequence of init/execute/commit/rollback calls
    in which [init] is only called while the session holds no connection:
    no connection is handed out twice, every connection handed out has
    been released exactly once unless the session still holds it (then
    not at all), and the pool misses exactly the connection held.
    Whenever the session holds no connection (before [init], or after a
    commit or a rollback), [rollback] does nothing at all and [commit]
    raises without touching the pool; and after a [rollback] or a
    [commit] the session holds no connection. *)
Theorem connection_released_exactly_once (E : env) (this : loc) (calls : list call)
    (w0 : world) :
  sessions w0 !! this = Some created ->
  trace w0 = [] ->
  init_when_idle E this calls w0 = true ->
  let w := run_calls E this calls w0 in
  (forall c, reserves c (trace w) <= 1 /\
             releases c (trace w) + holds w this c = reserves c (trace w)) /\
  in_use (trace w) = match held w this with Some _ => 1%Z | None => 0%Z end /\
  (held w this = None ->
   forall E', rollback E' this w = (Ok tt, w) /\
              commit E' this w = (Throw (Error "No active transaction to commit"), w)) /\
  (forall E', held (snd (rollback E' this w)) this = None /\
              held (snd (commit E' this w)) this = None).
Proof.
  intros Hs0 Htr0 Hidle w.
  assert (balanced w0 this) as Hbal0.
  { split; [by exists created|].
    rewrite (held_lookup _ _ _ Hs0), Htr0.
    split_and!; try done. intros c. unfold reserves. simpl. lia. }
  assert (balanced w this) as Hbal by (by apply balanced_run_calls).
  pose proof Hbal as [(s & Hs & Hcons) (Hfresh & Honce & Hcount & Huse)].
  split_and!.
  - intros c. split; [apply Honce|]. unfold holds. apply Hcount.
  - exact Huse.
  - rewrite (held_lookup _ _ _ Hs). intros Hnone E'. split.
    + by eapply rollback_idle.
    + by eapply commit_idle.
  - intros E'. split.
    + destruct (connection s) as [c|] eqn:Hc.
      * rewrite (rollback_held _ _ _ _ _ Hs Hc). unfold held. simpl.
        by rewrite lookup_insert_eq.
      * rewrite (rollback_idle _ _ _ _ Hs Hc). simpl.
        by rewrite (held_lookup _ _ _ Hs).
    + destruct (connection s) as [c|] eqn:Hc.
      * unfold consistent in Hcons. rewrite Hc in Hcons.
        rewrite (commit_active _ _ _ _ _ Hs Hc Hcons). unfold held. simpl.
        by rewrite lookup_insert_eq.
      * rewrite (commit_idle _ _ _ _ Hs Hc). simpl.
        by rewrite (held_lookup _ _ _ Hs).
Qed.

(** The theorem on rollback, init, a query, commit, rollback, commit, init,
    rollback, with the fourth and every later operation of the driver
    failing. *)
Lemma connection_released_exactly_once_witness :
  let w := run_calls (fail_from 3) 0
             [CallRollback; CallInit JUndefined; CallExecute (JStr "SELECT 1") [];
              CallCommit; CallRollback; CallCommit; CallInit JUndefined; CallRollback]
             (snd (new_session initial)) in
  (forall c, reserves c (trace w) <= 1 /\
             releases c (trace w) + holds w 0 c = reserves c (trace w)) /\
  in_use (trace w) = match held w 0 with Some _ => 1%Z | None => 0%Z end /\
  (held w 0 = None ->
   forall E', rollback E' 0 w = (Ok tt, w) /\
              commit E' 0 w = (Throw (Error "No active transaction to commit"), w)) /\
  (forall E', held (snd (rollback E' 0 w)) 0 = None /\
              held (snd (commit E' 0 w)) 0 = None).
Proof.
  apply (connection_released_exactly_once (fail_from 3) 0
           [CallRollback; CallInit JUndefined; CallExecute (JStr "SELECT 1") [];
            CallCommit; CallRollback; CallCommit; CallInit JUndefined; CallRollback]
           (snd (new_session initial))).
  - vm_compute. reflexivity.
  - reflexivity.
  - vm_compute. reflexivity.
Defined.

(** C2 as stated fails when [init] is called twice: the first connection
    is overwritten in the session, never released, and stays out of the
    pool after the commit. *)
Lemma double_init_leaks_a_connection :
  let w := run_calls all_succeed 0 [CallInit JUndefined; CallInit JUndefined; CallCommit]
             (snd (new_session initial)) in
  held w 0 = None /\
  reserves 0 (trace w) = 1 /\ releases 0 (trace w) = 0 /\
  reserves 1 (trace w) = 1 /\ releases 1 (trace w) = 1 /\
  in_use (trace w) = 1%Z.
Proof. vm_compute. repeat split. Qed.

(** C3.  For every active session holding [c], whatever the driver
    answers: [commit] leaves the session terminated (no connection, flag
    false) and releases [c] exactly once.  When the driver rejects the
    commit with [e], the session logs it, calls [rollback] on [c], logs
    the outcome of that rollback (a rejection as [Rollback failed:]
    without raising it), releases [c], and raises [e] itself.  When the
    driver accepts the commit, the session logs it, releases [c] and
    returns. *)
Theorem commit_failure_rolls_back (E : env) (this : loc) (w : world) (s : session)
    (c : conn) :
  sessions w !! this = Some s ->
  connection s = Some c ->
  transactionActive s = true ->
  let r := fst (commit E this w) in
  let w' := snd (commit E this w) in
  (sessions w' !! this
   = Some {| connection := None; transactionActive := false; debug := debug s |} /\
   releases c (trace w') = S (releases c (trace w)) /\
   in_use (trace w') = (in_use (trace w) - 1)%Z) /\
  (forall e, reply E (tick w) = Rejected e ->
     r = Throw e /\
     trace w' = trace w ++
       [EvCommit c; EvLog Err "Commit failed, rolling back..." (Failure e);
        EvRollback c;
        match reply E (S (tick w)) with
        | Resolved _ => EvLog Info "Transaction rolled back" NoData
        | Rejected e' => EvLog Err "Rollback failed:" (Failure e')
        end;
        EvRelease c]) /\
  (forall v, reply E (tick w) = Resolved v ->
     r = Ok tt /\
     trace w' = trace w ++
       [EvCommit c; EvLog Info "Transaction committed" NoData; EvRelease c]).
Proof.
  intros Hs Hc Ha r w'. subst r w'.
  rewrite (commit_active _ _ _ _ _ Hs Hc Ha). simpl.
  split_and!.
  - by rewrite lookup_insert_eq.
  - rewrite releases_app.
    destruct (reply E (tick w)) as [v|e]; [|destruct (reply E (S (tick w)))];
      unfold releases at 2; simpl; rewrite Nat.eqb_refl; simpl; lia.
  - rewrite in_use_app.
    destruct (reply E (tick w)) as [v|e]; [|destruct (reply E (S (tick w)))];
      unfold in_use at 2; simpl; lia.
  - by intros e ->.
  - by intros v ->.
Qed.

(** The theorem on a session initialised over three successful operations,
    whose commit and whose rollback are then both rejected. *)
Lemma commit_failure_rolls_back_witness :
  let E := fail_from 3 in
  let w := run_calls E 0 [CallInit JUndefined] (snd (new_session initial)) in
  fst (commit E 0 w) = Throw (DriverError "ER_LOCK_DEADLOCK") /\
  trace (snd (commit E 0 w)) = trace w ++
    [EvCommit 0;
     EvLog Err "Commit failed, rolling back..." (Failure (DriverError "ER_LOCK_DEADLOCK"));
     EvRollback 0;
     EvLog Err "Rollback failed:" (Failure (DriverError "ER_LOCK_DEADLOCK"));
     EvRelease 0] /\
  sessions (snd (commit E 0 w)) !! 0 = Some created.
Proof.
  intros E w.
  destruct (commit_failure_rolls_back E 0 w
              {| connection := Some 0; transactionActive := true; debug := false |} 0)
    as ((Hterm & _) & Hfail & _).
  - vm_compute. reflexivity.
  - reflexivity.
  - reflexivity.
  - destruct (Hfail (DriverError "ER_LOCK_DEADLOCK") eq_refl) as [Hr Htr].
    split_and!; [exact Hr | exact Htr | exact Hterm].
Defined.

(** *** The registry *)

(** *** The flag of a session driven by the protocol *)

(** While [init] is only called on a session that holds no connection,
    the flag of the session is set exactly while it holds one. *)
Lemma consistent_run_call E this c w :
  (exists s, sessions w !! this = Some s /\ consistent s) ->
  match c with CallInit _ => held w this = None | _ => True end ->
  exists s, sessions (run_call E this c w) !! this = Some s /\ consistent s.
Proof.
  intros (s & Hs & Hcons) Hidle.
  assert (forall m : gmap loc session, m !! this = Some s ->
            exists s', m !! this = Some s' /\ consistent s') as Hsame by eauto.
  unfold consistent in *.
  destruct c as [dbConfig|sql args| |]; cbn [run_call].
  - rewrite (held_lookup _ _ _ Hs) in Hidle. rewrite Hidle in Hcons.
    rewrite (init_idle _ _ _ _ _ Hs Hidle). unfold init_outcome.
    destruct (reply E (tick w)); cbn [snd sessions]; [|by apply Hsame].
    destruct (reply E (1 + tick w)); cbn [snd sessions]; [|by apply Hsame].
    destruct (reply E (2 + tick w)); cbn [snd sessions];
      (eexists; split; [apply lookup_insert_eq | done]).
  - destruct (executeQuery_quiet E this sql args "TRANS_QUERY" w) as (-> & _).
    by apply Hsame.
  - destruct (connection s) as [c|] eqn:Hc.
    + rewrite (commit_active _ _ _ _ _ Hs Hc Hcons). cbn [snd sessions].
      eexists; split; [apply lookup_insert_eq | done].
    + rewrite (commit_idle _ _ _ _ Hs Hc). by apply Hsame.
  - destruct (connection s) as [c|] eqn:Hc.
    + rewrite (rollback_held _ _ _ _ _ Hs Hc). cbn [snd sessions].
      eexists; split; [apply lookup_insert_eq | done].
    + rewrite (rollback_idle _ _ _ _ Hs Hc). by apply Hsame.
Qed.

Lemma consistent_run_calls E this calls w :
  (exists s, sessions w !! this = Some s /\ consistent s) ->
  init_when_idle E this calls w = true ->
  exists s, sessions (run_calls E this calls w) !! this = Some s /\ consistent s.
Proof.
  revert w. induction calls as [|c calls IH]; intros w Hcons Hidle; [done|].
  simpl in Hidle. apply andb_prop in Hidle as [Hc Hrest].
  unfold run_calls. simpl. apply IH; [|done].
  apply consistent_run_call; [done|].
  destruct c; [|done..]. by destruct (held w this).
Qed.

(** ** The registry *)

(** C9, as amended.  [hasActiveTransaction] answers true exactly when a
    session is registered and its flag is set.  For every session fresh
    from the constructor, every environment and every sequence of
    init/execute/commit/rollback calls in which [init] is only called
    while the session holds no connection: when the session is the one
    registered, then after a [commit] or a [rollback], whatever the driver
    answers, it is reported as not active. *)
Theorem registry_reports_active_session (E : env) (this : loc) (calls : list call)
    (w0 : world) :
  sessions w0 !! this = Some created ->
  init_when_idle E this calls w0 = true ->
  let w := run_calls E this calls w0 in
  transactionInstance w = Some this ->
  (forall w1, hasActiveTransaction w1 = true <->
     exists l s, transactionInstance w1 = Some l /\ sessions w1 !! l = Some s /\
                 transactionActive s = true) /\
  (forall E', hasActiveTransaction (snd (commit E' this w)) = false /\
              hasActiveTransaction (snd (rollback E' this w)) = false).
Proof.
  intros Hnew Hidle w Hreg. split.
  - intros w1. unfold hasActiveTransaction. split.
    + destruct (transactionInstance w1) as [l|]; [|done].
      destruct (sessions w1 !! l) as [s|] eqn:Hs; [|done]. eauto.
    + by intros (l & s & -> & -> & Ha).
  - destruct (consistent_run_calls E this calls w0) as (s & Hs & Hcons);
      [by exists created | done |].
    fold w in Hs. unfold consistent in Hcons. intros E'.
    destruct (connection s) as [c|] eqn:Hc.
    + rewrite (commit_active _ _ _ _ _ Hs Hc Hcons), (rollback_held _ _ _ _ _ Hs Hc).
      unfold hasActiveTransaction. cbn [snd transactionInstance sessions].
      by rewrite Hreg, lookup_insert_eq.
    + rewrite (commit_idle _ _ _ _ Hs Hc), (rollback_idle _ _ _ _ Hs Hc).
      unfold hasActiveTransaction. cbn [snd]. by rewrite Hreg, Hs, Hcons.
Qed.

(** The theorem on a session that was registered, initialised and used,
    when its commit is rejected. *)
Lemma registry_reports_active_session_witness :
  let E := fail_from 4 in
  let w := run_calls E 0 [CallInit JUndefined; CallExecute (JStr "SELECT 1") []]
             (snd (setInstance 0 (snd (new_session initial)))) in
  hasActiveTransaction w = true /\
  hasActiveTransaction (snd (commit E 0 w)) = false /\
  hasActiveTransaction (snd (rollback E 0 w)) = false.
Proof.
  intros E w.
  destruct (registry_reports_active_session E 0
              [CallInit JUndefined; CallExecute (JStr "SELECT 1") []]
              (snd (setInstance 0 (snd (new_session initial)))))
    as [_ Hafter]; [vm_compute; reflexivity | vm_compute; reflexivity
                   | vm_compute; reflexivity |].
  split; [vm_compute; reflexivity | exact (Hafter E)].
Defined.

(** C9 as stated fails after an [init] on a session that is active
    already: when [getPool] is rejected there, the connection is released
    and the flag stays set.  A [rollback] of that session returns without
    doing anything and a [commit] raises, and the session, left
    registered, is still reported active, although it holds no
    connection. *)
Lemma rolled_back_session_reported_active :
  let E := fail_from 3 in
  let w := run_calls E 0 [CallInit JUndefined; CallInit JUndefined]
             (snd (setInstance 0 (snd (new_session initial)))) in
  held w 0 = None /\
  fst (rollback E 0 w) = Ok tt /\
  hasActiveTransaction (snd (rollback E 0 w)) = true /\
  fst (commit E 0 w) = Throw (Error "No active transaction to commit") /\
  hasActiveTransaction (snd (commit E 0 w)) = true.
Proof. vm_compute. repeat split. Qed.

End TransactionFacts.

(** ** More about the condition compiler *)

Module CompilerFacts.
Import Js Crud CrudMore JsFacts CrudFacts.

Lemma count_placeholders_marks {A} (l : list A) :
  count_placeholders (join ", " (map (fun _ => "?") l)) = List.length l.
Proof.
  induction l as [|x l IH]; [done|].
  destruct l as [|y l]; [done|].
  change (join ", " (map (fun _ => "?") (x :: y :: l)))
    with ("?" +:+ ", " +:+ join ", " (map (fun _ => "?") (y :: l))).
  rewrite !count_placeholders_app, IH. done.
Qed.

Ltac operand_cases :=
  cbv [bind push ret lift throw];
  repeat match goal with
         | |- context [get_length ?v] => destruct (get_length v) as [?|?]; cbv beta iota
         | |- context [if negb ?b then _ else _] => destruct b; cbv [negb]; cbv beta iota
         | |- context [spread ?v] => destruct (spread v) as [?|?] eqn:?; cbv beta iota
         | |- context [map_placeholders ?v] =>
             destruct (map_placeholders v) as [?|?] eqn:?; cbv beta iota
         | |- context [get_index ?v ?i] => destruct (get_index v i) as [?|?]; cbv beta iota
         end.

(** Each operator writes as many placeholders as it pushes operands. *)
Lemma buildOperator_count column op val s new :
  count_placeholders column = 0 ->
  buildOperator column op val [] = Ok (s, new) ->
  count_placeholders s = List.length new.
Proof.
  intros Hc. unfold buildOperator.
  assert (forall sql, count_placeholders (column +:+ sql) = count_placeholders sql) as Happ.
  { intros sql. rewrite count_placeholders_app. lia. }
  assert (forall kw, count_placeholders kw = 0 ->
            bind (lift (get_length val)) (fun len =>
              if negb (truthy len) then ret kw
              else bind (lift (spread val)) (fun vs =>
                   bind (push vs) (fun _ =>
                   bind (lift (map_placeholders val)) (fun qs =>
                   ret (column +:+ " IN (" +:+ join ", " qs +:+ ")"))))) [] = Ok (s, new) ->
            count_placeholders s = List.length new) as Hin.
  { intros kw Hkw. operand_cases; try done.
    - destruct val; try done. simpl in *. simplify_eq. intros [= <- <-].
      rewrite Happ, !count_placeholders_app, count_placeholders_marks. simpl. lia.
    - intros [= <- <-]. done. }
  assert (forall kw, count_placeholders kw = 0 ->
            bind (lift (get_length val)) (fun len =>
              if negb (truthy len) then ret kw
              else bind (lift (spread val)) (fun vs =>
                   bind (push vs) (fun _ =>
                   bind (lift (map_placeholders val)) (fun qs =>
                   ret (column +:+ " NOT IN (" +:+ join ", " qs +:+ ")"))))) [] = Ok (s, new) ->
            count_placeholders s = List.length new) as Hnin.
  { intros kw Hkw. operand_cases; try done.
    - destruct val; try done. simpl in *. simplify_eq. intros [= <- <-].
      rewrite Happ, !count_placeholders_app, count_placeholders_marks. simpl. lia.
    - intros [= <- <-]. done. }
  destruct (String.eqb op "$eq"); [intros [= <- <-]; by rewrite Happ|].
  destruct (String.eqb op "$ne"); [intros [= <- <-]; by rewrite Happ|].
  destruct (String.eqb op "$gt"); [intros [= <- <-]; by rewrite Happ|].
  destruct (String.eqb op "$gte"); [intros [= <- <-]; by rewrite Happ|].
  destruct (String.eqb op "$lt"); [intros [= <- <-]; by rewrite Happ|].
  destruct (String.eqb op "$lte"); [intros [= <- <-]; by rewrite Happ|].
  destruct (String.eqb op "$in"); [by apply Hin|].
  destruct (String.eqb op "$notIn" || String.eqb op "$nIn" || String.eqb op "$nin");
    [by apply Hnin|].
  destruct (String.eqb op "$like"); [intros [= <- <-]; by rewrite Happ|].
  destruct (String.eqb op "$between"); [|done].
  operand_cases; try done. intros [= <- <-]. by rewrite Happ.
Qed.

Lemma leaf_count l :
  column_plain l = true ->
  count_placeholders (leaf_text l) = List.length (leaf_params l).
Proof.
  unfold column_plain. intros Hc. apply Nat.eqb_eq in Hc.
  destruct l as [c | c v | c op v]; simpl in *.
  - rewrite count_placeholders_app, Hc. done.
  - rewrite count_placeholders_app, Hc. done.
  - destruct (buildOperator c op v []) as [[s new]|e] eqn:Hop; [|done].
    by eapply buildOperator_count.
Qed.

(** A compiled tree with no [?] in the column names the compiler reads
    has as many placeholders as parameters. *)
Lemma compiled_placeholders cond c :
  _buildWhereClause cond = Ok c ->
  forallb column_plain (leaves cond) = true ->
  count_placeholders (clause c) = List.length (params c).
Proof.
  intros Hrun Hplain.
  destruct (buildWhereClause_writes _ _ Hrun) as [-> Htext].
  rewrite (interleaved_count _ _ Htext). clear Hrun Htext.
  induction (leaves cond) as [|l ls IH]; [done|].
  simpl in *. apply andb_prop in Hplain as [Hl Hls].
  rewrite length_app, leaf_count, IH by done. done.
Qed.

(** X1.  Whatever the operators ([$in], [$nin] and [$between] included),
    a tree that compiles and has no [?] inside a column name gets a clause
    with exactly as many placeholders as parameters. *)
Theorem where_placeholders_match_params (cond : jsval) (c : compiled) :
  _buildWhereClause cond = Ok c ->
  forallb column_plain (leaves cond) = true ->
  count_placeholders (clause c) = List.length (params c).
Proof.
  intros Hrun Hplain.
  destruct (buildWhereClause_writes _ _ Hrun) as [-> Htext].
  rewrite (interleaved_count _ _ Htext). clear Hrun Htext.
  induction (leaves cond) as [|l ls IH]; [done|].
  simpl in *. apply andb_prop in Hplain as [Hl Hls].
  rewrite length_app, leaf_count, IH by done. done.
Qed.

(** The theorem at [{id: {$in: [1, 2, 3]}, price: {$between: [10, 100]}}]. *)
Lemma where_placeholders_match_params_witness :
  count_placeholders "id IN (?, ?, ?) AND price BETWEEN ? AND ?" = 5.
Proof.
  exact (where_placeholders_match_params
           (JObj [("id", JObj [("$in", JArr [JNum 1; JNum 2; JNum 3])]);
                  ("price", JObj [("$between", JArr [JNum 10; JNum 100])])])
           {| clause := "id IN (?, ?, ?) AND price BETWEEN ? AND ?";
              params := [JNum 1; JNum 2; JNum 3; JNum 10; JNum 100] |}
           eq_refl eq_refl).
Defined.

(** *** Operators the compiler does not know *)

Lemma buildOperator_recognized column op val ps r :
  buildOperator column op val ps = Ok r ->
  leaf_recognized (LeafOp column op val) = true.
Proof.
  unfold buildOperator, leaf_recognized, recognized_operators,
    comparison_operators, list_operators.
  cbn [existsb app].
  destruct (String.eqb op "$eq"); [done|].
  destruct (String.eqb op "$ne"); [done|].
  destruct (String.eqb op "$gt"); [done|].
  destruct (String.eqb op "$gte"); [done|].
  destruct (String.eqb op "$lt"); [done|].
  destruct (String.eqb op "$lte"); [done|].
  destruct (String.eqb op "$in"); [intros _; simpl; by rewrite ?orb_true_r|].
  destruct (String.eqb op "$notIn"); [intros _; simpl; by rewrite ?orb_true_r|].
  destruct (String.eqb op "$nIn"); [intros _; simpl; by rewrite ?orb_true_r|].
  destruct (String.eqb op "$nin"); [intros _; simpl; by rewrite ?orb_true_r|].
  destruct (String.eqb op "$like"); [intros _; simpl; by rewrite ?orb_true_r|].
  destruct (String.eqb op "$between"); [intros _; simpl; by rewrite ?orb_true_r|].
  done.
Qed.

Lemma mapB_all {A} (f : A -> Builder string) (g : A -> list leaf) (P : leaf -> Prop) l :
  Forall (fun x => forall ps c ps', f x ps = Ok (c, ps') -> Forall P (g x)) l ->
  forall ps parts ps', mapB f l ps = Ok (parts, ps') -> Forall P (flat_map g l).
Proof.
  induction 1 as [|x l Hx Hl IH]; intros ps parts ps' Hrun; [done|].
  change (mapB f (x :: l)) with
    (bind (f x) (fun y => bind (mapB f l) (fun ys => ret (y :: ys)))) in Hrun.
  apply bind_ok in Hrun as (y & ps1 & Hy & Hrun).
  apply bind_ok in Hrun as (ys & ps2 & Hys & Hrun).
  simpl. apply Forall_app. split; [by eapply Hx | by eapply IH].
Qed.

Lemma buildCondition_recognized key value ps c ps' :
  buildCondition key value ps = Ok (c, ps') ->
  Forall (fun l => leaf_recognized l = true) (field_leaves (key, value)).
Proof.
  destruct value as [ | | b | n | s | l | ops]; try (intros _; by repeat constructor).
  change (buildCondition key (JObj ops)) with
    (bind (mapB (fun '(op, val) => buildOperator key op val) ops)
          (fun frags => ret (join " AND " frags))).
  intros Hrun. apply bind_ok in Hrun as (frags & ps1 & Hrun & _).
  assert (field_leaves (key, JObj ops)
          = flat_map (fun '(op, x) => [LeafOp key op x]) ops) as ->.
  { clear. simpl. induction ops as [|[op x] ops IH]; simpl; [done | by rewrite IH]. }
  eapply mapB_all; [|exact Hrun].
  apply Forall_forall. intros [op x] _ qs s qs' Hop.
  constructor; [|done]. by eapply buildOperator_recognized.
Qed.

Lemma walk_recognized cond :
  (forall ps c ps', walk cond ps = Ok (c, ps') ->
     Forall (fun l => leaf_recognized l = true) (leaves cond)) /\
  (forall conds, cond = JArr conds ->
     Forall (fun t => forall ps c ps', walk t ps = Ok (c, ps') ->
               Forall (fun l => leaf_recognized l = true) (leaves t)) conds).
Proof.
  induction cond as [ | | b | n | s | conds IH | props IH] using jsval_nested_ind;
    try (split; [|done]; intros; simpl; done).
  - assert (Forall (fun t => forall ps c ps', walk t ps = Ok (c, ps') ->
               Forall (fun l => leaf_recognized l = true) (leaves t)) conds) as Hall.
    { eapply Forall_impl; [exact IH|]. by intros t [Ht _]. }
    split; [|by intros ? [= <-]].
    rewrite walk_arr. intros ps c ps' Hrun.
    apply bind_ok in Hrun as (parts & ps1 & Hrun & _).
    by eapply (mapB_all walk leaves).
  - split; [|done].
    assert (forall k v sep, lookup_prop k props = Some v ->
              forall ps c ps',
                match v with
                | JArr conds =>
                    bind (mapB walk conds)
                         (fun parts => ret ("(" +:+ join sep parts +:+ ")"))
                | _ => throw TypeError
                end ps = Ok (c, ps') ->
                Forall (fun l => leaf_recognized l = true)
                  (match v with JArr conds => flat_map leaves conds | _ => [] end))
      as Hlist.
    { intros k v sep Hk ps c ps' Hrun. apply lookup_prop_elem in Hk.
      rewrite Forall_forall in IH. destruct (IH _ Hk) as [_ Hv].
      destruct v; try done.
      apply bind_ok in Hrun as (parts & ps1 & Hrun & _).
      eapply (mapB_all walk leaves); [by apply Hv | exact Hrun]. }
    rewrite walk_obj, leaves_obj. cbv zeta. rewrite !with_prop_lookup.
    destruct (lookup_prop "$and" props) as [v|] eqn:Hand; simpl.
    { by eapply Hlist. }
    destruct (lookup_prop "$or" props) as [v|] eqn:Hor; simpl.
    { by eapply Hlist. }
    destruct (lookup_prop "$not" props) as [v|] eqn:Hnot; simpl.
    { apply lookup_prop_elem in Hnot. rewrite Forall_forall in IH.
      destruct (IH _ Hnot) as [Hv _]. intros ps c ps' Hrun.
      apply bind_ok in Hrun as (s & ps1 & Hs & _). by eapply Hv. }
    intros ps c ps' Hrun. apply bind_ok in Hrun as (frags & ps1 & Hrun & _).
    eapply (mapB_all (fun '(k, v) => buildCondition k v) field_leaves); [|exact Hrun].
    apply Forall_forall. intros [k v] _ qs s qs'. apply buildCondition_recognized.
Qed.

(** An object with a combinator key compiles as that key alone. *)
Lemma walk_first_combinator props k v :
  first_combinator props = Some (k, v) -> walk (JObj props) = walk (JObj [(k, v)]).
Proof.
  unfold first_combinator. rewrite !walk_obj. cbv zeta. rewrite !with_prop_lookup.
  destruct (lookup_prop "$and" props) as [v1|]; [by intros [= <- <-]|].
  destruct (lookup_prop "$or" props) as [v2|]; [by intros [= <- <-]|].
  destruct (lookup_prop "$not" props) as [v3|]; [by intros [= <- <-] | done].
Qed.

(** X2.  The compiler throws on an unknown operator only where it reads.
    A tree compiles only if every operator of every leaf the compiler
    reads is one of the twelve it has a case for; in a tree whose
    combinator keys stand alone these are all the leaves, so there one
    unknown operator anywhere makes the compilation throw.  An object
    that has a [$and], [$or] or [$not] key is read as that combinator
    alone ([$and] before [$or] before [$not]): it compiles to what the
    object with that one key compiles to, its other keys are left out of
    the clause, and an unknown operator among them does not throw. *)
Theorem where_rejects_unknown_operators (cond : jsval) :
  (forall c, _buildWhereClause cond = Ok c ->
     forallb leaf_recognized (leaves cond) = true /\
     (combinators_alone cond = true ->
      forallb leaf_recognized (tree_leaves cond) = true)) /\
  (forall props k v, cond = JObj props -> first_combinator props = Some (k, v) ->
     _buildWhereClause cond = _buildWhereClause (JObj [(k, v)])).
Proof.
  split.
  - intros c. unfold _buildWhereClause.
    destruct (walk cond []) as [[text ps]|e] eqn:Hwalk; [|done]. intros _.
    assert (forallb leaf_recognized (leaves cond) = true) as Hread.
    { destruct (walk_recognized cond) as [Hw _].
      apply forallb_forall. intros l Hl.
      specialize (Hw _ _ _ Hwalk). rewrite Forall_forall in Hw.
      apply Hw. by apply list_elem_of_In. }
    split; [exact Hread|]. intros Halone. by rewrite (tree_leaves_alone _ Halone).
  - intros props k v -> Hfirst. unfold _buildWhereClause.
    by rewrite (walk_first_combinator _ _ _ Hfirst).
Qed.

(** The theorem at [{a: {$regex: 'x'}, $or: [{b: 1}]}]: the condition on
    [a] is dropped, unknown operator and all. *)
Lemma where_rejects_unknown_operators_witness :
  let cond := JObj [("a", JObj [("$regex", JStr "x")]);
                    ("$or", JArr [JObj [("b", JNum 1)]])] in
  _buildWhereClause cond = Ok {| clause := "(b = ?)"; params := [JNum 1] |} /\
  forallb leaf_recognized (leaves cond) = true /\
  forallb leaf_recognized (tree_leaves cond) = false.
Proof.
  intros cond.
  destruct (where_rejects_unknown_operators cond) as [Hread Hfirst].
  rewrite (Hfirst _ "$or" (JArr [JObj [("b", JNum 1)]]) eq_refl eq_refl).
  split; [reflexivity|]. split; [|reflexivity].
  exact (proj1 (Hread {| clause := "(b = ?)"; params := [JNum 1] |} eq_refl)).
Defined.

(** The tree of the README's "complex nested conditions",
    [{status: 'pending', $or: [{total: {$gte: 1000}},
      {$and: [{priority: 'high'}, {customer_type: 'vip'}]}]}]: it has four
    comparison leaves and compiles to three placeholders, the condition
    on [status] left out. *)
Lemma readme_tree_loses_a_condition :
  let cond :=
    JObj [("status", JStr "pending");
          ("$or", JArr [JObj [("total", JObj [("$gte", JNum 1000)])];
                        JObj [("$and", JArr [JObj [("priority", JStr "high")];
                                             JObj [("customer_type", JStr "vip")]])]])] in
  _buildWhereClause cond
  = Ok {| clause := "(total >= ? OR (priority = ? AND customer_type = ?))";
          params := [JNum 1000; JStr "high"; JStr "vip"] |} /\
  List.length (comparison_leaves cond) = 4 /\
  combinators_alone cond = false.
Proof. repeat split. Qed.

(** *** Compiling a tree from its sub-trees *)

Lemma mapB_framed {A B} (f : A -> Builder B) l :
  Forall (fun x => framed (f x)) l -> framed (mapB f l).
Proof.
  induction 1 as [|x l Hx Hl IH]; [apply framed_ret|].
  change (mapB f (x :: l)) with
    (bind (f x) (fun y => bind (mapB f l) (fun ys => ret (y :: ys)))).
  apply framed_bind; [done|]. intros y.
  apply framed_bind; [done|]. intros ys. apply framed_ret.
Qed.

Lemma buildCondition_framed key value : framed (buildCondition key value).
Proof.
  destruct value as [ | | b | n | s | l | ops].
  7: { change (buildCondition key (JObj ops)) with
         (bind (mapB (fun '(op, val) => buildOperator key op val) ops)
               (fun frags => ret (join " AND " frags))).
       apply framed_bind; [|intros; apply framed_ret].
       apply mapB_framed. apply Forall_forall. intros [op x] _.
       apply buildOperator_framed. }
  all: unfold buildCondition; simpl; solve_framed.
Qed.

Lemma walk_framed cond :
  framed (walk cond) /\
  (forall conds, cond = JArr conds -> Forall (fun t => framed (walk t)) conds).
Proof.
  induction cond as [ | | b | n | s | conds IH | props IH] using jsval_nested_ind;
    try (split; [apply framed_ret | done]).
  - assert (Forall (fun t => framed (walk t)) conds) as Hall.
    { eapply Forall_impl; [exact IH|]. by intros t [Ht _]. }
    split; [|by intros ? [= <-]].
    rewrite walk_arr. apply framed_bind; [by apply mapB_framed|].
    intros. apply framed_ret.
  - split; [|done].
    assert (forall k v sep, lookup_prop k props = Some v ->
              framed (match v with
                      | JArr conds =>
                          bind (mapB walk conds)
                               (fun parts => ret ("(" +:+ join sep parts +:+ ")"))
                      | _ => throw TypeError
                      end)) as Hlist.
    { intros k v sep Hk. apply lookup_prop_elem in Hk.
      rewrite Forall_forall in IH. destruct (IH _ Hk) as [_ Hv].
      destruct v; try apply framed_throw.
      apply framed_bind; [apply mapB_framed; by apply Hv|].
      intros. apply framed_ret. }
    rewrite walk_obj. cbv zeta. rewrite !with_prop_lookup.
    destruct (lookup_prop "$and" props) as [v|] eqn:Hand; simpl.
    { by eapply Hlist. }
    destruct (lookup_prop "$or" props) as [v|] eqn:Hor; simpl.
    { by eapply Hlist. }
    destruct (lookup_prop "$not" props) as [v|] eqn:Hnot; simpl.
    { apply lookup_prop_elem in Hnot. rewrite Forall_forall in IH.
      destruct (IH _ Hnot) as [Hv _].
      apply framed_bind; [done|]. intros. apply framed_ret. }
    apply framed_bind; [|intros; apply framed_ret].
    apply mapB_framed. apply Forall_forall. intros [k v] _.
    apply buildCondition_framed.
Qed.

Lemma walk_from_empty cond c ps :
  _buildWhereClause cond = Ok c ->
  walk cond ps = Ok (clause c, ps ++ params c).
Proof.
  unfold _buildWhereClause. destruct (walk_framed cond) as [Hf _].
  rewrite (Hf ps). destruct (walk cond []) as [[text qs]|e]; [|done].
  by intros [= <-].
Qed.

Lemma mapB_walk_compiled conds cs ps :
  Forall2 (fun t c => _buildWhereClause t = Ok c) conds cs ->
  mapB walk conds ps = Ok (map clause cs, ps ++ concat (map params cs)).
Proof.
  intros H. revert ps. induction H as [|t c conds cs Ht Hrest IH]; intros ps.
  - simpl. by rewrite app_nil_r.
  - change (mapB walk (t :: conds)) with
      (bind (walk t) (fun y => bind (mapB walk conds) (fun ys => ret (y :: ys)))).
    unfold bind. rewrite (walk_from_empty _ _ _ Ht), IH. simpl.
    by rewrite app_assoc.
Qed.

(** X3.  Compilation is compositional.  When the trees [conds] compile
    one by one, the array of them compiles to their clauses joined by
    [AND] and their parameter lists concatenated in order; wrapped in
    [$and] or [$or] the same inside parentheses, with [AND] or [OR]; and
    [$not] of a tree that compiles is its clause inside [(NOT ...)] with
    its parameters unchanged. *)
Theorem where_composes (conds : list jsval) (cs : list compiled) :
  Forall2 (fun t c => _buildWhereClause t = Ok c) conds cs ->
  _buildWhereClause (JArr conds)
  = Ok {| clause := join " AND " (map clause cs);
          params := concat (map params cs) |} /\
  _buildWhereClause (JObj [("$and", JArr conds)])
  = Ok {| clause := "(" +:+ join " AND " (map clause cs) +:+ ")";
          params := concat (map params cs) |} /\
  _buildWhereClause (JObj [("$or", JArr conds)])
  = Ok {| clause := "(" +:+ join " OR " (map clause cs) +:+ ")";
          params := concat (map params cs) |} /\
  Forall2 (fun t c =>
             _buildWhereClause (JObj [("$not", t)])
             = Ok {| clause := "(NOT " +:+ clause c +:+ ")"; params := params c |})
          conds cs.
Proof.
  intros H. pose proof (mapB_walk_compiled _ _ [] H) as Hmap.
  split_and!.
  - unfold _buildWhereClause. rewrite walk_arr. unfold bind. by rewrite Hmap.
  - unfold _buildWhereClause.
    change (walk (JObj [("$and", JArr conds)]))
      with (bind (mapB walk conds)
                 (fun parts => ret ("(" +:+ join " AND " parts +:+ ")"))).
    unfold bind. by rewrite Hmap.
  - unfold _buildWhereClause.
    change (walk (JObj [("$or", JArr conds)]))
      with (bind (mapB walk conds)
                 (fun parts => ret ("(" +:+ join " OR " parts +:+ ")"))).
    unfold bind. by rewrite Hmap.
  - eapply Forall2_impl; [exact H|]. intros t c Ht. simpl in Ht.
    unfold _buildWhereClause.
    change (walk (JObj [("$not", t)]))
      with (bind (walk t) (fun s => ret ("(NOT " +:+ s +:+ ")"))).
    unfold bind. by rewrite (walk_from_empty _ _ _ Ht).
Qed.

(** The theorem at the trees [{a: 1}] and [{b: {$in: [2, 3]}}]. *)
Lemma where_composes_witness :
  _buildWhereClause (JObj [("$or", JArr [JObj [("a", JNum 1)];
                                         JObj [("b", JObj [("$in", JArr [JNum 2; JNum 3])])]])])
  = Ok {| clause := "(a = ? OR b IN (?, ?))"; params := [JNum 1; JNum 2; JNum 3] |}.
Proof.
  destruct (where_composes
              [JObj [("a", JNum 1)]; JObj [("b", JObj [("$in", JArr [JNum 2; JNum 3])])]]
              [{| clause := "a = ?"; params := [JNum 1] |};
               {| clause := "b IN (?, ?)"; params := [JNum 2; JNum 3] |}])
    as (_ & _ & Hor & _).
  - repeat constructor.
  - exact Hor.
Defined.

End CompilerFacts.

(** ** More about the update and delete builders *)

Module BuilderFacts.
Import Js Crud CrudMore JsFacts CrudFacts CompilerFacts.

Lemma count_placeholders_join sep parts :
  count_placeholders sep = 0 ->
  count_placeholders (join sep parts) = list_sum (map count_placeholders parts).
Proof.
  intros Hsep. induction parts as [|x parts IH]; [done|].
  destruct parts as [|y parts]; [simpl; lia|].
  change (join sep (x :: y :: parts)) with (x +:+ sep +:+ join sep (y :: parts)).
  rewrite !count_placeholders_app, IH, Hsep. simpl. lia.
Qed.

Lemma prepare_entries_cons kv es :
  prepare_entries (kv :: es) =
  {| setFields := setFields (prepare_entries [kv]) ++ setFields (prepare_entries es);
     setParams := setParams (prepare_entries [kv]) ++ setParams (prepare_entries es) |}.
Proof. apply (prepare_entries_app [kv] es). Qed.

Lemma prepare_entries_count es :
  forallb entry_plain es = true ->
  list_sum (map count_placeholders (setFields (prepare_entries es)))
  = List.length (setParams (prepare_entries es)).
Proof.
  induction es as [|[k v] es IH]; [done|].
  intros H. simpl in H. apply andb_prop in H as [Hkv Hes].
  rewrite prepare_entries_cons. cbn [setFields setParams].
  rewrite map_app, list_sum_app, length_app, IH by done. f_equal.
  unfold prepare_entries. cbn [fold_left]. unfold prepare_step.
  fold (is_raw v).
  destruct (is_undefined v); [done|]. simpl in Hkv.
  apply andb_prop in Hkv as [Hk Hraw]. apply Nat.eqb_eq in Hk.
  destruct (is_raw v).
  - apply Nat.eqb_eq in Hraw. simpl. rewrite !count_placeholders_app, Hk, Hraw. done.
  - destruct (is_null v); simpl; rewrite !count_placeholders_app, Hk; done.
Qed.

(** X4.  An update whose [where] compiles to the empty clause (as [{}] or
    [[]] do) is built without any WHERE: the statement is the one for an
    absent [where], it updates every row, and it carries the SET
    parameters only. *)
Theorem update_with_empty_condition_is_unconditional (options : UpdateOptions)
    (p : prepared) (ps : list jsval) :
  prepareUpdateParams (u_data options) = Ok p ->
  setFields p <> [] ->
  _buildWhereClause (u_where options) = Ok {| clause := ""; params := ps |} ->
  _buildUpdateQuery options
  = Ok {| query := "UPDATE " +:+ to_string (u_table options) +:+ " SET "
                   +:+ join ", " (setFields p);
          allParams := setParams p |} /\
  _buildUpdateQuery options
  = _buildUpdateQuery {| u_table := u_table options; u_data := u_data options;
                         u_where := JUndefined |}.
Proof.
  intros Hp Hne Hc. unfold _buildUpdateQuery. cbn [u_table u_data u_where].
  rewrite Hp. simpl.
  destruct (Nat.eqb_spec (List.length (setFields p)) 0) as [H0|_].
  { destruct (setFields p); [done | discriminate]. }
  destruct (truthy (u_where options)); [|done].
  unfold append_where. rewrite Hc. done.
Qed.

(** The theorem at [{table: 'users', data: {active: 0}, where: {}}]. *)
Lemma update_with_empty_condition_is_unconditional_witness :
  _buildUpdateQuery {| u_table := JStr "users"; u_data := JObj [("active", JNum 0)];
                       u_where := JObj [] |}
  = Ok {| query := "UPDATE users SET active = ?"; allParams := [JNum 0] |}.
Proof.
  destruct (update_with_empty_condition_is_unconditional
              {| u_table := JStr "users"; u_data := JObj [("active", JNum 0)];
                 u_where := JObj [] |}
              {| setFields := ["active = ?"]; setParams := [JNum 0] |} [])
    as [H _]; [reflexivity | discriminate | reflexivity | exact H].
Defined.

(** X5.  In a built update the parameters of the SET list come first and
    those of the WHERE clause after them, as the text has them; and when
    the table, the keys and raw texts of [data] and the column names of
    [where] contain no [?], the statement has exactly as many placeholders
    as parameters. *)
Theorem update_parameters_follow_the_text (options : UpdateOptions) (st : statement) :
  _buildUpdateQuery options = Ok st ->
  update_plain options = true ->
  (exists p, prepareUpdateParams (u_data options) = Ok p /\
     let head := "UPDATE " +:+ to_string (u_table options) +:+ " SET "
                 +:+ join ", " (setFields p) in
     (st = {| query := head; allParams := setParams p |} \/
      exists c, _buildWhereClause (u_where options) = Ok c /\
                st = {| query := head +:+ " WHERE " +:+ clause c;
                        allParams := setParams p ++ params c |})) /\
  count_placeholders (query st) = List.length (allParams st).
Proof.
  unfold _buildUpdateQuery, update_plain. intros Hst Hplain.
  apply andb_prop in Hplain as [Hplain Hcols].
  apply andb_prop in Hplain as [Htab Hes]. apply Nat.eqb_eq in Htab.
  destruct (prepareUpdateParams (u_data options)) as [p|e] eqn:Hp; [|done].
  simpl in Hst.
  destruct (List.length (setFields p) =? 0)%nat; [done|].
  assert (count_placeholders
            ("UPDATE " +:+ to_string (u_table options) +:+ " SET "
             +:+ join ", " (setFields p)) = List.length (setParams p)) as Hhead.
  { rewrite !count_placeholders_app, Htab, count_placeholders_join by done.
    unfold prepareUpdateParams in Hp.
    destruct (entries (u_data options)) as [es|e]; [|done].
    injection Hp as <-. simpl. by apply prepare_entries_count. }
  destruct (truthy (u_where options)).
  - unfold append_where in Hst.
    destruct (_buildWhereClause (u_where options)) as [c|e] eqn:Hc; [|done].
    simpl in Hst. destruct (negb (clause c =? "")%string); injection Hst as <-.
    + split; [exists p; split; [done|]; right; by exists c|].
      cbn [query allParams].
      rewrite length_app, <- Hhead, <- (compiled_placeholders _ _ Hc Hcols).
      rewrite (count_placeholders_app _ (" WHERE " +:+ clause c)).
      rewrite (count_placeholders_app " WHERE "). done.
    + split; [exists p; split; [done|]; by left|]. exact Hhead.
  - injection Hst as <-.
    split; [exists p; split; [done|]; by left|]. exact Hhead.
Qed.

(** The theorem at an update with a raw expression, a [null] and a bound
    value, under a two-leaf condition. *)
Lemma update_parameters_follow_the_text_witness :
  count_placeholders
    "UPDATE products SET stock = stock - 1, note = NULL, price = ? WHERE id = ? AND shop IN (?, ?)"
  = 4.
Proof.
  destruct (update_parameters_follow_the_text
              {| u_table := JStr "products";
                 u_data := JObj [("stock", JObj [("__raw", JBool true);
                                                 ("value", JStr "stock - 1")]);
                                 ("note", JNull); ("price", JNum 5)];
                 u_where := JObj [("id", JNum 7);
                                  ("shop", JObj [("$in", JArr [JNum 1; JNum 2])])] |}
              {| query := "UPDATE products SET stock = stock - 1, note = NULL, price = ? WHERE id = ? AND shop IN (?, ?)";
                 allParams := [JNum 5; JNum 7; JNum 1; JNum 2] |})
    as [_ H]; [reflexivity | reflexivity | exact H].
Defined.

(** X6.  A built delete carries exactly the parameters of its compiled
    [where], behind [DELETE FROM table WHERE]; when the table and the
    column names contain no [?], the statement has exactly as many
    placeholders as parameters. *)
Theorem delete_parameters_follow_the_text (options : DeleteOptions) (st : statement) :
  _buildDeleteQuery options = Ok st ->
  delete_plain options = true ->
  (exists c, _buildWhereClause (d_where options) = Ok c /\
     st = {| query := "DELETE FROM " +:+ to_string (d_table options)
                      +:+ " WHERE " +:+ clause c;
             allParams := params c |}) /\
  count_placeholders (query st) = List.length (allParams st).
Proof.
  unfold _buildDeleteQuery, delete_plain. intros Hst Hplain.
  apply andb_prop in Hplain as [Htab Hcols]. apply Nat.eqb_eq in Htab.
  destruct (truthy (d_table options)); [|done]. simpl in Hst.
  destruct (truthy (d_where options)); [|done].
  unfold append_where in Hst.
  destruct (_buildWhereClause (d_where options)) as [c|e] eqn:Hc; [|done].
  simpl in Hst. destruct (negb (clause c =? "")%string); [|done].
  injection Hst as <-. split.
  - exists c. split; [done|]. cbn [query allParams]. by rewrite append_assoc.
  - cbn [query allParams].
    rewrite !count_placeholders_app, Htab.
    rewrite (compiled_placeholders _ _ Hc Hcols). done.
Qed.

(** The theorem at [{table: 'logs', where: {level: {$in: ['debug', 'trace']}}}]. *)
Lemma delete_parameters_follow_the_text_witness :
  count_placeholders "DELETE FROM logs WHERE level IN (?, ?)" = 2.
Proof.
  destruct (delete_parameters_follow_the_text
              {| d_table := JStr "logs";
                 d_where := JObj [("level", JObj [("$in", JArr [JStr "debug"; JStr "trace"])])] |}
              {| query := "DELETE FROM logs WHERE level IN (?, ?)";
                 allParams := [JStr "debug"; JStr "trace"] |})
    as [_ H]; [reflexivity | reflexivity | exact H].
Defined.

End BuilderFacts.

(** ** The select builder *)

Module SelectFacts.
Import Js Crud CrudMore Runtime CrudApi CrudSelect JsFacts CrudFacts CompilerFacts
  BuilderFacts CrudApiFacts.

(** X7.  A built select carries the parameters of its compiled [where]
    and no others, whatever its fields, table, joins, GROUP BY, HAVING,
    ORDER BY, LIMIT and OFFSET are: they are written into the text, never
    bound, and the same options without the [where] build a statement
    with no parameter at all.  When that statement has no [?] and no
    column name of [where] has one, the statement has exactly as many
    placeholders as parameters. *)
Theorem select_binds_only_the_condition (S : strings) (options : SelectOptions)
    (st : statement) :
  _buildSelectQuery S options = Ok st ->
  allParams st =
    (if truthy (s_where options) then
       match _buildWhereClause (s_where options) with
       | Ok c => if String.eqb (clause c) "" then [] else params c
       | Throw _ => []
       end
     else []) /\
  exists bare,
    _buildSelectQuery S (set_where options JUndefined) = Ok bare /\
    allParams bare = [] /\
    (count_placeholders (query bare) = 0 ->
     forallb column_plain (leaves (s_where options)) = true ->
     count_placeholders (query st) = List.length (allParams st)).
Proof.
  unfold _buildSelectQuery. cbn [s_table s_fields s_joins s_where s_orderBy s_limit
    s_offset s_groupBy s_having s_alias s_forUpdate set_where].
  destruct (select_fields S (s_fields options)) as [fields|e]; cbn [rbind]; [|done].
  destruct (join_list (s_joins options)) as [js|e]; cbn [rbind]; [|done].
  destruct (joins_text S js) as [joined|e]; cbn [rbind]; [|done].
  cbn [rbind truthy].
  generalize ("SELECT " +:+ fields +:+ " FROM " +:+ to_string (s_table options)
               +:+ alias_text (s_alias options) +:+ joined).
  generalize (optional_clause " GROUP BY " (s_groupBy options)
               +:+ optional_clause " HAVING " (s_having options)
               +:+ optional_clause " ORDER BY " (s_orderBy options)
               +:+ limit_text (s_limit options) (s_offset options)
               +:+ (if truthy (s_forUpdate options) then " FOR UPDATE" else "")).
  intros tail head Hst. cbn [query allParams].
  destruct (truthy (s_where options)).
  2: { cbn [rbind query allParams] in Hst. injection Hst as <-.
       cbn [query allParams]. split; [done|]. eexists. split; [reflexivity|].
       cbn [query allParams]. split; [done|]. intros -> _. done. }
  unfold append_where in Hst.
  destruct (_buildWhereClause (s_where options)) as [c|e] eqn:Hc; [|done].
  cbn [rbind truthy] in Hst.
  destruct (String.eqb_spec (clause c) "") as [Hempty|Hfull];
    cbn [negb default rbind query allParams] in Hst; injection Hst as <-;
    cbn [query allParams]; (split; [done|]); eexists; (split; [reflexivity|]);
    cbn [query allParams]; (split; [done|]); intros Hq Hcols.
  - by rewrite Hq.
  - rewrite count_placeholders_app in Hq.
    rewrite !count_placeholders_app.
    rewrite (compiled_placeholders _ _ Hc Hcols). simpl. lia.
Qed.

(** The theorem at a select with a join, a two-leaf condition, paging and
    a row lock. *)
Lemma select_binds_only_the_condition_witness :
  let options :=
    {| s_table := JStr "orders";
       s_fields := JArr [JStr "o.id"; JStr " "; JStr "u.name"];
       s_joins := JArr [JObj [("type", JStr "left"); ("table", JStr "users");
                              ("alias", JStr "u");
                              ("on", JArr [JStr "u.id = o.user_id";
                                           JStr "u.active = 1"])]];
       s_where := JObj [("o.status", JStr "paid");
                        ("o.total", JObj [("$between", JArr [JNum 10; JNum 100])])];
       s_orderBy := JStr "o.id DESC"; s_limit := JNum 20; s_offset := JNum 40;
       s_groupBy := JUndefined; s_having := JUndefined; s_alias := JStr "o";
       s_forUpdate := JBool true |} in
  let st :=
    {| query := "SELECT o.id, u.name FROM orders o LEFT JOIN users u ON u.id = o.user_id AND u.active = 1 WHERE o.status = ? AND o.total BETWEEN ? AND ? ORDER BY o.id DESC LIMIT 20 OFFSET 40 FOR UPDATE";
       allParams := [JStr "paid"; JNum 10; JNum 100] |} in
  _buildSelectQuery ascii_strings options = Ok st /\
  count_placeholders (query st) = 3.
Proof.
  intros options st.
  assert (_buildSelectQuery ascii_strings options = Ok st) as Hst
    by (vm_compute; reflexivity).
  split; [exact Hst|].
  destruct (select_binds_only_the_condition ascii_strings options st Hst)
    as (_ & bare & Hbare & _ & Hcount).
  assert (bare = {| query := "SELECT o.id, u.name FROM orders o LEFT JOIN users u ON u.id = o.user_id AND u.active = 1 ORDER BY o.id DESC LIMIT 20 OFFSET 40 FOR UPDATE";
                    allParams := [] |}) as ->.
  { vm_compute in Hbare. by injection Hbare as <-. }
  exact (Hcount eq_refl eq_refl).
Defined.

(** X8.  Paging depends on nothing but a positive numeric [limit] and,
    with it, a numeric [offset]: a [limit] that is zero, negative or not a
    number writes neither LIMIT nor OFFSET, whatever [offset] is, and an
    [offset] that is not a number is not written. *)
Theorem select_paging_needs_a_positive_limit (S : strings) (options : SelectOptions)
    (limit offset : jsval) :
  _buildSelectQuery S (set_paging options limit offset) =
  _buildSelectQuery S
    (set_paging options
       (if positive_number limit then limit else JUndefined)
       (if positive_number limit
        then match offset with JNum _ => offset | _ => JUndefined end
        else JUndefined)).
Proof.
  unfold _buildSelectQuery.
  cbn [s_table s_fields s_joins s_where s_orderBy s_limit s_offset s_groupBy s_having
       s_alias s_forUpdate set_paging].
  assert (limit_text limit offset =
          limit_text (if positive_number limit then limit else JUndefined)
            (if positive_number limit
             then match offset with JNum _ => offset | _ => JUndefined end
             else JUndefined)) as ->; [|done].
  unfold limit_text. destruct (positive_number limit) eqn:Hl; [|done].
  rewrite Hl. by destruct offset.
Qed.

Lemma filter_fields_strings S (l : list string) :
  filter_fields S (map JStr l)
  = Ok (map JStr (List.filter
                    (fun f => negb (String.eqb f "") && negb (String.eqb (trim S f) "")) l)).
Proof.
  induction l as [|f l IH]; [done|].
  cbn [map filter_fields List.filter]. rewrite IH. unfold keep_field. cbn [truthy].
  destruct (negb (String.eqb f "")) eqn:Hf; cbn [rbind andb]; [|done].
  by destruct (negb (String.eqb (trim S f) "")).
Qed.

Lemma array_join_strings sep (l : list string) :
  array_join sep (map JStr l) = join sep l.
Proof.
  unfold array_join. f_equal. induction l as [|f l IH]; [done|].
  simpl. by rewrite IH.
Qed.

(** X9.  Of an array of field names, the empty and the blank ones are
    dropped and the others are written untrimmed, in order, separated by
    commas.  The empty array is written as [*]; an array of nothing but
    blank names is not: it leaves the field list empty. *)
Theorem select_fields_drops_blank_names (S : strings) (names : list string) :
  select_fields S (JArr (map JStr names)) =
  Ok (match names with
      | [] => "*"
      | _ => join ", " (List.filter
                          (fun f => negb (String.eqb f "")
                                    && negb (String.eqb (trim S f) "")) names)
      end) /\
  (names <> [] ->
   Forall (fun f => trim S f = "") names ->
   select_fields S (JArr (map JStr names)) = Ok "").
Proof.
  assert (select_fields S (JArr (map JStr names)) =
          Ok (match names with
              | [] => "*"
              | _ => join ", " (List.filter
                                  (fun f => negb (String.eqb f "")
                                            && negb (String.eqb (trim S f) "")) names)
              end)) as Hsel.
  { destruct names as [|f names]; [done|].
    unfold select_fields, or_default. cbn [is_undefined map].
    change (JStr f :: map JStr names) with (map JStr (f :: names)).
    rewrite filter_fields_strings. cbn [rbind]. by rewrite array_join_strings. }
  split; [exact Hsel|]. intros Hne Hblank. rewrite Hsel.
  destruct names as [|f names]; [done|]. f_equal.
  assert (List.filter (fun f0 => negb (String.eqb f0 "")
                                 && negb (String.eqb (trim S f0) "")) (f :: names) = [])
    as ->; [|done].
  clear Hsel Hne. induction Hblank as [|g l Hg Hl IH]; [done|].
  cbn [List.filter]. rewrite Hg, IH. by rewrite andb_false_r.
Qed.

(** The theorem at [['id', ' ', '', 'name']] and at [[' ', '']]. *)
Lemma select_fields_drops_blank_names_witness :
  select_fields ascii_strings (JArr [JStr "id"; JStr " "; JStr ""; JStr "name"])
  = Ok "id, name" /\
  select_fields ascii_strings (JArr [JStr " "; JStr ""]) = Ok "".
Proof.
  split.
  - exact (proj1 (select_fields_drops_blank_names ascii_strings ["id"; " "; ""; "name"])).
  - apply (proj2 (select_fields_drops_blank_names ascii_strings [" "; ""]));
      [discriminate | repeat constructor].
Defined.

End SelectFacts.

(** ** The execution wrapper and the remaining entry points *)

Module EntryFacts.
Import Js Crud CrudMore Runtime CrudApi CrudSelect JsFacts CrudFacts CompilerFacts
  BuilderFacts CrudApiFacts.

Ltac run_crud :=
  cbv [CrudApi.executeQuery logQueryPerformance find findCount
       seq pure raise try_catch try_finally emit log log_with next_tick
       await date_now getPool pool_query
       tick next_conn sessions transactionInstance trace fst snd negb].

Lemma seq_pure {A B} (a : A) (k : A -> IO B) w : seq (pure a) k w = k a w.
Proof. reflexivity. Qed.

Lemma seq_run {A B} (m : IO A) (k : A -> IO B) w :
  seq m k w = match m w with
              | (Ok a, w') => k a w'
              | (Throw e, w') => (Throw e, w')
              end.
Proof. reflexivity. Qed.


(** X11.  For a non-empty query, [findCount] returns the [count] column
    of the first row of the result, and [0] when the result has no row or
    its first row is falsy; a rejected query is raised as it is.  The
    column must be called [count]: a first row without it yields
    [undefined]. *)
Theorem findCount_reads_the_count_column (E : env) (sql : jsval) (args : list jsval)
    (dbConfig : jsval) (w : world) :
  truthy sql = true ->
  let r := fst (CrudApi.executeQuery E sql args dbConfig "findCount" w) in
  let w' := snd (CrudApi.executeQuery E sql args dbConfig "findCount" w) in
  findCount E sql args dbConfig w =
  (match r with
   | Ok (JArr []) => Ok (JNum 0)
   | Ok (JArr (row :: _)) => if truthy row then Ok (prop row "count") else Ok (JNum 0)
   | Ok (JObj props) =>
       let row := default JUndefined (lookup_prop "0" props) in
       if truthy row then Ok (prop row "count") else Ok (JNum 0)
   | Ok (JStr s) =>
       match s with
       | EmptyString => Ok (JNum 0)
       | String _ _ => Ok JUndefined
       end
   | Ok _ => Ok (JNum 0)
   | Throw e => Throw e
   end, w').
Proof.
  intros Hsql r w'. subst r w'. unfold findCount. rewrite Hsql. cbn [negb].
  unfold seq at 1.
  destruct (CrudApi.executeQuery E sql args dbConfig "findCount" w) as [[res|e] w1];
    [|done].
  cbn [fst snd].
  destruct res as [ | | [|] | n | s | [|row rows] | props]; try done.
  - simpl. by destruct (n =? 0)%Z.
  - destruct s as [|c s]; [done|]. done.
  - simpl. by destruct (truthy row).
  - cbn [truthy get_index]. change (pretty 0) with "0".
    by destruct (truthy (default JUndefined (lookup_prop "0" props))).
Qed.

(** The theorem on a driver that resolves every operation with one row
    [{count: 42}]. *)
Lemma findCount_reads_the_count_column_witness :
  fst (findCount {| reply := fun _ => Resolved (JArr [JObj [("count", JNum 42)]]);
                    now := fun _ => 0%Z |}
         (JStr "SELECT COUNT(*) AS count FROM users") [] JUndefined initial)
  = Ok (JNum 42).
Proof.
  rewrite (findCount_reads_the_count_column
             {| reply := fun _ => Resolved (JArr [JObj [("count", JNum 42)]]);
                now := fun _ => 0%Z |}
             (JStr "SELECT COUNT(*) AS count FROM users") [] JUndefined initial eq_refl).
  reflexivity.
Defined.

(** X12.  [insert] of an object writes one column and one placeholder
    per key of [data], in key order, and passes every value as a
    parameter, those that are [undefined] or [null] included (nothing is
    dropped, unlike in an update).  The statement is
    [INSERT INTO table (k1, ..., kn) VALUES (?, ..., ?)] ([INSERT IGNORE]
    when asked), it is what [executeQuery] is given, and the [insertId]
    of what the driver resolved with is returned; when the table and the
    keys contain no [?], it has exactly as many placeholders as
    parameters. *)
Theorem insert_binds_every_key (E : env) (table : jsval) (es : list (string * jsval))
    (dbConfig : jsval) (debug isIgnore : bool) (w : world) :
  truthy table = true ->
  let text := (if isIgnore then "INSERT IGNORE INTO " else "INSERT INTO ")
              +:+ to_string table +:+ " (" +:+ join ", " (map fst es)
              +:+ ") VALUES (" +:+ join ", " (map (fun _ => "?") (map fst es)) +:+ ")" in
  insert_statement table (JObj es) isIgnore
  = Ok {| query := text; allParams := map snd es |} /\
  match CrudApi.executeQuery E (JStr text) (map snd es) dbConfig "insert" w with
  | (Throw e, w1) => insert E table (JObj es) dbConfig debug isIgnore w = (Throw e, w1)
  | (Ok res, w1) =>
      if is_undefined res || is_null res
      then insert E table (JObj es) dbConfig debug isIgnore w = (Throw TypeError, w1)
      else fst (insert E table (JObj es) dbConfig debug isIgnore w)
           = Ok (prop res "insertId")
  end /\
  (count_placeholders (to_string table) = 0 ->
   Forall (fun kv => count_placeholders (fst kv) = 0) es ->
   count_placeholders text = List.length (map snd es)).
Proof.
  intros Ht. cbv zeta.
  assert (insert_statement table (JObj es) isIgnore
          = Ok {| query := (if isIgnore then "INSERT IGNORE INTO " else "INSERT INTO ")
                           +:+ to_string table +:+ " (" +:+ join ", " (map fst es)
                           +:+ ") VALUES ("
                           +:+ join ", " (map (fun _ => "?") (map fst es)) +:+ ")";
                  allParams := map snd es |}) as Hst.
  { unfold insert_statement. rewrite Ht. cbn [truthy typeof_object negb orb rbind entries].
    reflexivity. }
  split; [exact Hst|]. split.
  - unfold insert. rewrite Hst. unfold built. rewrite seq_pure. cbn [query allParams].
    rewrite seq_run.
    destruct (CrudApi.executeQuery E _ (map snd es) dbConfig "insert" w) as [[res|e] w1];
      [|done].
    destruct res; cbn [is_undefined is_null orb]; try done;
      rewrite seq_run; cbn [result_prop pure]; by destruct debug.
  - intros Htab Hkeys.
    rewrite !count_placeholders_app, Htab, count_placeholders_marks.
    rewrite count_placeholders_join by done.
    assert (list_sum (map count_placeholders (map fst es)) = 0) as ->.
    { clear -Hkeys. induction Hkeys as [|kv l Hkv Hl IH]; [done|].
      simpl. rewrite Hkv, IH. done. }
    rewrite !length_map. destruct isIgnore; simpl; lia.
Qed.

(** The theorem at [{name: 'Bob', email: undefined}]. *)
Lemma insert_binds_every_key_witness :
  insert_statement (JStr "users") (JObj [("name", JStr "Bob"); ("email", JUndefined)]) false
  = Ok {| query := "INSERT INTO users (name, email) VALUES (?, ?)";
          allParams := [JStr "Bob"; JUndefined] |}.
Proof.
  exact (proj1 (insert_binds_every_key Lifetime.all_succeed (JStr "users")
                  [("name", JStr "Bob"); ("email", JUndefined)] JUndefined false false
                  initial eq_refl)).
Defined.

(** X13.  [validateUpdateParams] reports no error exactly when the table
    is a non-empty word of letters, digits and underscores, the data is
    an object (not an array) with at least one key, and the query is a
    non-empty string that contains [where] in any case; and [update]
    raises the validation errors, without asking for a pool, whenever
    there is one. *)
Theorem update_validates_before_sending (S : strings) (table data sql : jsval) :
  (validateUpdateParams S table data sql = [] <->
   (exists t, table = JStr t /\ is_word t = true) /\
   (exists props, data = JObj props /\ props <> []) /\
   (exists q, sql = JStr q /\ q <> "" /\ includes (toLowerCase S q) "where" = true)) /\
  (validateUpdateParams S table data sql <> [] ->
   forall E dbConfig debug w,
     update S E table data sql dbConfig debug w
     = (Throw (Error ("Validation failed: "
                      +:+ join ", " (validateUpdateParams S table data sql))), w)).
Proof.
  split.
  - unfold validateUpdateParams. split.
    + intros H. apply app_eq_nil in H as [Ht H]. apply app_eq_nil in H as [Hd Hq].
      split_and!.
      * destruct table as [ | | | | t | | ]; try done. exists t. split; [done|].
        destruct (truthy (JStr t)); [|done]. simpl in Ht.
        by destruct (is_word t).
      * destruct data as [ | | | | | | props]; try done. exists props. split; [done|].
        by destruct props.
      * destruct sql as [ | | | | q | | ]; try done. exists q. split; [done|].
        simpl in Hq. destruct (String.eqb_spec q "") as [->|Hne]; [done|].
        simpl in Hq. split; [done|].
        by destruct (includes (toLowerCase S q) "where").
    + intros ((t & -> & Ht) & (props & -> & Hp) & (q & -> & Hq & Hw)).
      assert (truthy (JStr t) = true) as ->.
      { simpl. unfold is_word in Ht. by destruct (String.eqb t ""). }
      assert (truthy (JStr q) = true) as ->.
      { simpl. by destruct (String.eqb_spec q ""). }
      rewrite Ht, Hw. by destruct props.
  - intros Hne E dbConfig debug w. unfold update.
    destruct (validateUpdateParams S table data sql); done.
Qed.

(** The theorem at a table name that carries a second statement. *)
Lemma update_validates_before_sending_witness :
  update ascii_strings Lifetime.all_succeed (JStr "users; DROP TABLE users")
    (JObj [("a", JNum 1)]) (JStr "WHERE id = 1") JUndefined false initial
  = (Throw (Error "Validation failed: Table name contains invalid characters"), initial).
Proof.
  apply (proj2 (update_validates_before_sending ascii_strings
                  (JStr "users; DROP TABLE users") (JObj [("a", JNum 1)])
                  (JStr "WHERE id = 1"))).
  discriminate.
Defined.

(** X14.  [delete] is guarded by the text of the query alone: a falsy
    query, or one that does not contain [where] in any case, raises
    without asking for a pool; any other query string is handed to
    [executeQuery] behind [DELETE FROM table], word for word and without
    parameters (as it stands when no table is given). *)
Theorem delete_guard_is_textual (S : strings) (E : env) (sql table dbConfig : jsval)
    (w : world) :
  (lacks_where S sql = Ok true ->
   _delete S E sql table dbConfig w
   = (Throw (Error "Invalid query or missing WHERE clause"), w)) /\
  (lacks_where S sql = Ok false ->
   let text := if truthy table
               then JStr ("DELETE FROM " +:+ to_string table +:+ " " +:+ to_string sql)
               else sql in
   match CrudApi.executeQuery E text [] dbConfig "delete" w with
   | (Throw e, w1) => _delete S E sql table dbConfig w = (Throw e, w1)
   | (Ok res, w1) =>
       if is_undefined res || is_null res
       then _delete S E sql table dbConfig w = (Throw TypeError, w1)
       else fst (_delete S E sql table dbConfig w) = Ok (prop res "affectedRows") /\
            exists line,
              trace (snd (_delete S E sql table dbConfig w))
              = trace w1 ++ [EvLog Info line NoData]
   end).
Proof.
  split; [intros Hguard; unfold _delete; by rewrite Hguard|].
  intros Hguard. cbv zeta. unfold _delete. rewrite Hguard.
  unfold built. rewrite seq_pure, seq_run.
  destruct (CrudApi.executeQuery E _ [] dbConfig "delete" w) as [[res|e] w1];
    [|done].
  destruct res; cbn [is_undefined is_null orb]; try done;
    (split; [done|]); eexists; reflexivity.
Qed.

(** The theorem at a query without [where] and at one whose [where] is
    inside a comment. *)
Lemma delete_guard_is_textual_witness :
  _delete ascii_strings Lifetime.all_succeed (JStr "id = 1") (JStr "users") JUndefined initial
  = (Throw (Error "Invalid query or missing WHERE clause"), initial) /\
  lacks_where ascii_strings (JStr "-- everywhere") = Ok false.
Proof.
  split; [|reflexivity].
  apply (proj1 (delete_guard_is_textual ascii_strings Lifetime.all_succeed
                  (JStr "id = 1") (JStr "users") JUndefined initial)).
  reflexivity.
Defined.

End EntryFacts.

(** ** More about the transaction session *)

Module SessionFacts.
Import Js Crud CrudMore Runtime CrudApi CrudSelect TransactionCRUD TransactionManager
  Lifetime TransactionApi JsFacts CrudFacts CrudApiFacts TransactionFacts EntryFacts.

Lemma executeQuery_inactive E this sql args operation w s :
  sessions w !! this = Some s ->
  connection s = None \/ transactionActive s = false ->
  executeQuery E this sql args operation w
  = (Throw (Error "No active transaction. Call init() first."), w).
Proof.
  destruct w as [t n m inst tr], s as [c a d]. simpl. intros Hs Hoff.
  run_io. rewrite Hs. cbv beta iota.
  destruct c as [c|]; [|done]. destruct Hoff as [Hx| ->]; done.
Qed.

(** The lines a session logs around a statement, by what the driver
    answered and how long it took. *)
Lemma executeQuery_active E this sql args operation w s c :
  sessions w !! this = Some s -> connection s = Some c -> transactionActive s = true ->
  exists logs,
    executeQuery E this sql args operation w
    = (match reply E (S (tick w)) with Resolved v => Ok v | Rejected e => Throw e end,
       {| tick := match reply E (S (tick w)) with
                  | Resolved _ => 3 + tick w
                  | Rejected _ => 2 + tick w
                  end;
          next_conn := next_conn w; sessions := sessions w;
          transactionInstance := transactionInstance w;
          trace := trace w ++ EvConnQuery c sql args :: logs |}) /\
    forallb is_log logs = true /\
    (forall v, reply E (S (tick w)) = Resolved v ->
       (logs = [] <-> (now E (S (S (tick w))) - now E (tick w) <= 1000)%Z)).
Proof.
  destruct w as [t n m inst tr], s as [c0 a d]. simpl. intros Hs -> ->.
  run_io. rewrite Hs. cbv beta iota.
  destruct (reply E (S t)) as [v|e]; cbv beta iota.
  - destruct (Z.ltb_spec 1000 (now E (S (S t)) - now E t)) as [Hslow|Hfast];
      cbv beta iota.
    + eexists [_]. split; [by rewrite <- !app_assoc|]. split; [done|].
      intros ? _. split; [discriminate | lia].
    + exists []. split; [done|]. split; [done|]. intros ? _. split; [lia | done].
  - eexists [_; _]. split; [by rewrite <- !app_assoc|]. split; [done|]. by intros.
Qed.

(** X15.  A statement that the driver rejects does not end the
    transaction.  On an active session [executeQuery] sends the statement
    once, on the connection the session holds; it returns what the driver
    resolved with or raises what the driver rejected with; and either way
    the session is left as it was, active and holding its connection:
    nothing is rolled back or released. *)
Theorem failed_statement_keeps_the_transaction (E : env) (this : loc) (sql : jsval)
    (args : list jsval) (operation : string) (w : world) (s : session) (c : conn) :
  sessions w !! this = Some s ->
  connection s = Some c ->
  transactionActive s = true ->
  let r := fst (executeQuery E this sql args operation w) in
  let w' := snd (executeQuery E this sql args operation w) in
  r = match reply E (S (tick w)) with Resolved v => Ok v | Rejected e => Throw e end /\
  sessions w' = sessions w /\
  (exists logs, trace w' = trace w ++ EvConnQuery c sql args :: logs /\
                forallb is_log logs = true) /\
  releases c (trace w') = releases c (trace w).
Proof.
  intros Hs Hc Ha.
  destruct (executeQuery_active E this sql args operation w s c Hs Hc Ha)
    as (logs & -> & Hlogs & _).
  cbn [fst snd sessions trace]. split_and!; [done | done | by exists logs |].
  rewrite releases_app. unfold releases at 2. cbn [List.filter is_release].
  assert (List.filter (is_release c) logs = []) as ->; [|simpl; lia].
  clear -Hlogs. induction logs as [|ev logs IH]; [done|].
  simpl in Hlogs. apply andb_prop in Hlogs as [Hev Hrest].
  destruct ev; try done. simpl. by apply IH.
Qed.

(** The theorem on a session initialised over three successful operations
    whose first statement is then rejected. *)
Lemma failed_statement_keeps_the_transaction_witness :
  let E := fail_from 3 in
  let w := run_calls E 0 [CallInit JUndefined] (snd (new_session initial)) in
  fst (executeQuery E 0 (JStr "SELECT 1") [] "TRANS_QUERY" w)
  = Throw (DriverError "ER_LOCK_DEADLOCK") /\
  sessions (snd (executeQuery E 0 (JStr "SELECT 1") [] "TRANS_QUERY" w)) = sessions w.
Proof.
  intros E w.
  destruct (failed_statement_keeps_the_transaction E 0 (JStr "SELECT 1") [] "TRANS_QUERY" w
              {| connection := Some 0; transactionActive := true; debug := false |} 0)
    as (Hr & Hs & _); [vm_compute; reflexivity | reflexivity | reflexivity |].
  split; [exact Hr | exact Hs].
Defined.

Lemma with_logs_nil w : with_logs w [] = w.
Proof. destruct w. unfold with_logs. simpl. by rewrite app_nil_r. Qed.

Lemma refused_raise {A} (e : exn) w : refused (@raise A e) w.
Proof. exists e, []. by rewrite with_logs_nil. Qed.

Lemma refused_executeQuery E this sql args operation w s :
  sessions w !! this = Some s ->
  connection s = None \/ transactionActive s = false ->
  refused (executeQuery E this sql args operation) w.
Proof.
  intros Hs Hoff. unfold refused. rewrite (executeQuery_inactive _ _ _ _ _ _ _ Hs Hoff).
  exists (Error "No active transaction. Call init() first."), [].
  by rewrite with_logs_nil.
Qed.

Lemma refused_seq {A B} (m : IO A) (k : A -> IO B) w :
  refused m w -> refused (seq m k) w.
Proof. intros (e & logs & Hm & Hlogs). exists e, logs. by rewrite seq_run, Hm. Qed.

Lemma refused_built {A B} (r : result A) (k : A -> IO B) w :
  (forall a, r = Ok a -> refused (k a) w) -> refused (seq (built r) k) w.
Proof.
  intros Hk. destruct r as [a|e]; [by apply Hk|]. apply refused_seq, refused_raise.
Qed.

Lemma refused_logged {A} (body : IO A) (text : string) w :
  refused body w ->
  refused (try_catch body (fun err => seq (log_with Err text (Failure err))
                                          (fun _ => raise err))) w.
Proof.
  intros (e & logs & Hm & Hlogs).
  exists e, (logs ++ [EvLog Err text (Failure e)]). split.
  - unfold try_catch. rewrite Hm. unfold with_logs. simpl. by rewrite app_assoc.
  - rewrite forallb_app, Hlogs. done.
Qed.

(** X16.  On a session that is not active (never initialised, committed,
    rolled back, or failed to initialise) every CRUD method raises without
    asking the environment for anything: no pool, no connection and no
    statement; the session and the registry are untouched and at most an
    error line is logged. *)
Theorem crud_methods_need_an_active_transaction (S : strings) (E : env) (this : loc)
    (w : world) (s : session) :
  sessions w !! this = Some s ->
  connection s = None \/ transactionActive s = false ->
  (forall sql args, refused (find E this sql args) w) /\
  (forall table data, refused (insert E this table data) w) /\
  (forall table data sql, refused (update S E this table data sql) w) /\
  (forall sql table, refused (delete S E this sql table) w) /\
  (forall options, refused (buildAndExecuteSelectQuery S E this options) w) /\
  (forall options, refused (buildAndExecuteUpdateQuery E this options) w) /\
  (forall options, refused (buildAndExecuteDeleteQuery E this options) w) /\
  (forall options, refused (findForUpdate S E this options) w).
Proof.
  intros Hs Hoff.
  assert (forall sql args operation, refused (executeQuery E this sql args operation) w)
    as Hexec by (intros; by eapply refused_executeQuery).
  split_and!.
  - intros. apply Hexec.
  - intros. unfold insert.
    destruct (negb (truthy table) || negb (truthy data)); [apply refused_raise|].
    apply refused_built. intros. apply refused_seq, Hexec.
  - intros. unfold update. apply refused_built. intros [|] _; [apply refused_raise|].
    apply refused_built. intros. apply refused_seq, Hexec.
  - intros. unfold delete. apply refused_built. intros [|] _; [apply refused_raise|].
    apply refused_seq, Hexec.
  - intros. apply refused_logged, refused_built. intros. apply Hexec.
  - intros. apply refused_logged, refused_built. intros. apply refused_seq, Hexec.
  - intros. apply refused_logged, refused_built. intros. apply refused_seq, Hexec.
  - intros. apply refused_logged, refused_built. intros. apply Hexec.
Qed.

(** The theorem on a session fresh from the constructor. *)
Lemma crud_methods_need_an_active_transaction_witness :
  refused (find all_succeed 0 (JStr "SELECT 1") []) (snd (new_session initial)).
Proof.
  destruct (crud_methods_need_an_active_transaction ascii_strings all_succeed 0
              (snd (new_session initial)) created) as (Hfind & _);
    [vm_compute; reflexivity | by left | apply Hfind].
Defined.

(** X17.  The [update] method of a session does not check that a field
    is left to set (the builder and the entry point outside a transaction
    do): with a [data] of nothing but [undefined] values and a query that
    passes the [where] test, an active session sends the statement
    [UPDATE table SET  query], with an empty SET list and no parameter,
    on its connection. *)
Theorem session_update_sends_an_empty_set_list (SM : strings) (E : env) (this : loc)
    (table data sql : jsval) (es : list (string * jsval)) (w : world) (s : session)
    (c : conn) :
  sessions w !! this = Some s ->
  connection s = Some c ->
  transactionActive s = true ->
  lacks_where SM sql = Ok false ->
  entries data = Ok es ->
  Forall (fun kv => snd kv = JUndefined) es ->
  exists logs,
    trace (snd (update SM E this table data sql w))
    = trace w ++ EvConnQuery c (JStr ("UPDATE " +:+ to_string table +:+ " SET  "
                                      +:+ to_string sql)) [] :: logs /\
    forallb is_log logs = true.
Proof.
  intros Hs Hc Ha Hguard Hes Hall. unfold update. rewrite Hguard.
  unfold built at 1. rewrite seq_pure.
  unfold prepareUpdateParams. rewrite Hes. cbn [rbind].
  unfold prepare_entries. rewrite (prepare_all_undefined _ _ Hall).
  unfold built. rewrite seq_pure. cbn [setFields setParams].
  rewrite seq_run.
  destruct (executeQuery_active E this
              (JStr ("UPDATE " +:+ to_string table +:+ " SET " +:+ join ", " []
                     +:+ " " +:+ to_string sql)) [] "TRANS_UPDATE" w s c Hs Hc Ha)
    as (logs & -> & Hlogs & _).
  exists logs. split; [|done].
  destruct (reply E (S (tick w))) as [v|e]; [|done].
  unfold result_prop. by destruct v.
Qed.

(** The theorem on an initialised session, at
    [update('users', {name: undefined}, 'WHERE id = 1')]. *)
Lemma session_update_sends_an_empty_set_list_witness :
  let w := run_calls all_succeed 0 [CallInit JUndefined] (snd (new_session initial)) in
  exists logs,
    trace (snd (update ascii_strings all_succeed 0 (JStr "users")
                  (JObj [("name", JUndefined)]) (JStr "WHERE id = 1") w))
    = trace w ++ EvConnQuery 0 (JStr "UPDATE users SET  WHERE id = 1") [] :: logs /\
    forallb is_log logs = true.
Proof.
  intros w.
  apply (session_update_sends_an_empty_set_list ascii_strings all_succeed 0 (JStr "users")
           (JObj [("name", JUndefined)]) (JStr "WHERE id = 1") [("name", JUndefined)] w
           {| connection := Some 0; transactionActive := true; debug := false |} 0);
    [vm_compute; reflexivity | reflexivity | reflexivity | reflexivity | reflexivity
    | repeat constructor].
Defined.

(** X18.  [init] on a session that holds no connection either returns the
    connection the pool hands out next, reserved once more than before,
    which the session then holds with
    its flag set, the pool missing one connection more; or it raises what
    the environment rejected one of its three operations with, and then
    the session holds nothing, its flag is as before, and whatever was
    reserved on the way has been released. *)
Theorem init_reserves_or_cleans_up (E : env) (this : loc) (dbConfig : jsval) (w : world)
    (s : session) :
  sessions w !! this = Some s ->
  connection s = None ->
  let w' := snd (init E this dbConfig w) in
  match fst (init E this dbConfig w) with
  | Ok c =>
      c = next_conn w /\ reserves c (trace w') = S (reserves c (trace w)) /\
      sessions w' !! this
      = Some {| connection := Some c; transactionActive := true; debug := debug s |} /\
      in_use (trace w') = (in_use (trace w) + 1)%Z
  | Throw e =>
      (exists k, k < 3 /\ reply E (k + tick w) = Rejected e) /\
      (exists s', sessions w' !! this = Some s' /\ connection s' = None /\
                  transactionActive s' = transactionActive s) /\
      in_use (trace w') = in_use (trace w)
  end.
Proof.
  intros Hs Hc. cbv zeta. rewrite (init_idle _ _ _ _ _ Hs Hc). unfold init_outcome.
  destruct (reply E (tick w)) as [v|e] eqn:H0; cbn [fst snd].
  2: { split_and!; [exists 0; split; [lia | exact H0] | exists s; split_and!; done |].
       cbn [trace]. rewrite in_use_app. unfold in_use at 2. simpl. lia. }
  destruct (reply E (1 + tick w)) as [v1|e] eqn:H1; cbn [fst snd].
  2: { split_and!; [exists 1; split; [lia | exact H1] | exists s; split_and!; done |].
       cbn [trace]. rewrite in_use_app. unfold in_use at 2. simpl. lia. }
  destruct (reply E (2 + tick w)) as [v2|e] eqn:H2; cbn [fst snd sessions trace].
  - split_and!; [done | | by rewrite lookup_insert_eq |].
    + rewrite reserves_app. unfold reserves at 2. simpl. rewrite ?Nat.eqb_refl. simpl. lia.
    + rewrite in_use_app. unfold in_use at 2. simpl. lia.
  - split_and!; [exists 2; split; [lia | exact H2] | | ].
    + eexists. split; [apply lookup_insert_eq | done].
    + rewrite in_use_app. unfold in_use at 2. simpl. lia.
Qed.

(** The theorem on a fresh session whose [beginTransaction] is rejected. *)
Lemma init_reserves_or_cleans_up_witness :
  let w := snd (new_session initial) in
  fst (init (fail_from 2) 0 JUndefined w) = Throw (DriverError "ER_LOCK_DEADLOCK") /\
  in_use (trace (snd (init (fail_from 2) 0 JUndefined w))) = 0%Z.
Proof.
  intros w.
  pose proof (init_reserves_or_cleans_up (fail_from 2) 0 JUndefined w created) as H.
  assert (sessions w !! 0 = Some created) as Hs by (vm_compute; reflexivity).
  specialize (H Hs eq_refl). cbv zeta in H.
  assert (fst (init (fail_from 2) 0 JUndefined w) = Throw (DriverError "ER_LOCK_DEADLOCK"))
    as Hr by (vm_compute; reflexivity).
  rewrite Hr in H. destruct H as (_ & _ & Huse). split; [exact Hr | exact Huse].
Defined.

Lemma scan_app released tr evs :
  scan released (tr ++ evs)
  = match scan released tr with Some r => scan r evs | None => None end.
Proof.
  revert released. induction tr as [|ev tr IH]; intros released; [done|].
  cbn [app scan]. destruct (conn_of ev) as [c|]; [|apply IH].
  destruct (existsb (Nat.eqb c) released); [done | apply IH].
Qed.

Lemma scan_logs released logs :
  forallb is_log logs = true -> scan released logs = Some released.
Proof.
  induction logs as [|ev logs IH]; [done|]. cbn [forallb].
  intros [Hev Hlogs]%andb_true_iff. destruct ev; try discriminate. by apply IH.
Qed.

Lemma fresh_unreleased n released :
  Forall (fun c => c < n) released -> existsb (Nat.eqb n) released = false.
Proof.
  induction 1 as [|c released Hc _ IH]; [done|]. cbn [existsb]. rewrite IH.
  destruct (Nat.eqb_spec n c); [lia | done].
Qed.

Lemma released_before n released :
  Forall (fun c => c < n) released -> Forall (fun c => c < S n) released.
Proof. intros H. eapply Forall_impl; [exact H | simpl; lia]. Qed.

Lemma live_executeQuery E this sql args operation w :
  live w this -> live (snd (executeQuery E this sql args operation w)) this.
Proof.
  intros (s & R & Hs & Hscan & Hold & Hheld). unfold live.
  destruct (connection s) as [c|] eqn:Hc, (transactionActive s) eqn:Ha.
  2, 3, 4: rewrite (executeQuery_inactive _ _ _ _ _ _ s Hs); [|by auto..];
     exists s, R; by rewrite Hc.
  destruct Hheld as [Hlt Hheld].
  destruct (executeQuery_active E this sql args operation w s c Hs Hc Ha)
    as (logs & -> & Hlogs & _).
  exists s, R. cbn [snd sessions trace next_conn]. rewrite Hc. split_and!; try done.
  rewrite scan_app, Hscan. cbn [scan conn_of]. rewrite Hheld. by apply scan_logs.
Qed.

Lemma live_rollback E this w : live w this -> live (snd (rollback E this w)) this.
Proof.
  intros (s & R & Hs & Hscan & Hold & Hheld). unfold live.
  destruct (connection s) as [c|] eqn:Hc.
  2: { rewrite (rollback_idle _ _ _ s Hs Hc). exists s, R. by rewrite Hc. }
  destruct Hheld as [Hlt Hheld].
  rewrite (rollback_held _ _ _ s c Hs Hc). cbn [snd sessions trace next_conn].
  exists (terminated s), (c :: R). split_and!; [apply lookup_insert_eq | | | done].
  - rewrite scan_app, Hscan. cbn [scan conn_of]. rewrite Hheld.
    by destruct (reply E (tick w)); cbn [rollback_logged scan conn_of]; rewrite ?Hheld.
  - by constructor.
Qed.

Lemma live_commit E this w : live w this -> live (snd (commit E this w)) this.
Proof.
  intros (s & R & Hs & Hscan & Hold & Hheld). unfold live.
  destruct (connection s) as [c|] eqn:Hc.
  2: { rewrite (commit_idle _ _ _ s Hs Hc). exists s, R. by rewrite Hc. }
  destruct (transactionActive s) eqn:Ha.
  2: { rewrite (commit_inactive _ _ _ s Hs Ha). exists s, R. by rewrite Hc. }
  destruct Hheld as [Hlt Hheld].
  rewrite (commit_active _ _ _ s c Hs Hc Ha). cbn [snd sessions trace next_conn].
  exists (terminated s), (c :: R). split_and!; [apply lookup_insert_eq | | | done].
  - rewrite scan_app, Hscan.
    destruct (reply E (tick w)); cbn [commit_events scan conn_of]; rewrite ?Hheld;
      [done|].
    by destruct (reply E (S (tick w))); cbn [rollback_logged scan conn_of]; rewrite ?Hheld.
  - by constructor.
Qed.

(** What [init] does on a session that holds a connection already. *)
Lemma init_held E this dbConfig w s c0 :
  sessions w !! this = Some s -> connection s = Some c0 ->
  init E this dbConfig w =
  let failed e := EvLog Err "Failed to initialize transaction:" (Failure e) in
  let n := next_conn w in
  let idle := {| connection := None; transactionActive := transactionActive s;
                 debug := debug s |} in
  match reply E (tick w) with
  | Rejected e =>
      (Throw e,
       {| tick := 1 + tick w; next_conn := n; sessions := <[this := idle]> (sessions w);
          transactionInstance := transactionInstance w;
          trace := trace w ++ [EvGetPool dbConfig; failed e; EvRelease c0] |})
  | Resolved _ =>
  match reply E (1 + tick w) with
  | Rejected e =>
      (Throw e,
       {| tick := 2 + tick w; next_conn := n; sessions := <[this := idle]> (sessions w);
          transactionInstance := transactionInstance w;
          trace := trace w ++ [EvGetPool dbConfig; EvGetConnection; failed e;
                               EvRelease c0] |})
  | Resolved _ =>
  match reply E (2 + tick w) with
  | Rejected e =>
      (Throw e,
       {| tick := 3 + tick w; next_conn := S n; sessions := <[this := idle]> (sessions w);
          transactionInstance := transactionInstance w;
          trace := trace w ++ [EvGetPool dbConfig; EvGetConnection; EvReserved n;
                               EvBegin n; failed e; EvRelease n] |})
  | Resolved _ =>
      (Ok n,
       {| tick := 3 + tick w; next_conn := S n;
          sessions := <[this := {| connection := Some n; transactionActive := true;
                                  debug := debug s |}]> (sessions w);
          transactionInstance := transactionInstance w;
          trace := trace w ++ [EvGetPool dbConfig; EvGetConnection; EvReserved n;
                               EvBegin n;
                               EvLog Info "Transaction initialized successfully" NoData] |})
  end end end.
Proof.
  destruct w as [t n m inst tr], s as [c1 a d]. simpl. intros Hs ->.
  run_io. cbv [Nat.add].
  destruct (reply E t) as [v|e]; cbv beta iota; rewrite ?Hs; cbv beta iota;
    [|rewrite !(alter_present _ _ _ _ Hs); tidy_world; reflexivity].
  destruct (reply E (S t)) as [v1|e]; cbv beta iota; rewrite ?Hs; cbv beta iota;
    [|rewrite !(alter_present _ _ _ _ Hs); tidy_world; reflexivity].
  destruct (reply E (S (S t))) as [v2|e]; cbv beta iota;
    rewrite ?(alter_present _ _ _ _ Hs); tidy_world.
  - reflexivity.
  - rewrite ?(alter_present _ _ _ _ Hs); tidy_world. reflexivity.
Qed.

Lemma live_init E this dbConfig w : live w this -> live (snd (init E this dbConfig w)) this.
Proof.
  intros (s & R & Hs & Hscan & Hold & Hheld). unfold live.
  pose proof (fresh_unreleased _ _ Hold) as Hfresh.
  destruct (connection s) as [c0|] eqn:Hc.
  - destruct Hheld as [Hlt Hheld].
    rewrite (init_held _ _ _ _ s c0 Hs Hc). cbv zeta.
    destruct (reply E (tick w)) as [v|e]; cbn [snd].
    2: { eexists _, (c0 :: R). cbn [sessions trace next_conn].
         split_and!; [apply lookup_insert_eq | | by constructor | done].
         rewrite scan_app, Hscan. cbn [scan conn_of]. by rewrite Hheld. }
    destruct (reply E (1 + tick w)) as [v1|e]; cbn [snd].
    2: { eexists _, (c0 :: R). cbn [sessions trace next_conn].
         split_and!; [apply lookup_insert_eq | | by constructor | done].
         rewrite scan_app, Hscan. cbn [scan conn_of]. by rewrite Hheld. }
    destruct (reply E (2 + tick w)) as [v2|e]; cbn [snd sessions trace next_conn].
    + eexists {| connection := Some (next_conn w) |}, R. cbn [connection].
      split_and!; [apply lookup_insert_eq | | by apply released_before | lia | done].
      rewrite scan_app, Hscan. cbn [scan conn_of]. by rewrite Hfresh.
    + eexists {| connection := None |}, (next_conn w :: R). cbn [connection].
      split_and!; [apply lookup_insert_eq | | | done].
      * rewrite scan_app, Hscan. cbn [scan conn_of]. by rewrite Hfresh.
      * constructor; [lia | by apply released_before].
  - rewrite (init_idle _ _ _ _ s Hs Hc). unfold init_outcome.
    destruct (reply E (tick w)) as [v|e]; cbn [snd].
    2: { exists s, R. cbn [sessions trace next_conn]. rewrite Hc. split_and!; try done.
         by rewrite scan_app, Hscan. }
    destruct (reply E (1 + tick w)) as [v1|e]; cbn [snd].
    2: { exists s, R. cbn [sessions trace next_conn]. rewrite Hc. split_and!; try done.
         by rewrite scan_app, Hscan. }
    destruct (reply E (2 + tick w)) as [v2|e]; cbn [snd sessions trace next_conn].
    + eexists {| connection := Some (next_conn w) |}, R. cbn [connection].
      split_and!; [apply lookup_insert_eq | | by apply released_before | lia | done].
      rewrite scan_app, Hscan. cbn [scan conn_of]. by rewrite Hfresh.
    + eexists {| connection := None |}, (next_conn w :: R). cbn [connection].
      split_and!; [apply lookup_insert_eq | | | done].
      * rewrite scan_app, Hscan. cbn [scan conn_of]. by rewrite Hfresh.
      * constructor; [lia | by apply released_before].
Qed.

Lemma live_run_calls E this calls w :
  live w this -> live (run_calls E this calls w) this.
Proof.
  revert w. induction calls as [|c calls IH]; intros w Hw; [done|].
  cbn [run_calls fold_left]. apply IH.
  destruct c; cbn [run_call];
    [by apply live_init | by apply live_executeQuery | by apply live_commit
    | by apply live_rollback].
Qed.

(** X19.  A session never touches a connection it has given back to the
    pool.  Whatever the environment answers and in whatever order [init],
    [executeQuery], [commit] and [rollback] are called on a new session
    (a second [init] on a live one included), no statement, [commit],
    [rollback] or [release] in the trace is on a connection released
    earlier in the trace; in particular no connection is released twice. *)
Theorem no_use_after_release_holds (E : env) (this : loc) (calls : list call) (w0 : world) :
  sessions w0 !! this = Some created ->
  trace w0 = [] ->
  no_use_after_release (trace (run_calls E this calls w0)) = true.
Proof.
  intros Hs Htr.
  assert (live w0 this) as Hlive.
  { exists created, []. rewrite Htr. split_and!; try done. }
  destruct (live_run_calls E this calls w0 Hlive) as (s & R & _ & Hscan & _).
  unfold no_use_after_release. by rewrite Hscan.
Qed.

(** The theorem on a run with a second [init] on a live session, a failed
    commit and a rollback after it. *)
Lemma no_use_after_release_holds_witness :
  no_use_after_release
    (trace (run_calls (fail_from 7) 0
              [CallInit JUndefined; CallInit JUndefined; CallExecute (JStr "SELECT 1") [];
               CallCommit; CallRollback; CallInit JUndefined]
              (snd (new_session initial)))) = true.
Proof.
  apply (no_use_after_release_holds (fail_from 7) 0 _ (snd (new_session initial)));
    vm_compute; reflexivity.
Defined.

(** X20.  [init] on a session that still holds a connection, when
    [getPool] or [getConnection] is rejected: the error is raised, the
    connection held is released with neither a commit nor a rollback sent
    on it, and the session's flag stays as it was; so a session that was
    active still says so, and so does the registry, with no connection
    behind it. *)
Theorem failed_reinit_releases_without_rollback (E : env) (this : loc) (dbConfig : jsval)
    (w : world) (s : session) (c0 : conn) (e : exn) :
  sessions w !! this = Some s ->
  connection s = Some c0 ->
  reply E (tick w) = Rejected e
  \/ (exists v, reply E (tick w) = Resolved v) /\ reply E (1 + tick w) = Rejected e ->
  let w' := snd (init E this dbConfig w) in
  fst (init E this dbConfig w) = Throw e /\
  (exists asked,
     trace w' = trace w ++ asked
                ++ [EvLog Err "Failed to initialize transaction:" (Failure e);
                    EvRelease c0] /\
     (asked = [EvGetPool dbConfig] \/ asked = [EvGetPool dbConfig; EvGetConnection])) /\
  sessions w' !! this
  = Some {| connection := None; transactionActive := transactionActive s;
            debug := debug s |} /\
  (transactionInstance w = Some this -> hasActiveTransaction w' = transactionActive s).
Proof.
  intros Hs Hc Hfail. cbv zeta. rewrite (init_held _ _ _ _ s c0 Hs Hc). cbv zeta.
  destruct Hfail as [H0|[[v H0] H1]]; rewrite H0; [|rewrite H1];
    cbn [fst snd trace sessions].
  - split_and!; [done | | apply lookup_insert_eq |].
    + exists [EvGetPool dbConfig]. by split; [|left].
    + intros Hreg. unfold hasActiveTransaction. cbn [transactionInstance sessions].
      by rewrite Hreg, lookup_insert_eq.
  - split_and!; [done | | apply lookup_insert_eq |].
    + exists [EvGetPool dbConfig; EvGetConnection]. by split; [|right].
    + intros Hreg. unfold hasActiveTransaction. cbn [transactionInstance sessions].
      by rewrite Hreg, lookup_insert_eq.
Qed.

(** The theorem on a registered session initialised once, when the pool
    is gone at the second [init]. *)
Lemma failed_reinit_releases_without_rollback_witness :
  let w := run_calls (fail_from 3) 0 [CallInit JUndefined]
             (snd (setInstance 0 (snd (new_session initial)))) in
  let w' := snd (init (fail_from 3) 0 JUndefined w) in
  held w' 0 = None /\ hasActiveTransaction w' = true.
Proof.
  intros w w'.
  destruct (failed_reinit_releases_without_rollback (fail_from 3) 0 JUndefined w
              {| connection := Some 0; transactionActive := true; debug := false |} 0
              (DriverError "ER_LOCK_DEADLOCK"))
    as (_ & _ & Hsession & Hreg);
    [vm_compute; reflexivity | reflexivity | left; reflexivity |].
  split; [unfold held, w'; by rewrite Hsession | apply Hreg; reflexivity].
Defined.

Lemma keeps_pure {A} (a : A) : keeps_instance (pure a).
Proof. by intros w. Qed.

Lemma keeps_raise {A} (e : exn) : keeps_instance (@raise A e).
Proof. by intros w. Qed.

Lemma keeps_seq {A B} (m : IO A) (k : A -> IO B) :
  keeps_instance m -> (forall a, keeps_instance (k a)) -> keeps_instance (seq m k).
Proof.
  intros Hm Hk w. unfold seq. specialize (Hm w).
  destruct (m w) as [[a|e] w1]; cbn [snd] in *; [by rewrite Hk | done].
Qed.

Lemma keeps_try_catch {A} (body : IO A) (handler : exn -> IO A) :
  keeps_instance body -> (forall e, keeps_instance (handler e)) ->
  keeps_instance (try_catch body handler).
Proof.
  intros Hm Hk w. unfold try_catch. specialize (Hm w).
  destruct (body w) as [[a|e] w1]; cbn [snd] in *; [done | by rewrite Hk].
Qed.

Lemma keeps_try_finally {A} (body : IO A) (fin : IO unit) :
  keeps_instance body -> keeps_instance fin -> keeps_instance (try_finally body fin).
Proof.
  intros Hm Hk w. unfold try_finally. specialize (Hm w).
  destruct (body w) as [r w1]. specialize (Hk w1).
  destruct (fin w1) as [[u|e] w2]; cbn [snd] in *; congruence.
Qed.

Lemma keeps_emit ev : keeps_instance (emit ev).
Proof. by intros w. Qed.

Lemma keeps_next_tick : keeps_instance next_tick.
Proof. by intros w. Qed.

Lemma keeps_new_handle : keeps_instance new_handle.
Proof. by intros w. Qed.

Lemma keeps_read_session this : keeps_instance (read_session this).
Proof. intros w. unfold read_session. by destruct (sessions w !! this). Qed.

Lemma keeps_write_session this f : keeps_instance (write_session this f).
Proof. by intros w. Qed.

Lemma keeps_built {A} (r : result A) : keeps_instance (built r).
Proof. destruct r; [apply keeps_pure | apply keeps_raise]. Qed.

Ltac solve_keeps :=
  repeat first
    [ apply keeps_pure | apply keeps_raise | apply keeps_emit | apply keeps_next_tick
    | apply keeps_new_handle | apply keeps_read_session | apply keeps_write_session
    | apply keeps_built
    | apply keeps_seq; [|intros ?]
    | apply keeps_try_catch; [|intros ?]
    | apply keeps_try_finally
    | match goal with
      | |- keeps_instance (match ?x with _ => _ end) => destruct x
      end ].

Lemma keeps_rollback E this : keeps_instance (rollback E this).
Proof.
  unfold rollback, _cleanup, conn_rollback, conn_release, set_connection,
    set_transactionActive, await, log, log_with.
  solve_keeps.
Qed.

Lemma keeps_commit E this : keeps_instance (commit E this).
Proof.
  unfold commit. solve_keeps; try apply keeps_rollback.
  all: unfold _cleanup, conn_commit, conn_release, set_connection,
         set_transactionActive, await, log, log_with; solve_keeps.
Qed.

Lemma keeps_init E this dbConfig : keeps_instance (init E this dbConfig).
Proof.
  unfold init, getPool, pool_getConnection, conn_beginTransaction, conn_release,
    set_connection, set_transactionActive, await, log, log_with.
  solve_keeps.
Qed.

Lemma keeps_executeQuery E this sql args operation :
  keeps_instance (executeQuery E this sql args operation).
Proof.
  unfold executeQuery, conn_query, date_now, await, log, log_with.
  solve_keeps.
Qed.

(** X21.  A session never writes the registry: whatever the environment
    answers and in whatever order [init], [executeQuery], [commit] and
    [rollback] are called on any session, [getInstance] returns afterwards
    what it returned before.  A session registered with [setInstance]
    stays registered after its commit or rollback, until [clearInstance]
    or another [setInstance]. *)
Theorem session_calls_leave_the_registry (E : env) (this : loc) (calls : list call)
    (w : world) :
  fst (getInstance (run_calls E this calls w)) = fst (getInstance w).
Proof.
  unfold getInstance. cbn [fst]. f_equal.
  revert w. induction calls as [|c calls IH]; intros w; [done|].
  cbn [run_calls fold_left]. unfold run_calls in IH. rewrite IH.
  destruct c; cbn [run_call];
    [apply keeps_init | apply keeps_executeQuery | apply keeps_commit
    | apply keeps_rollback].
Qed.

(** The builder with [forUpdate] set, by what it gives without. *)
Lemma buildSelectQuery_forUpdate (SM : strings) (options : SelectOptions) :
  truthy (s_forUpdate options) = false ->
  _buildSelectQuery SM (set_forUpdate options (JBool true))
  = match _buildSelectQuery SM options with
    | Ok st => Ok {| query := query st +:+ " FOR UPDATE"; allParams := allParams st |}
    | Throw e => Throw e
    end.
Proof.
  intros Hoff. unfold _buildSelectQuery.
  cbn [set_forUpdate s_table s_fields s_joins s_where s_orderBy s_limit s_offset
       s_groupBy s_having s_alias s_forUpdate truthy].
  rewrite Hoff.
  destruct (select_fields SM (s_fields options)) as [fields|e]; cbn [rbind]; [|done].
  destruct (join_list (s_joins options)) as [js|e]; cbn [rbind]; [|done].
  destruct (joins_text SM js) as [joined|e]; cbn [rbind]; [|done].
  match goal with
  | |- rbind ?m _ = _ => destruct m as [st|e]; cbn [rbind]; [|done]
  end.
  cbn [query allParams]. rewrite !append_assoc. reflexivity.
Qed.

(** X22.  [findForUpdate] sends the statement the select builder gives
    for the same options, followed by [ FOR UPDATE], with the same
    parameters, on the connection of the session: the lock clause comes
    last, after any LIMIT and OFFSET. *)
Theorem findForUpdate_appends_the_lock_clause (SM : strings) (E : env) (this : loc)
    (options : SelectOptions) (st : statement) (w : world) (s : session) (c : conn) :
  sessions w !! this = Some s ->
  connection s = Some c ->
  transactionActive s = true ->
  truthy (s_forUpdate options) = false ->
  _buildSelectQuery SM options = Ok st ->
  exists logs,
    trace (snd (findForUpdate SM E this options w))
    = trace w ++ EvConnQuery c (JStr (query st +:+ " FOR UPDATE")) (allParams st) :: logs /\
    forallb is_log logs = true.
Proof.
  intros Hs Hc Ha Hoff Hst. unfold findForUpdate, buildAndExecuteSelectQuery.
  unfold try_catch. rewrite seq_run.
  rewrite (buildSelectQuery_forUpdate SM options Hoff), Hst. cbn [built pure query allParams].
  destruct (executeQuery_active E this (JStr (query st +:+ " FOR UPDATE")) (allParams st)
              "TRANS_BUILD_SELECT" w s c Hs Hc Ha) as (logs & -> & Hlogs & _).
  destruct (reply E (S (tick w))) as [v|e].
  - by exists logs.
  - exists (logs ++ [EvLog Err "buildAndExecuteSelectQuery failed:" (Failure e)]).
    split; [|by rewrite forallb_app, Hlogs].
    cbn. by rewrite <- app_assoc.
Qed.

(** The theorem on an initialised session, for the first ten users. *)
Lemma findForUpdate_appends_the_lock_clause_witness :
  let w := run_calls all_succeed 0 [CallInit JUndefined] (snd (new_session initial)) in
  let options :=
    {| s_table := JStr "users"; s_fields := JUndefined; s_joins := JUndefined;
       s_where := JObj [("id", JNum 7)]; s_orderBy := JUndefined; s_limit := JNum 10;
       s_offset := JUndefined; s_groupBy := JUndefined; s_having := JUndefined;
       s_alias := JUndefined; s_forUpdate := JUndefined |} in
  exists logs,
    trace (snd (findForUpdate ascii_strings all_succeed 0 options w))
    = trace w ++ EvConnQuery 0 (JStr "SELECT * FROM users WHERE id = ? LIMIT 10 FOR UPDATE")
                   [JNum 7] :: logs /\
    forallb is_log logs = true.
Proof.
  intros w options.
  apply (findForUpdate_appends_the_lock_clause ascii_strings all_succeed 0 options
           {| query := "SELECT * FROM users WHERE id = ? LIMIT 10";
              allParams := [JNum 7] |} w
           {| connection := Some 0; transactionActive := true; debug := false |} 0);
    vm_compute; reflexivity.
Defined.

End SessionFacts.

(** ** The pool cache of connectionManager.ts *)

Module PoolFacts.
Import Js ConnectionManager.

Section Driver.
Variable createPool_throws : list (string * jsval) -> option exn.
Variable end_rejects : pool -> option exn.

Lemma get_last key ps p : get key ps = None -> get key (ps ++ [(key, p)]) = Some p.
Proof.
  induction ps as [|[k q] ps IH]; cbn [get app].
  - by rewrite String.eqb_refl.
  - destruct (String.eqb key k); [done | exact IH].
Qed.

Lemma get_delete key ps : get key (delete key ps) = None.
Proof.
  induction ps as [|[k q] ps IH]; [done|]. unfold delete in *. cbn [List.filter fst].
  destruct (String.eqb key k) eqn:Hk; cbn [negb]; [exact IH|].
  cbn [get]. by rewrite Hk.
Qed.

Lemma or_else_truthy a b : truthy a = true -> or_else a b = a.
Proof. unfold or_else. by intros ->. Qed.

Lemma getPoolKey_truthy conf : truthy conf = true -> getPoolKey conf = Ok (key_text conf).
Proof. by destruct conf. Qed.

(** After a successful [getPool] the pool returned is the one cached
    under the key of the configuration used. *)
Lemma getPool_caches dbConfig m p m1 :
  getPool createPool_throws dbConfig m = (Ok p, m1) ->
  get (key_text (or_else dbConfig (defaultConfig m))) (pools m1) = Some p /\
  defaultConfig m1 = defaultConfig m.
Proof.
  unfold getPool. cbv zeta.
  destruct (truthy (or_else dbConfig (defaultConfig m))) eqn:Hconf; cbn [negb orb];
    [|discriminate].
  destruct (negb _); [discriminate|].
  rewrite (getPoolKey_truthy _ Hconf).
  destruct (get _ (pools m)) as [q|] eqn:Hget.
  - by intros [= <- <-].
  - destruct (createPool_throws _); [discriminate|]. intros [= <- <-].
    cbn [pools defaultConfig with_event info]. split; [by apply get_last | done].
Qed.

(** X23.  Pools are cached by host, port (3306 when absent or zero),
    user and database, and by nothing else.  After [getPool] returned a
    pool for one configuration, [getPool] with a configuration that agrees
    on these four returns the same pool and neither creates a pool nor
    logs: what the second configuration says about the password or the
    connection limit is not looked at. *)
Theorem pool_is_cached_by_key (c1 c2 : jsval) (m m1 : manager) (p : pool) :
  truthy c1 = true ->
  truthy c2 = true ->
  getPool createPool_throws c1 m = (Ok p, m1) ->
  prop c2 "host" = prop c1 "host" ->
  or_else (prop c2 "port") (JNum 3306) = or_else (prop c1 "port") (JNum 3306) ->
  prop c2 "user" = prop c1 "user" ->
  prop c2 "database" = prop c1 "database" ->
  getPool createPool_throws c2 m1 = (Ok p, m1).
Proof.
  intros H1 H2 Hget Hhost Hport Huser Hdb.
  destruct (getPool_caches _ _ _ _ Hget) as [Hcached _].
  assert (truthy (prop c1 "database") = true) as Hdb1.
  { revert Hget. unfold getPool. cbv zeta. rewrite !(or_else_truthy _ _ H1), H1.
    cbn [negb orb]. by destruct (truthy (prop c1 "database")). }
  rewrite (or_else_truthy _ _ H1) in Hcached.
  unfold getPool. cbv zeta. rewrite !(or_else_truthy _ _ H2), H2. cbn [negb orb].
  rewrite Hdb, Hdb1. cbn [negb]. rewrite (getPoolKey_truthy _ H2).
  assert (key_text c2 = key_text c1) as -> by (unfold key_text; congruence).
  by rewrite Hcached.
Qed.

Lemma close_one_events kp m :
  List.filter is_end (events (close_one end_rejects kp m))
  = List.filter is_end (events m) ++ [PoolEnd (snd kp)] /\
  pools (close_one end_rejects kp m) = pools m.
Proof.
  unfold close_one. cbv zeta.
  destruct (end_rejects (snd kp)); cbn [info error with_event events pools logger];
    by rewrite !List.filter_app, <- app_assoc.
Qed.

Lemma close_all_events ps m :
  List.filter is_end (events (fold_left (fun m kp => close_one end_rejects kp m) ps m))
  = List.filter is_end (events m) ++ map (fun kp => PoolEnd (snd kp)) ps.
Proof.
  revert m. induction ps as [|kp ps IH]; intros m; cbn [fold_left map].
  - by rewrite app_nil_r.
  - rewrite IH. destruct (close_one_events kp m) as [-> _]. by rewrite <- app_assoc.
Qed.

(** X24.  [closeAllPools] calls [end()] once on every cached pool, in
    the order the pools were created, whether or not an earlier [end()]
    was rejected, and leaves the cache empty. *)
Theorem closeAllPools_ends_every_pool (m : manager) :
  let m' := closeAllPools end_rejects m in
  pools m' = [] /\
  List.filter is_end (events m')
  = List.filter is_end (events m) ++ map (fun kp => PoolEnd (snd kp)) (pools m).
Proof.
  cbv zeta. unfold closeAllPools. cbn [with_pools pools events]. split; [done|].
  apply close_all_events.
Qed.

(** X25.  [closePool] forgets a pool only when its [end()] succeeded.
    After a [closePool] that returned, nothing is cached under the key of
    the configuration; when it raised, what it raised is the rejection of
    the [end()] of the pool cached under that key, and the cache is as
    before, the pool that was being closed still in it. *)
Theorem closePool_forgets_on_success_only (config : jsval) (m : manager) :
  truthy config = true ->
  let r := fst (closePool end_rejects config m) in
  let m' := snd (closePool end_rejects config m) in
  match r with
  | Ok _ => get (key_text config) (pools m') = None
  | Throw e =>
      pools m' = pools m /\
      exists p, get (key_text config) (pools m) = Some p /\ end_rejects p = Some e
  end.
Proof.
  intros Hc. cbv zeta. unfold closePool. rewrite (getPoolKey_truthy _ Hc).
  destruct (get (key_text config) (pools m)) as [p|] eqn:Hget; cbn [fst snd]; [|done].
  cbv zeta. destruct (end_rejects p) as [e|] eqn:Hend; cbn [fst snd].
  - split; [done|]. by exists p.
  - cbn [info with_event with_pools pools]. apply get_delete.
Qed.

End Driver.

(** The theorem on a pool whose [end()] is rejected. *)
Lemma closePool_forgets_on_success_only_witness :
  let c := JObj [("host", JStr "db"); ("user", JStr "app"); ("database", JStr "shop")] in
  let m1 := snd (getPool (fun _ => None) c empty) in
  let m2 := snd (closePool (fun _ => Some (DriverError "ECONNRESET")) c m1) in
  pools m2 = pools m1.
Proof.
  intros c m1 m2.
  pose proof (closePool_forgets_on_success_only
                (fun _ => Some (DriverError "ECONNRESET")) c m1 eq_refl) as H.
  cbv zeta in H.
  change (fst (closePool (fun _ => Some (DriverError "ECONNRESET")) c m1))
    with (@Throw unit (DriverError "ECONNRESET")) in H.
  exact (proj1 H).
Defined.

(** The theorem on two configurations that differ in the password, the
    connection limit and the way they give the port. *)
Lemma pool_is_cached_by_key_witness :
  let c1 := JObj [("host", JStr "db"); ("user", JStr "app"); ("password", JStr "one");
                  ("database", JStr "shop")] in
  let c2 := JObj [("host", JStr "db"); ("port", JNum 3306); ("user", JStr "app");
                  ("password", JStr "two"); ("database", JStr "shop");
                  ("connectionLimit", JNum 50)] in
  let m1 := snd (getPool (fun _ => None) c1 empty) in
  getPool (fun _ => None) c2 m1 = (Ok 0, m1).
Proof.
  intros c1 c2 m1.
  apply (pool_is_cached_by_key (fun _ => None) c1 c2 empty m1 0); reflexivity.
Defined.

Section Collisions.
Variable createPool_throws : list (string * jsval) -> option exn.

(** X26.  The key joins its four parts with colons and does not escape
    them, so it does not tell a colon inside a part from a separator: a
    configuration with user [u:x] and database [d] has the key of the
    configuration with user [u] and database [x:d].  After [getPool]
    returned a pool for the first, [getPool] for the second returns that
    pool, created for another user and another database. *)
Theorem pool_key_does_not_escape_colons (host u x d : string) (m m1 : manager) (p : pool) :
  let c1 := JObj [("host", JStr host); ("user", JStr (u +:+ ":" +:+ x));
                  ("database", JStr d)] in
  let c2 := JObj [("host", JStr host); ("user", JStr u);
                  ("database", JStr (x +:+ ":" +:+ d))] in
  getPool createPool_throws c1 m = (Ok p, m1) ->
  getPool createPool_throws c2 m1 = (Ok p, m1).
Proof.
  intros c1 c2 Hget.
  destruct (getPool_caches _ _ _ _ _ Hget) as [Hcached _].
  rewrite (or_else_truthy c1 _ eq_refl) in Hcached.
  unfold getPool. cbv zeta. rewrite !(or_else_truthy c2 _ eq_refl).
  assert (truthy (prop c2 "database") = true) as ->.
  { cbn. by destruct x. }
  cbn [truthy c2 negb orb]. rewrite (getPoolKey_truthy c2 eq_refl).
  assert (key_text c2 = key_text c1) as ->.
  { unfold key_text, c1, c2. cbn [prop lookup_prop String.eqb Ascii.eqb Bool.eqb default
                                   to_string or_else truthy].
    cbn. by rewrite !JsFacts.append_assoc. }
  by rewrite Hcached.
Qed.

End Collisions.

(** The theorem on the users [app] and [app:eu] of one host. *)
Lemma pool_key_does_not_escape_colons_witness :
  let c1 := JObj [("host", JStr "db"); ("user", JStr "app:eu"); ("database", JStr "shop")] in
  let c2 := JObj [("host", JStr "db"); ("user", JStr "app"); ("database", JStr "eu:shop")] in
  let m1 := snd (getPool (fun _ => None) c1 empty) in
  getPool (fun _ => None) c2 m1 = (Ok 0, m1).
Proof.
  intros c1 c2 m1.
  apply (pool_key_does_not_escape_colons (fun _ => None) "db" "app" "eu" "shop" empty m1 0).
  reflexivity.
Defined.

End PoolFacts.

(** ** The metrics of performanceMonitor.ts *)

Module MonitorFacts.
Import Js CrudMore PerformanceMonitor.

Section Strings.
Variable S : strings.

Lemma total_bump type c : total (bump type c) = Datatypes.S (total c).
Proof. destruct type; unfold total; cbn; lia. Qed.

(** One call on an enabled monitor. *)
Lemma recordQuery_enabled now query duration params m :
  enabled m = true ->
  let m' := recordQuery S now query duration params m in
  let pushed := queries m ++ [metric_of S (now, query, duration, params)] in
  enabled m' = true /\
  queries m' = (if (1000 <? List.length pushed)%nat then shift pushed else pushed) /\
  total (queryCountByType m') = Datatypes.S (total (queryCountByType m)).
Proof.
  intros Hon. cbv zeta. unfold recordQuery. rewrite Hon. cbn [negb enabled queries
    queryCountByType metric_of]. by rewrite total_bump.
Qed.

Lemma trim_once {A} (l : list A) (x : A) :
  List.length l <= 1000 ->
  (if (1000 <? List.length (l ++ [x]))%nat then shift (l ++ [x]) else l ++ [x])
  = drop (List.length (l ++ [x]) - 1000) (l ++ [x]).
Proof.
  intros Hlen. rewrite length_app. cbn [List.length].
  destruct (Nat.ltb_spec 1000 (List.length l + 1)) as [Hfull|Hroom].
  - replace (List.length l + 1 - 1000) with 1 by lia. by destruct l.
  - by replace (List.length l + 1 - 1000) with 0 by lia.
Qed.

Lemma drop_window {A} (l k : list A) :
  let kept := drop (List.length l - 1000) l in
  drop (List.length (kept ++ k) - 1000) (kept ++ k)
  = drop (List.length (l ++ k) - 1000) (l ++ k).
Proof.
  cbv zeta. rewrite !length_app, length_drop.
  destruct (Nat.le_gt_cases (List.length l) 1000) as [Hle|Hgt].
  - replace (List.length l - 1000) with 0 by lia. cbn [drop]. f_equal. lia.
  - replace (List.length l - (List.length l - 1000) + List.length k - 1000)
      with (List.length k) by lia.
    replace (List.length l + List.length k - 1000)
      with ((List.length l - 1000) + List.length k) by lia.
    rewrite <- drop_drop. f_equal. rewrite drop_app_le by lia. done.
Qed.

(** X27.  An enabled monitor keeps the last 1000 metrics and counts
    every query.  After any number of [recordQuery] calls on a monitor
    that held at most 1000 metrics, [queries] is the last 1000 of what it
    held followed by what was recorded (all of it when that is less), in
    order, while the counters of [queryCountByType] have grown by one per
    call: once more than 1000 queries were recorded the counters add up
    to more than the number of metrics kept. *)
Theorem monitor_keeps_the_last_1000 (rs : list record) (m : monitor) :
  enabled m = true ->
  List.length (queries m) <= 1000 ->
  let m' := recordAll S rs m in
  let all := queries m ++ map (metric_of S) rs in
  queries m' = drop (List.length all - 1000) all /\
  List.length (queries m') = Nat.min 1000 (List.length all) /\
  total (queryCountByType m') = total (queryCountByType m) + List.length rs.
Proof.
  intros Hon Hlen. cbv zeta.
  assert (queries (recordAll S rs m)
          = drop (List.length (queries m ++ map (metric_of S) rs) - 1000)
              (queries m ++ map (metric_of S) rs) /\
          total (queryCountByType (recordAll S rs m))
          = total (queryCountByType m) + List.length rs) as [Hq Hn].
  { revert m Hon Hlen. induction rs as [|[[[now query] duration] params] rs IH];
      intros m Hon Hlen.
    - cbn [recordAll fold_left map List.length]. rewrite app_nil_r.
      replace (List.length (queries m) - 1000) with 0 by lia. split; [done | lia].
    - change (recordAll S ((now, query, duration, params) :: rs) m)
        with (recordAll S rs (recordQuery S now query duration params m)).
      destruct (recordQuery_enabled now query duration params m Hon) as (Hon' & Hq' & Hn').
      rewrite (trim_once _ _ Hlen) in Hq'.
      destruct (IH (recordQuery S now query duration params m) Hon') as [Hq Hn].
      { rewrite Hq', length_drop, length_app. cbn [List.length]. lia. }
      split.
      + rewrite Hq, Hq'. cbn [map].
        rewrite (drop_window (queries m ++ [metric_of S (now, query, duration, params)])
                   (map (metric_of S) rs)).
        by rewrite <- app_assoc.
      + rewrite Hn, Hn'. cbn [List.length]. lia. }
  split_and!; [done | | done].
  rewrite Hq, length_drop. lia.
Qed.

End Strings.

(** The theorem on 1001 queries recorded by a monitor just enabled. *)
Lemma monitor_keeps_the_last_1000_witness :
  let rs := List.repeat (0%Z, "SELECT 1", 5%Z, JUndefined) 1001 in
  let m' := recordAll ascii_strings rs (enable 0 created) in
  List.length (queries m') = 1000 /\ total (queryCountByType m') = 1001.
Proof.
  intros rs m'.
  destruct (monitor_keeps_the_last_1000 ascii_strings rs (enable 0 created))
    as (_ & Hlen & Hcount); [reflexivity | cbn; lia |].
  cbv zeta in Hlen, Hcount. fold m' in Hlen, Hcount.
  split; [rewrite Hlen | rewrite Hcount]; vm_compute; reflexivity.
Defined.

End MonitorFacts.

(** ** [upsert] *)

Module UpsertFacts.
Import Js Crud CrudMore Runtime CrudApi CrudSelect CrudUpsert JsFacts EntryFacts.

Lemma other_fields_none fields conflictKeys :
  Forall (fun f => includes_string conflictKeys f = true) fields ->
  other_fields fields conflictKeys = [].
Proof.
  induction 1 as [|f fields Hf _ IH]; [done|].
  unfold other_fields in *. cbn [List.filter]. by rewrite Hf.
Qed.

(** X28.  Without [updateFields], [upsert] updates the keys of [data]
    that are not conflict keys, so it needs one: when every key of [data]
    is a conflict key (or [data] has no key), it raises
    [No fields to update on duplicate key] and nothing is asked of the
    environment. *)
Theorem upsert_needs_a_field_to_update (E : env) (table data options dbConfig : jsval)
    (es : list (string * jsval)) (w : world) :
  truthy table = true ->
  truthy data = true ->
  entries data = Ok es ->
  truthy (prop options "conflictKey") = true ->
  truthy (prop options "updateFields") = false ->
  Forall (fun f => includes_string (as_list (prop options "conflictKey")) f = true)
    (map fst es) ->
  upsert E table data options dbConfig w
  = (Throw (Error "No fields to update on duplicate key"), w).
Proof.
  intros Ht Hd Hes Hck Huf Hall. unfold upsert, upsert_statement.
  rewrite Ht, Hd. cbn [negb].
  assert (member options "conflictKey" = Ok (prop options "conflictKey")) as ->.
  { by destruct options. }
  cbn [rbind]. rewrite Hck. cbn [negb]. rewrite Hes. cbn [rbind]. rewrite Huf.
  by rewrite (other_fields_none _ _ Hall).
Qed.

(** The theorem at [upsert('users', {email: 'a@b.c'}, {conflictKey: 'email'})]. *)
Lemma upsert_needs_a_field_to_update_witness :
  upsert Lifetime.all_succeed (JStr "users") (JObj [("email", JStr "a@b.c")])
    (JObj [("conflictKey", JStr "email")]) JUndefined initial
  = (Throw (Error "No fields to update on duplicate key"), initial).
Proof.
  apply (upsert_needs_a_field_to_update Lifetime.all_succeed (JStr "users")
           (JObj [("email", JStr "a@b.c")]) (JObj [("conflictKey", JStr "email")])
           JUndefined [("email", JStr "a@b.c")] initial);
    try reflexivity.
  repeat constructor.
Defined.

(** X29.  When the statement is built and sent, [upsert] raises what
    [executeQuery] raised, or a [TypeError] when the driver resolved with
    [null] or [undefined]; otherwise it reports [inserted] exactly when the
    driver's [affectedRows] is the number 1, and [updated] in every other
    case: two rows, no row (nothing changed), or no [affectedRows] at
    all. *)
Theorem upsert_reports_updated_unless_one_row (E : env)
    (table data options dbConfig : jsval) (st : statement) (w : world) :
  upsert_statement table data options = Ok st ->
  let sent := CrudApi.executeQuery E (JStr (query st)) (allParams st) dbConfig "upsert" w in
  upsert E table data options dbConfig w
  = (match fst sent with
     | Throw e => Throw e
     | Ok JUndefined | Ok JNull => Throw TypeError
     | Ok res =>
         Ok (JObj [("action", JStr (match prop res "affectedRows" with
                                    | JNum 1 => "inserted"
                                    | _ => "updated"
                                    end));
                   ("affectedRows", prop res "affectedRows");
                   ("insertId", prop res "insertId")])
     end, snd sent).
Proof.
  intros Hst. cbv zeta. unfold upsert. rewrite Hst. unfold built. rewrite seq_pure.
  rewrite seq_run.
  destruct (CrudApi.executeQuery E (JStr (query st)) (allParams st) dbConfig "upsert" w)
    as [[res|e] w1]; cbn [fst snd]; [|done].
  destruct res; try done; rewrite seq_run; cbn [result_prop pure prop];
    unfold action_of, strict_eq_num.
  all: try done.
  destruct (default JUndefined (lookup_prop "affectedRows" props)) as [ | | | n | | | ];
    try done.
  destruct (Z.eqb_spec n 1) as [->|Hn]; [done|].
  destruct n as [|[ | | ]|]; try done.
Qed.

(** The theorem on a driver that reports no affected row. *)
Lemma upsert_reports_updated_unless_one_row_witness :
  let E := {| reply := fun _ => Resolved (JObj [("affectedRows", JNum 0)]);
              now := fun _ => 0%Z |} in
  fst (upsert E (JStr "users") (JObj [("email", JStr "a@b.c"); ("name", JStr "Ann")])
         (JObj [("conflictKey", JStr "email")]) JUndefined initial)
  = Ok (JObj [("action", JStr "updated"); ("affectedRows", JNum 0);
              ("insertId", JUndefined)]).
Proof.
  intros E.
  rewrite (upsert_reports_updated_unless_one_row E (JStr "users")
             (JObj [("email", JStr "a@b.c"); ("name", JStr "Ann")])
             (JObj [("conflictKey", JStr "email")]) JUndefined
             {| query := "INSERT INTO users (email, name) VALUES (?, ?) ON DUPLICATE KEY UPDATE name = VALUES(name)";
                allParams := [JStr "a@b.c"; JStr "Ann"] |} initial eq_refl).
  reflexivity.
Defined.

End UpsertFacts.

(** ** [bulkInsert] *)

Module BulkFacts.
Import Js Crud CrudMore Runtime CrudApi CrudSelect CrudUpsert CrudBulk JsFacts CrudFacts
  CompilerFacts BuilderFacts EntryFacts.

Lemma sent_app tr evs : sent (tr ++ evs) = sent tr ++ sent evs.
Proof. unfold sent. apply omap_app. Qed.

Lemma sent_logs evs :
  forallb (fun ev => match ev with EvPoolQuery _ _ => false | _ => true end) evs = true ->
  sent evs = [].
Proof.
  induction evs as [|ev evs IH]; [done|]. cbn [forallb].
  intros [Hev Hevs]%andb_true_iff. unfold sent in *. cbn [omap].
  destruct ev; try discriminate; by apply IH.
Qed.

(** A statement that the pool and the driver answer. *)
Lemma executeQuery_answered E sql args dbConfig operation w v0 v :
  reply E (S (tick w)) = Resolved v0 ->
  reply E (S (S (tick w))) = Resolved v ->
  exists w',
    CrudApi.executeQuery E sql args dbConfig operation w = (Ok v, w') /\
    sent (trace w') = sent (trace w) ++ [(sql, args)].
Proof.
  destruct w as [t n m inst tr]. cbn [tick trace]. intros H0 H1.
  run_crud. rewrite H0. cbv beta iota. rewrite H1. cbv beta iota.
  destruct (1000 <? now E (S (S (S t))) - now E t)%Z; cbv beta iota;
    [destruct (List.length args =? 0)%nat; cbv [negb]; cbv beta iota|];
    (eexists; split; [reflexivity|]; cbn [trace];
     rewrite <- ?app_assoc, sent_app; f_equal).
Qed.

Lemma slice_batch {A} (l : list A) (i b : nat) :
  i < List.length l -> 0 < b ->
  slice l (Z.of_nat i) (Z.of_nat i + Z.of_nat b) = take b (drop i l).
Proof.
  intros Hi Hb. unfold slice. cbv zeta.
  destruct (Z.ltb_spec (Z.of_nat i) 0) as [?|_]; [lia|].
  destruct (Z.ltb_spec (Z.of_nat i + Z.of_nat b) 0) as [?|_]; [lia|].
  replace (Z.to_nat (Z.min (Z.of_nat i) (Z.of_nat (List.length l)))) with i by lia.
  destruct (Nat.le_gt_cases (i + b) (List.length l)) as [Hfit|Hlast].
  - f_equal. lia.
  - rewrite (take_ge (drop i l) b) by (rewrite length_drop; lia).
    apply take_ge. rewrite length_drop. lia.
Qed.

Lemma ceil_div_step (m b : nat) :
  0 < m -> 0 < b ->
  ceil_div (Z.of_nat m) (Z.of_nat b) = (1 + ceil_div (Z.of_nat (m - b)) (Z.of_nat b))%Z.
Proof.
  intros Hm Hb. unfold ceil_div.
  destruct (Nat.le_gt_cases b m) as [Hge|Hlt].
  - replace (- Z.of_nat (m - b))%Z with (- Z.of_nat m + 1 * Z.of_nat b)%Z by lia.
    rewrite Z.div_add by lia. lia.
  - replace (m - b) with 0 by lia. cbn [Z.of_nat Z.opp]. rewrite Z.div_0_l by lia.
    assert ((- Z.of_nat m) / Z.of_nat b = -1)%Z as ->; [|lia].
    symmetry. apply (Z.div_unique _ _ _ (Z.of_nat b - Z.of_nat m)%Z); lia.
Qed.

Section Loop.
Variable N : numbers.
Variable E : env.
Hypothesis Hanswers : always_answers E.

Lemma account_answered i res t w :
  is_undefined res = false -> is_null res = false ->
  exists t', account N i res t w = (Ok t', w).
Proof.
  intros Hu Hn. unfold account. rewrite seq_run.
  destruct res; try discriminate; cbn [result_prop pure]; by eexists.
Qed.

(** The loop with a positive batch size, from the record at index [i]. *)
Lemma batches_from_positive table fields isIgnore records (b : nat) dbConfig :
  0 < b ->
  forall fuel i t w,
    List.length records - i < fuel ->
    exists t' w' bs,
      batches_from N E fuel table fields isIgnore records (Z.of_nat b) dbConfig
        (Z.of_nat i) t w = (Ok (Some t'), w') /\
      concat bs = drop i records /\
      Forall (fun batch => batch <> [] /\ List.length batch <= b) bs /\
      Z.of_nat (List.length bs)
      = ceil_div (Z.of_nat (List.length records - i)) (Z.of_nat b) /\
      sent (trace w') = sent (trace w) ++ map (batch_query table fields isIgnore) bs.
Proof.
  intros Hb. induction fuel as [|fuel IH]; intros i t w Hfuel; [lia|].
  cbn [batches_from].
  destruct (Z.ltb_spec (Z.of_nat i) (Z.of_nat (List.length records))) as [Hin|Hout].
  - cbv zeta. rewrite seq_run.
    destruct (Hanswers (S (tick w))) as (v0 & H0 & _).
    destruct (Hanswers (S (S (tick w)))) as (v & H1 & Hu & Hn).
    destruct (executeQuery_answered E
                (JStr (query (batch_statement table fields isIgnore
                                (slice records (Z.of_nat i) (Z.of_nat i + Z.of_nat b)))))
                (allParams (batch_statement table fields isIgnore
                              (slice records (Z.of_nat i) (Z.of_nat i + Z.of_nat b))))
                dbConfig "bulkInsert" w v0 v H0 H1) as (w1 & -> & Hsent1).
    rewrite seq_run.
    destruct (account_answered (Z.of_nat i) v t w1 Hu Hn) as (t1 & ->).
    replace (Z.of_nat i + Z.of_nat b)%Z with (Z.of_nat (i + b)) by lia.
    destruct (IH (i + b) t1 w1) as (t' & w' & bs & -> & Hcat & Hall & Hlen & Hsent);
      [lia|].
    exists t', w', (take b (drop i records) :: bs).
    split; [done|]. split_and!.
    + cbn [concat]. rewrite Hcat, <- (drop_drop records b i). apply take_drop.
    + constructor; [|done]. split.
      * intros Hnil%(f_equal List.length).
        rewrite length_take, length_drop in Hnil. cbn [List.length] in Hnil. lia.
      * rewrite length_take. lia.
    + cbn [List.length]. rewrite Nat2Z.inj_succ, Hlen.
      rewrite (ceil_div_step (List.length records - i) b) by lia.
      replace (List.length records - i - b) with (List.length records - (i + b)) by lia.
      lia.
    + rewrite Hsent, Hsent1, <- app_assoc. cbn [map app]. do 2 f_equal.
      unfold batch_query. cbv zeta.
      replace (Z.of_nat (i + b)) with (Z.of_nat i + Z.of_nat b)%Z by lia.
      by rewrite slice_batch by lia.
  - exists t, w, []. split; [done|]. split_and!.
    + rewrite drop_ge by lia. done.
    + constructor.
    + replace (List.length records - i) with 0 by lia. unfold ceil_div. cbn.
      by rewrite Z.div_0_l by lia.
    + by rewrite app_nil_r.
Qed.

(** The loop with a negative batch size never ends while the driver
    answers: its index only decreases. *)
Lemma batches_from_negative table fields isIgnore records (b : Z) dbConfig :
  (b < 0)%Z -> records <> [] ->
  forall fuel i t w,
    (i <= 0)%Z ->
    exists w', batches_from N E fuel table fields isIgnore records b dbConfig i t w
               = (Ok None, w') /\
               List.length (sent (trace w')) = List.length (sent (trace w)) + fuel.
Proof.
  intros Hb Hrs. induction fuel as [|fuel IH]; intros i t w Hi.
  - exists w. split; [done | lia].
  - cbn [batches_from].
    destruct (Z.ltb_spec i (Z.of_nat (List.length records))) as [_|Hout].
    2: { destruct records; [done | cbn [List.length] in Hout; lia]. }
    cbv zeta. rewrite seq_run.
    destruct (Hanswers (S (tick w))) as (v0 & H0 & _).
    destruct (Hanswers (S (S (tick w)))) as (v & H1 & Hu & Hn).
    destruct (executeQuery_answered E
                (JStr (query (batch_statement table fields isIgnore
                                (slice records i (i + b)))))
                (allParams (batch_statement table fields isIgnore
                              (slice records i (i + b))))
                dbConfig "bulkInsert" w v0 v H0 H1) as (w1 & -> & Hsent1).
    rewrite seq_run.
    destruct (account_answered i v t w1 Hu Hn) as (t1 & ->).
    destruct (IH (i + b)%Z t1 w1) as (w' & -> & Hlen); [lia|].
    exists w'. split; [done|]. rewrite Hlen, Hsent1, length_app. cbn [List.length]. lia.
Qed.

End Loop.

Lemma batch_placeholders table fields isIgnore batch :
  count_placeholders (to_string table) = 0 ->
  Forall (fun f => count_placeholders f = 0) fields ->
  count_placeholders (query (batch_statement table fields isIgnore batch))
  = List.length (allParams (batch_statement table fields isIgnore batch)).
Proof.
  intros Htab Hkeys. cbn [batch_statement query allParams].
  rewrite !count_placeholders_app, Htab.
  rewrite !(count_placeholders_join ", ") by done.
  assert (list_sum (map count_placeholders fields) = 0) as ->.
  { induction Hkeys as [|f l Hf Hl IH]; [done|]. simpl. rewrite Hf, IH. done. }
  assert (count_placeholders (row_placeholders fields) = List.length fields) as Hrow.
  { unfold row_placeholders. rewrite !count_placeholders_app, count_placeholders_marks.
    simpl. lia. }
  assert (list_sum (map count_placeholders (map (fun _ => row_placeholders fields) batch))
          = List.length (concat (map (row_values fields) batch))) as ->.
  { induction batch as [|r batch IH]; [done|].
    cbn [map list_sum fold_right concat]. fold (list_sum
      (map count_placeholders (map (fun _ : jsval => row_placeholders fields) batch))).
    rewrite length_app, IH, Hrow. unfold row_values. by rewrite length_map. }
  destruct isIgnore; simpl; lia.
Qed.

(** X30.  For a batch size that is an integer: while the driver answers
    every statement, [bulkInsert] binds every record exactly once when the
    batch size is positive (the default 1000, taken for an absent or zero
    size, included): it returns after [ceil(n / batchSize)] statements,
    reported as [batches], whose batches are the records in order, none
    empty and none longer than the batch size, each statement with as many
    placeholders as parameters when the table and the field names contain
    no [?].  With a negative integer batch size it never returns: the loop
    is still sending statements after any number of rounds. *)
Theorem bulkInsert_binds_every_record (N : numbers) (E : env) (table first : jsval)
    (rest : list jsval) (options : BulkOptions) (dbConfig : jsval)
    (es : list (string * jsval)) (w : world) :
  truthy table = true ->
  entries first = Ok es ->
  validate (map fst es) (first :: rest) = Ok tt ->
  always_answers E ->
  let records := first :: rest in
  let fields := map fst es in
  let isIgnore := truthy (b_ignore options) in
  ((0 < batch_size options)%Z ->
   forall fuel, List.length records < fuel ->
     exists r bs,
       fst (bulkInsert N E fuel table (JArr records) options dbConfig w) = Ok (Some r) /\
       prop r "batches" = JNum (Z.of_nat (List.length bs)) /\
       Z.of_nat (List.length bs)
       = ceil_div (Z.of_nat (List.length records)) (batch_size options) /\
       concat bs = records /\
       Forall (fun batch => batch <> [] /\
                            (Z.of_nat (List.length batch) <= batch_size options)%Z) bs /\
       sent (trace (snd (bulkInsert N E fuel table (JArr records) options dbConfig w)))
       = sent (trace w) ++ map (batch_query table fields isIgnore) bs /\
       (count_placeholders (to_string table) = 0 ->
        Forall (fun f => count_placeholders f = 0) fields ->
        Forall (fun batch =>
                  count_placeholders (query (batch_statement table fields isIgnore batch))
                  = List.length (allParams (batch_statement table fields isIgnore batch)))
          bs)) /\
  ((batch_size options < 0)%Z ->
   forall fuel,
     fst (bulkInsert N E fuel table (JArr records) options dbConfig w) = Ok None /\
     List.length
       (sent (trace (snd (bulkInsert N E fuel table (JArr records) options dbConfig w))))
     = List.length (sent (trace w)) + fuel).
Proof.
  intros Ht Hes Hvalid Hanswers. cbv zeta. split.
  - intros Hb fuel Hfuel. unfold bulkInsert. rewrite Ht. cbn [negb]. cbv zeta.
    rewrite Hes. cbn [built]. rewrite seq_pure. rewrite Hvalid. cbn [built].
    rewrite seq_pure. rewrite seq_run.
    destruct (batches_from_positive N E Hanswers table (map fst es)
                (truthy (b_ignore options)) (first :: rest)
                (Z.to_nat (batch_size options)) dbConfig ltac:(lia) fuel 0
                {| totalInserted := JNum 0; firstInsertId := JUndefined;
                   lastInsertId := JUndefined |} w ltac:(lia))
      as (t' & w' & bs & Hrun & Hcat & Hall & Hlen & Hsent).
    rewrite Z2Nat.id in Hrun, Hlen by lia. change (Z.of_nat 0) with 0%Z in Hrun.
    rewrite Hrun.
    rewrite Nat.sub_0_r in Hlen. cbn [drop] in Hcat.
    eexists _, bs. cbn [fst snd seq log emit pure trace]. split; [reflexivity|].
    split_and!.
    + cbn. by rewrite Hlen.
    + done.
    + done.
    + eapply Forall_impl; [exact Hall|]. cbn. intros batch [? ?]. split; [done | lia].
    + rewrite sent_app, Hsent. cbn. by rewrite app_nil_r.
    + intros Htab Hkeys. apply Forall_forall. intros batch _.
      by apply batch_placeholders.
  - intros Hb fuel. unfold bulkInsert. rewrite Ht. cbn [negb]. cbv zeta.
    rewrite Hes. cbn [built]. rewrite seq_pure. rewrite Hvalid. cbn [built].
    rewrite seq_pure. rewrite seq_run.
    destruct (batches_from_negative N E Hanswers table (map fst es)
                (truthy (b_ignore options)) (first :: rest) (batch_size options)
                dbConfig Hb ltac:(done) fuel 0%Z
                {| totalInserted := JNum 0; firstInsertId := JUndefined;
                   lastInsertId := JUndefined |} w ltac:(lia))
      as (w' & -> & Hlen).
    done.
Qed.

(** The theorem on three records in batches of two. *)
Lemma bulkInsert_binds_every_record_witness :
  let E := {| reply := fun _ => Resolved (JObj [("affectedRows", JNum 2);
                                                ("insertId", JNum 10)]);
              now := fun _ => 0%Z |} in
  let records := [JObj [("name", JStr "a")]; JObj [("name", JStr "b")];
                  JObj [("name", JStr "c")]] in
  exists r bs,
    fst (bulkInsert integer_numbers E 4 (JStr "users") (JArr records)
           {| b_batchSize := Some 2%Z; b_ignore := JUndefined |} JUndefined initial)
    = Ok (Some r) /\
    prop r "batches" = JNum (Z.of_nat (List.length bs)) /\
    Z.of_nat (List.length bs) = 2%Z /\
    concat bs = records.
Proof.
  intros E records.
  destruct (bulkInsert_binds_every_record integer_numbers E (JStr "users")
              (JObj [("name", JStr "a")])
              [JObj [("name", JStr "b")]; JObj [("name", JStr "c")]]
              {| b_batchSize := Some 2%Z; b_ignore := JUndefined |} JUndefined
              [("name", JStr "a")] initial eq_refl eq_refl eq_refl) as [Hpos _].
  { intros k. eexists. split; [reflexivity|]. by split. }
  destruct (Hpos ltac:(reflexivity) 4 ltac:(cbn; lia))
    as (r & bs & Hr & Hbatches & Hlen & Hcat & _).
  exists r, bs. split_and!; [exact Hr | exact Hbatches | exact Hlen | exact Hcat].
Defined.

End BulkFacts.
